(** * UniRep Synchronizer: a shallow embedding of
    [packages/core/src/Synchronizer.ts] and the properties of its event
    handlers.

    Conventions of the embedding.
    - JS [Number] and [BigInt] values, and the decimal strings the store keeps
      for field elements ([x.toString()]), are integers of [Z]: two canonical
      decimal strings are equal exactly when the numbers are.  The numbers
      of a log are taken below 2^53, where [Number] is exact; the one
      [Number] the code computes that can pass 2^53, the index of an
      Attestation row, is rounded as the code rounds it.
    - A table of the store is the list of its rows in insertion order;
      [findOne] returns the first matching row, [findMany] all of them.
    - [this._db] is read directly by the handlers; the writes go to the
      transaction writer [db], which queues them and applies them in order
      when the transaction commits.  A handler that throws commits nothing.
    - A field that a handler leaves out of a created row is [None]. *)

From Stdlib Require Import ZArith List Bool String Lia Sorting.Sorted
  Sorting.Permutation Numbers.DecimalString.
Import ListNotations.
Local Open Scope string_scope.
Local Open Scope Z_scope.

Set Implicit Arguments.

(** ** External collaborators *)

Inductive Circuit :=
| userStateTransition | processAttestations | startTransition
| proveUserSignUp | proveReputation | verifyEpochKey.

(** [interface Prover]: the zk verifier, an opaque boolean oracle. *)
Class Prover := {
  verifyProof : Circuit -> list Z -> list Z -> bool
}.

(** The primitives imported from [@unirep/crypto], [./utils] and
    [@unirep/contracts]: hash, incremental and sparse Merkle trees. *)
Class Crypto := {
  hashLeftRight : Z -> Z -> Z;
  IncrementalMerkleTree : Type;
  newIncrementalMerkleTree : Z -> option Z -> IncrementalMerkleTree;
  imt_insert : IncrementalMerkleTree -> Z -> IncrementalMerkleTree;
  imt_root : IncrementalMerkleTree -> Z;
  SparseMerkleTree : Type;
  genNewSMT : Z -> Z -> SparseMerkleTree;
  smt_update : SparseMerkleTree -> Z -> Z -> SparseMerkleTree;
  smt_root : SparseMerkleTree -> Z;
  SMT_ONE_LEAF : Z;
  computeEmptyUserStateRoot : Z -> Z;
  computeInitUserStateRoot : Z -> Z -> Z -> Z;
  (** [new Attestation(attesterId, posRep, negRep, graffiti, signUp).hash()] *)
  attestation_hash : Z -> Z -> Z -> Z -> Z -> Z
}.

(** The constants read from the contract ([unirepContract.treeDepths()] and
    the like). *)
Record UnirepContract := {
  globalStateTreeDepth : Z;
  userStateTreeDepth : Z;
  epochTreeDepth : Z;
  numEpochKeyNoncePerEpoch : nat;
  maxReputationBudget : Z;
  epochLength : Z;
  attestingFee : Z
}.

(** What a deployment fixes besides the code: the contract, the default the
    schema gives [Nullifier.confirmed] (the schema file is not among the
    sources and the handlers never write the field), and the array sizes of
    the userStateTransition circuit, [K] and [M] of the public-signal
    layout. *)
Class Deployment := {
  unirepContract : UnirepContract;
  confirmedDefault : option bool;
  numEpkNullifiers : nat;
  numBlindedHashChains : nat
}.

(** ** The persisted records *)

Module Schema.

Record Epoch := {
  number : Z;
  sealed : bool;
  epochRoot : option Z
}.

Record GSTLeaf := {
  gl_epoch : Z;
  gl_transactionHash : string;
  gl_hash : Z;
  gl_index : Z
}.

Record GSTRoot := {
  gr_epoch : Z;
  gr_root : Z
}.

Record EpochKey := {
  ek_epoch : Z;
  ek_key : Z
}.

Record Attestation := {
  at_epoch : Z;
  at_epochKey : Z;
  at_index : Z;
  at_transactionHash : string;
  at_attester : string;
  at_proofIndex : Z;
  at_attesterId : Z;
  at_posRep : Z;
  at_negRep : Z;
  at_graffiti : Z;
  at_signUp : bool;
  at_hash : Z;
  at_valid : option bool
}.

Record Nullifier := {
  nf_epoch : Z;
  nf_nullifier : Z;
  nf_confirmed : option bool
}.

Inductive ProofEvent :=
| IndexedEpochKeyProof | IndexedReputationProof | IndexedUserSignedUpProof
| IndexedStartedTransitionProof | IndexedProcessedAttestationsProof
| IndexedUserStateTransitionProof.

Record Proof := {
  pf_index : Z;
  pf_event : ProofEvent;
  pf_epoch : option Z;
  pf_proof : list Z;
  pf_publicSignals : option (list Z);
  pf_transactionHash : string;
  pf_valid : bool;
  pf_spent : option bool;
  pf_blindedUserState : option Z;
  pf_blindedHashChain : option Z;
  pf_outputBlindedUserState : option Z;
  pf_outputBlindedHashChain : option Z;
  pf_inputBlindedUserState : option Z;
  pf_globalStateTree : option Z;
  pf_proofIndexRecords : option (list Z)
}.

Record SynchronizerState := {
  latestProcessedBlock : Z;
  latestProcessedTransactionIndex : Z;
  latestProcessedEventIndex : Z;
  latestCompleteBlock : Z
}.

End Schema.
Import Schema.

Definition ProofEvent_eqb (a b : ProofEvent) : bool :=
  match a, b with
  | IndexedEpochKeyProof, IndexedEpochKeyProof
  | IndexedReputationProof, IndexedReputationProof
  | IndexedUserSignedUpProof, IndexedUserSignedUpProof
  | IndexedStartedTransitionProof, IndexedStartedTransitionProof
  | IndexedProcessedAttestationsProof, IndexedProcessedAttestationsProof
  | IndexedUserStateTransitionProof, IndexedUserStateTransitionProof => true
  | _, _ => false
  end.

(** A field compared with a value in a [where] clause: an unset field matches
    no value. *)
Definition field_is (f : option Z) (v : Z) : bool :=
  match f with Some x => x =? v | None => false end.

Definition flag_is (f : option bool) (v : bool) : bool :=
  match f with Some x => Bool.eqb x v | None => false end.

(** JS truthiness of an optional boolean field. *)
Definition truthy (f : option bool) : bool :=
  match f with Some true => true | _ => false end.

(** [a !== b] on two optional string fields. *)
Definition opt_neq (a b : option Z) : bool :=
  match a, b with
  | Some x, Some y => negb (x =? y)
  | None, None => false
  | _, _ => true
  end.

Definition Z_in (x : Z) (l : list Z) : bool := existsb (Z.eqb x) l.

(** ** Sorting

    Both sorts of the code, [Array.prototype.sort] with a comparator and the
    store's [orderBy], are stable: an insertion sort that keeps elements that
    compare equal in their order. *)

Section StableSort.

Variable A : Type.
Variable leb : A -> A -> bool.

Fixpoint insert_sorted (x : A) (l : list A) : list A :=
  match l with
  | [] => [x]
  | y :: l' => if leb x y then x :: y :: l' else y :: insert_sorted x l'
  end.

Definition stable_sort (l : list A) : list A :=
  fold_right insert_sorted [] l.

End StableSort.

(** ** Exceptions *)

Inductive Exn :=
| Error (msg : string)
| TypeError (msg : string)
| SyntaxError (msg : string).

Inductive Result (A : Type) :=
| Ok (a : A)
| Throw (e : Exn).
Arguments Ok {A} a.
Arguments Throw {A} e.

(** ** The store and its transaction writer *)

Record Store := {
  Epochs : list Epoch;
  GSTLeaves : list GSTLeaf;
  GSTRoots : list GSTRoot;
  EpochKeys : list EpochKey;
  Attestations : list Attestation;
  Nullifiers : list Nullifier;
  Proofs : list Proof;
  SynchronizerStates : list SynchronizerState
}.

Definition emptyStore : Store :=
  {| Epochs := []; GSTLeaves := []; GSTRoots := []; EpochKeys := [];
     Attestations := []; Nullifiers := []; Proofs := [];
     SynchronizerStates := [] |}.

Module DB.

Definition findOne {A} (where_ : A -> bool) (table : list A) : option A :=
  find where_ table.

Definition findMany {A} (where_ : A -> bool) (table : list A) : list A :=
  filter where_ table.

Definition count {A} (where_ : A -> bool) (table : list A) : Z :=
  Z.of_nat (List.length (filter where_ table)).

(** [orderBy: { key: 'asc' }]; rows with equal keys stay in insertion
    order. *)
Definition orderBy_asc {A} (key : A -> Z) (l : list A) : list A :=
  stable_sort (fun x y => key x <=? key y) l.

(** The [where] clauses of the three [db.update('Attestation', ...)] calls. *)
Record AttestationWhere := {
  w_epoch : Z;
  w_epochKey : Z;
  w_proofIndex : option Z
}.

Definition matchAttestation (w : AttestationWhere) (a : Attestation) : bool :=
  (at_epoch a =? w_epoch w) && (at_epochKey a =? w_epochKey w) &&
  match w_proofIndex w with
  | Some i => at_proofIndex a =? i
  | None => true
  end.

(** The writes the handlers queue on the transaction writer. *)
Inductive Op :=
| CreateEpoch (r : Epoch)
| CreateGSTLeaf (r : GSTLeaf)
| CreateGSTRoot (r : GSTRoot)
| CreateAttestation (r : Attestation)
| CreateNullifiers (rs : list Nullifier)
| CreateProof (r : Proof)
| UpsertEpochSealed (epoch : Z) (root : Z)
| UpsertEpochKey (epoch : Z) (key : Z)
| UpdateAttestationValid (w : AttestationWhere) (v : bool)
| UpdateProofSpent (epoch : Z) (index : Z)
| DeleteNullifiers (nullifiers : list Z) (confirmed : bool)
| UpdateLatestProcessed (block txIndex logIndex : Z)
| UpdateLatestComplete (block : Z).

Definition set_valid (v : bool) (a : Attestation) : Attestation :=
  {| at_epoch := at_epoch a; at_epochKey := at_epochKey a;
     at_index := at_index a; at_transactionHash := at_transactionHash a;
     at_attester := at_attester a; at_proofIndex := at_proofIndex a;
     at_attesterId := at_attesterId a; at_posRep := at_posRep a;
     at_negRep := at_negRep a; at_graffiti := at_graffiti a;
     at_signUp := at_signUp a; at_hash := at_hash a;
     at_valid := Some v |}.

Definition set_spent (p : Proof) : Proof :=
  {| pf_index := pf_index p; pf_event := pf_event p; pf_epoch := pf_epoch p;
     pf_proof := pf_proof p; pf_publicSignals := pf_publicSignals p;
     pf_transactionHash := pf_transactionHash p; pf_valid := pf_valid p;
     pf_spent := Some true;
     pf_blindedUserState := pf_blindedUserState p;
     pf_blindedHashChain := pf_blindedHashChain p;
     pf_outputBlindedUserState := pf_outputBlindedUserState p;
     pf_outputBlindedHashChain := pf_outputBlindedHashChain p;
     pf_inputBlindedUserState := pf_inputBlindedUserState p;
     pf_globalStateTree := pf_globalStateTree p;
     pf_proofIndexRecords := pf_proofIndexRecords p |}.

Definition set_sealed (root : Z) (e : Epoch) : Epoch :=
  {| number := number e; sealed := true; epochRoot := Some root |}.

Definition update_where {A} (where_ : A -> bool) (f : A -> A) (table : list A)
  : list A :=
  map (fun r => if where_ r then f r else r) table.

Definition delete_where {A} (where_ : A -> bool) (table : list A) : list A :=
  filter (fun r => negb (where_ r)) table.

Definition upsert {A} (where_ : A -> bool) (f : A -> A) (create : A)
  (table : list A) : list A :=
  if existsb where_ table then update_where where_ f table
  else table ++ [create].

Definition with_Epochs (s : Store) (t : list Epoch) : Store :=
  {| Epochs := t; GSTLeaves := GSTLeaves s; GSTRoots := GSTRoots s;
     EpochKeys := EpochKeys s; Attestations := Attestations s;
     Nullifiers := Nullifiers s; Proofs := Proofs s;
     SynchronizerStates := SynchronizerStates s |}.

Definition with_GSTLeaves (s : Store) (t : list GSTLeaf) : Store :=
  {| Epochs := Epochs s; GSTLeaves := t; GSTRoots := GSTRoots s;
     EpochKeys := EpochKeys s; Attestations := Attestations s;
     Nullifiers := Nullifiers s; Proofs := Proofs s;
     SynchronizerStates := SynchronizerStates s |}.

Definition with_GSTRoots (s : Store) (t : list GSTRoot) : Store :=
  {| Epochs := Epochs s; GSTLeaves := GSTLeaves s; GSTRoots := t;
     EpochKeys := EpochKeys s; Attestations := Attestations s;
     Nullifiers := Nullifiers s; Proofs := Proofs s;
     SynchronizerStates := SynchronizerStates s |}.

Definition with_EpochKeys (s : Store) (t : list EpochKey) : Store :=
  {| Epochs := Epochs s; GSTLeaves := GSTLeaves s; GSTRoots := GSTRoots s;
     EpochKeys := t; Attestations := Attestations s;
     Nullifiers := Nullifiers s; Proofs := Proofs s;
     SynchronizerStates := SynchronizerStates s |}.

Definition with_Attestations (s : Store) (t : list Attestation) : Store :=
  {| Epochs := Epochs s; GSTLeaves := GSTLeaves s; GSTRoots := GSTRoots s;
     EpochKeys := EpochKeys s; Attestations := t;
     Nullifiers := Nullifiers s; Proofs := Proofs s;
     SynchronizerStates := SynchronizerStates s |}.

Definition with_Nullifiers (s : Store) (t : list Nullifier) : Store :=
  {| Epochs := Epochs s; GSTLeaves := GSTLeaves s; GSTRoots := GSTRoots s;
     EpochKeys := EpochKeys s; Attestations := Attestations s;
     Nullifiers := t; Proofs := Proofs s;
     SynchronizerStates := SynchronizerStates s |}.

Definition with_Proofs (s : Store) (t : list Proof) : Store :=
  {| Epochs := Epochs s; GSTLeaves := GSTLeaves s; GSTRoots := GSTRoots s;
     EpochKeys := EpochKeys s; Attestations := Attestations s;
     Nullifiers := Nullifiers s; Proofs := t;
     SynchronizerStates := SynchronizerStates s |}.

Definition with_SynchronizerStates (s : Store) (t : list SynchronizerState)
  : Store :=
  {| Epochs := Epochs s; GSTLeaves := GSTLeaves s; GSTRoots := GSTRoots s;
     EpochKeys := EpochKeys s; Attestations := Attestations s;
     Nullifiers := Nullifiers s; Proofs := Proofs s;
     SynchronizerStates := t |}.

Definition proof_at (epoch index : Z) (p : Proof) : bool :=
  field_is (pf_epoch p) epoch && (pf_index p =? index).

Definition nullifier_in (ns : list Z) (confirmed : bool) (n : Nullifier)
  : bool :=
  Z_in (nf_nullifier n) ns && flag_is (nf_confirmed n) confirmed.

(** The rows after a write that the store accepts. *)
Definition write (s : Store) (op : Op) : Store :=
  match op with
  | CreateEpoch r => with_Epochs s (Epochs s ++ [r])
  | CreateGSTLeaf r => with_GSTLeaves s (GSTLeaves s ++ [r])
  | CreateGSTRoot r => with_GSTRoots s (GSTRoots s ++ [r])
  | CreateAttestation r => with_Attestations s (Attestations s ++ [r])
  | CreateNullifiers rs => with_Nullifiers s (Nullifiers s ++ rs)
  | CreateProof r => with_Proofs s (Proofs s ++ [r])
  | UpsertEpochSealed e root =>
      with_Epochs s
        (upsert (fun r => number r =? e) (set_sealed root)
           {| number := e; sealed := true; epochRoot := Some root |}
           (Epochs s))
  | UpsertEpochKey e k =>
      with_EpochKeys s
        (upsert (fun r => (ek_epoch r =? e) && (ek_key r =? k)) (fun r => r)
           {| ek_epoch := e; ek_key := k |} (EpochKeys s))
  | UpdateAttestationValid w v =>
      with_Attestations s
        (update_where (matchAttestation w) (set_valid v) (Attestations s))
  | UpdateProofSpent e i =>
      with_Proofs s (update_where (proof_at e i) set_spent (Proofs s))
  | DeleteNullifiers ns c =>
      with_Nullifiers s (delete_where (nullifier_in ns c) (Nullifiers s))
  | UpdateLatestProcessed b t l =>
      with_SynchronizerStates s
        (map (fun st =>
                {| latestProcessedBlock := b;
                   latestProcessedTransactionIndex := t;
                   latestProcessedEventIndex := l;
                   latestCompleteBlock := latestCompleteBlock st |})
           (SynchronizerStates s))
  | UpdateLatestComplete b =>
      with_SynchronizerStates s
        (map (fun st =>
                {| latestProcessedBlock := latestProcessedBlock st;
                   latestProcessedTransactionIndex :=
                     latestProcessedTransactionIndex st;
                   latestProcessedEventIndex := latestProcessedEventIndex st;
                   latestCompleteBlock := b |})
           (SynchronizerStates s))
  end.

Definition writes (s : Store) (ops : list Op) : Store :=
  fold_left write ops s.

(** Modelled from the spec: the schema of the store
    ([packages/core/src/schema.ts]) is not among the sources.  The spec calls
    the invariant of the Epoch table enforced; the store enforces it through a
    unique [Epoch.number]: it rejects the creation of an Epoch row whose
    number a row already holds ('UNIQUE constraint failed: Epoch.number').
    An upsert updates the rows that match and creates one only when none
    does.  The identifiers the store generates for its rows are not
    modelled. *)
Definition apply (s : Store) (op : Op) : Result Store :=
  match op with
  | CreateEpoch r =>
      if existsb (fun e => number e =? number r) (Epochs s)
      then Throw (Error "UNIQUE constraint failed: Epoch.number")
      else Ok (write s op)
  | _ => Ok (write s op)
  end.

(** Commit of a transaction: the queued writes in the order of the calls; the
    first one that the store rejects rolls the transaction back. *)
Fixpoint commit (s : Store) (ops : list Op) : Result Store :=
  match ops with
  | [] => Ok s
  | op :: ops' =>
      match apply s op with
      | Ok s' => commit s' ops'
      | Throw e => Throw e
      end
  end.

End DB.
Import DB.

(** ** Chain events, decoded *)

Record AttestationArgs := {
  a_attesterId : Z;
  a_posRep : Z;
  a_negRep : Z;
  a_graffiti : Z;
  a_signUp : Z
}.

Record SignUpProofArgs := {
  su_epoch : Z;
  su_epochKey : Z;
  su_globalStateTree : Z;
  su_attesterId : Z;
  su_userHasSignedUp : Z;
  su_proof : list Z
}.

Record EpochKeyProofArgs := {
  ekp_globalStateTree : Z;
  ekp_epoch : Z;
  ekp_epochKey : Z;
  ekp_proof : list Z
}.

Record ReputationProofArgs := {
  rp_repNullifiers : list Z;
  rp_epoch : Z;
  rp_epochKey : Z;
  rp_globalStateTree : Z;
  rp_attesterId : Z;
  rp_proveReputationAmount : Z;
  rp_minRep : Z;
  rp_proveGraffiti : Z;
  rp_graffitiPreImage : Z;
  rp_proof : list Z
}.

Record USTProofArgs := {
  ust_newGlobalStateTreeLeaf : Z;
  ust_epkNullifiers : list Z;
  ust_transitionFromEpoch : Z;
  ust_blindedUserStates : Z * Z;
  ust_fromGlobalStateTree : Z;
  ust_blindedHashChains : list Z;
  ust_fromEpochTree : Z;
  ust_proof : list Z
}.

(** A log after [decodeEventLog]: the first topic selects the constructor, the
    other topics and the data are its arguments.  The legacy attestation topic
    is decoded as ['AttestationSubmitted'] too.  The epoch of an EpochEnded log
    is its second topic, 32 bytes read as an unsigned number. *)
Inductive Log :=
| UserSignedUp (epoch idCommitment attesterId airdropAmount : Z)
| UserStateTransitioned (epoch leaf proofIndex : Z)
| AttestationSubmitted (legacyTopic : bool) (epoch epochKey : Z)
    (attester : string) (toProofIndex fromProofIndex : Z)
    (attestation : AttestationArgs)
| EpochEnded (epoch : N)
| IndexedEpochKeyProofLog (proofIndex epoch : Z) (args : EpochKeyProofArgs)
| IndexedReputationProofLog (proofIndex epoch : Z)
    (args : ReputationProofArgs)
| IndexedUserSignedUpProofLog (proofIndex epoch : Z) (args : SignUpProofArgs)
| IndexedStartedTransitionProofLog
    (proofIndex blindedUserState globalStateTree blindedHashChain : Z)
    (proof : list Z)
| IndexedProcessedAttestationsProofLog
    (proofIndex inputBlindedUserState outputBlindedUserState
       outputBlindedHashChain : Z)
    (proof : list Z)
| IndexedUserStateTransitionProofLog (proofIndex : Z) (args : USTProofArgs)
    (proofIndexRecords : list Z)
| UnrecognizedTopic (topic : string).

Record Event := {
  blockNumber : Z;
  transactionIndex : Z;
  logIndex : Z;
  transactionHash : string;
  log : Log
}.

(** ** Numbers and their decimal strings *)

(** [`${n}`] for a [Number] that holds an integer. *)
Definition Number_toString (n : Z) : string :=
  NilZero.string_of_int (Z.to_int n).

(** Unary [+] on a string; [None] is [NaN]. *)
Definition Number_ofString (s : string) : option Z :=
  option_map Z.of_int (NilZero.int_of_string s).

(** The [Number] nearest to an integer that is not negative: up to 2^53 the
    integer itself; above, the integer rounded to 53 significant bits, a tie
    going to the even one.  (The numerals met here have at most 48 digits, far
    from the overflow to [Infinity].) *)
Definition toNumber (n : Z) : Z :=
  if n <? 2 ^ 53 then n
  else
    let k := Z.log2 n - 52 in
    let q := Z.shiftr n k in
    let r := n - Z.shiftl q k in
    let half := 2 ^ (k - 1) in
    let q' := if (half <? r) || ((r =? half) && Z.odd q) then q + 1 else q in
    Z.shiftl q' k.

(** [+`${event.blockNumber}${event.transactionIndex}${event.logIndex}`], the
    [index] of an Attestation row.  The three components of a log are never
    negative, so the string is a numeral; unary [+] gives the [Number] nearest
    to it, which is not the numeral itself once it passes 2^53.  [NaN] is
    written 0 here. *)
Definition attestationIndex (blockNumber transactionIndex logIndex : Z) : Z :=
  match Number_ofString
          (Number_toString blockNumber ++ Number_toString transactionIndex
             ++ Number_toString logIndex)%string with
  | Some n => toNumber n
  | None => 0
  end.

(** ** The public signals of a user-state-transition proof *)

Record UserTransitionProof := {
  newGlobalStateTreeLeaf : option Z;
  epkNullifiers : list Z;
  transitionFromEpoch : option Z;
  blindedUserStates : list Z;
  fromGlobalStateTree : option Z;
  blindedHashChains : list Z;
  fromEpochTree : option Z
}.

(** Modelled from the spec: the class [UserTransitionProof] of
    [@unirep/contracts] is not among the sources.  Its fields are read off the
    public signals in the layout of the interface table: newGlobalStateTreeLeaf,
    epkNullifiers[K], transitionFromEpoch, blindedUserStates[2],
    fromGlobalStateTree, blindedHashChains[M], fromEpochTree.  A signal that
    the array is too short for is [None] (JS [undefined]). *)
Definition decodeUserTransitionProof (K M : nat) (publicSignals : list Z)
  : UserTransitionProof :=
  {| newGlobalStateTreeLeaf := nth_error publicSignals 0;
     epkNullifiers := firstn K (skipn 1 publicSignals);
     transitionFromEpoch := nth_error publicSignals (1 + K);
     blindedUserStates := firstn 2 (skipn (2 + K) publicSignals);
     fromGlobalStateTree := nth_error publicSignals (4 + K);
     blindedHashChains := firstn M (skipn (5 + K) publicSignals);
     fromEpochTree := nth_error publicSignals (5 + K + M) |}.

(** ** The handler monad *)

Section Sync.

Context {prover : Prover} {crypto : Crypto} {deployment : Deployment}.

(** What a handler may change while it runs: the in-memory tree of the
    synchronizer, the writes queued on the transaction, the console. *)
Record Ctx := {
  tree : option IncrementalMerkleTree;
  tx : list Op;
  console : list string
}.

Definition M (A : Type) := Ctx -> Result (A * Ctx).

Definition ret {A} (a : A) : M A := fun c => Ok (a, c).

Definition bind {A B} (m : M A) (k : A -> M B) : M B :=
  fun c => match m c with
           | Ok (a, c') => k a c'
           | Throw e => Throw e
           end.

Definition throw {A} (e : Exn) : M A := fun _ => Throw e.

Notation "x <- m ;; k" := (bind m (fun x => k))
  (at level 61, m at next level, right associativity).
Notation "m ;; k" := (bind m (fun _ => k))
  (at level 61, right associativity).

Definition queue (op : Op) : M unit :=
  fun c => Ok (tt, {| tree := tree c; tx := tx c ++ [op];
                      console := console c |}).

Definition console_log (msg : string) : M unit :=
  fun c => Ok (tt, {| tree := tree c; tx := tx c;
                      console := console c ++ [msg] |}).

Definition set_tree (t : option IncrementalMerkleTree) : M unit :=
  fun c => Ok (tt, {| tree := t; tx := tx c; console := console c |}).

(** [private get globalStateTree()] *)
Definition globalStateTree : M IncrementalMerkleTree :=
  fun c => match tree c with
           | Some t => Ok (t, c)
           | None => Throw (Error "Synchronizer: in memory GST not initialized")
           end.

(** [for (const x of xs) { ... }] whose body either goes on or returns from
    the enclosing function ([false]). *)
Fixpoint for_of {A} (xs : list A) (body : A -> M bool) : M bool :=
  match xs with
  | [] => ret true
  | x :: xs' => go <- body x ;; if go then for_of xs' body else ret false
  end.

Fixpoint mapM {A B} (f : A -> M B) (xs : list A) : M (list B) :=
  match xs with
  | [] => ret []
  | x :: xs' => y <- f x ;; ys <- mapM f xs' ;; ret (y :: ys)
  end.

(** ** The synchronizer *)


Record Synchronizer := {
  _db : Store;
  settings : UnirepContract;
  _globalStateTree : option IncrementalMerkleTree;
  _defaultGSTLeaf : option Z
}.

Definition loadCurrentEpoch (this : Synchronizer) : Epoch :=
  match findOne (fun _ => true)
          (orderBy_asc (fun e => - number e) (Epochs (_db this))) with
  | Some currentEpoch => currentEpoch
  | None => {| number := 1; sealed := false; epochRoot := None |}
  end.

Definition _checkCurrentEpoch (this : Synchronizer) (epoch : Z) : M unit :=
  if negb (epoch =? number (loadCurrentEpoch this))
  then throw (Error "Synchronizer: Epoch must be the same as the current epoch")
  else ret tt.

Definition _checkValidEpoch (this : Synchronizer) (epoch : Z) : M unit :=
  if epoch >? number (loadCurrentEpoch this)
  then throw (Error "Synchronizer: Epoch must be less than the current epoch")
  else ret tt.

Definition _checkEpochKeyRange (this : Synchronizer) (epochKey : Z) : M unit :=
  if epochKey >=? 2 ^ epochTreeDepth (settings this)
  then throw (Error "Synchronizer: Epoch key greater than max leaf value(2**epochTreeDepth)")
  else ret tt.

(** [include: { epochDoc: true }] joins the Epoch row numbered as the key's
    epoch. *)
Definition _isEpochKeySealed (this : Synchronizer) (epoch epochKey : Z)
  : M unit :=
  match findOne (fun k => (ek_epoch k =? epoch) && (ek_key k =? epochKey))
          (EpochKeys (_db this)) with
  | Some _epochKey =>
      match findOne (fun e => number e =? ek_epoch _epochKey)
              (Epochs (_db this)) with
      | Some epochDoc =>
          if sealed epochDoc
          then throw (Error "Synchronizer: Epoch key has been sealed")
          else ret tt
      | None => ret tt
      end
  | None => ret tt
  end.

Definition validAttestations (this : Synchronizer) (epoch epochKey : Z)
  : list Attestation :=
  orderBy_asc at_index
    (findMany (fun a => (at_epoch a =? epoch) && (at_epochKey a =? epochKey)
                        && flag_is (at_valid a) true)
       (Attestations (_db this))).

Definition genEpochTree (this : Synchronizer) (epoch : Z)
  : M SparseMerkleTree :=
  _checkValidEpoch this epoch ;;
  let epochKeys := findMany (fun k => ek_epoch k =? epoch)
                     (EpochKeys (_db this)) in
  epochTreeLeaves <-
    mapM (fun epochKey =>
            _checkEpochKeyRange this (ek_key epochKey) ;;
            let attestations := validAttestations this epoch (ek_key epochKey) in
            let hashChain :=
              fold_left (fun hashChain attestation =>
                           hashLeftRight (at_hash attestation) hashChain)
                attestations 0 in
            let sealedHashChainResult := hashLeftRight 1 hashChain in
            ret (ek_key epochKey, sealedHashChainResult))
      epochKeys ;;
  let epochTree := genNewSMT (epochTreeDepth unirepContract) SMT_ONE_LEAF in
  ret (fold_left (fun t leaf => smt_update t (fst leaf) (snd leaf))
         epochTreeLeaves epochTree).

Definition GSTRootExists (this : Synchronizer) (GSTRoot epoch : Z) : M bool :=
  _checkValidEpoch this epoch ;;
  match findOne (fun r => (gr_epoch r =? epoch) && (gr_root r =? GSTRoot))
          (GSTRoots (_db this)) with
  | Some _ => ret true
  | None => ret false
  end.

Definition epochTreeRootExists (this : Synchronizer) (_epochTreeRoot epoch : Z)
  : M bool :=
  _checkValidEpoch this epoch ;;
  match findOne (fun e => (number e =? epoch)
                          && field_is (epochRoot e) _epochTreeRoot)
          (Epochs (_db this)) with
  | Some _ => ret true
  | None => ret false
  end.

Definition getNumGSTLeaves (this : Synchronizer) (epoch : Z) : M Z :=
  _checkValidEpoch this epoch ;;
  ret (count (fun l => gl_epoch l =? epoch) (GSTLeaves (_db this))).

Definition nullifierExist (this : Synchronizer) (nullifier : Z) : bool :=
  let count := count (fun n => nf_nullifier n =? nullifier)
                 (Nullifiers (_db this)) in
  negb (count =? 0).

(** [async setup()]: the settings, and the in-memory tree of the unsealed
    epoch rebuilt from its leaves. *)
Definition setup (this : Synchronizer) : Result Synchronizer :=
  let epoch := findMany (fun e => Bool.eqb (sealed e) false)
                 (Epochs (_db this)) in
  if (1 <? List.length epoch)%nat
  then Throw (Error "Multiple unsealed epochs")
  else
    let emptyUserStateRoot :=
      computeEmptyUserStateRoot (userStateTreeDepth unirepContract) in
    let defaultGSTLeaf := hashLeftRight 0 emptyUserStateRoot in
    let tree0 := newIncrementalMerkleTree
                   (globalStateTreeDepth unirepContract)
                   (Some defaultGSTLeaf) in
    let leaves :=
      match epoch with
      | [] => []
      | e :: _ => orderBy_asc gl_index
                    (findMany (fun l => gl_epoch l =? number e)
                       (GSTLeaves (_db this)))
      end in
    Ok {| _db := _db this;
          settings := unirepContract;
          _globalStateTree :=
            Some (fold_left (fun t leaf => imt_insert t (gl_hash leaf))
                    leaves tree0);
          _defaultGSTLeaf := Some defaultGSTLeaf |}.

(** *** Handlers *)

Definition epochEndedEvent (this : Synchronizer) (epoch : Z) : M unit :=
  console_log "update db from epoch ended event: " ;;
  epochTree <- genEpochTree this epoch ;;
  queue (UpsertEpochSealed epoch (smt_root epochTree)) ;;
  queue (CreateEpoch {| number := epoch + 1; sealed := false;
                        epochRoot := None |}) ;;
  set_tree (Some (newIncrementalMerkleTree
                    (globalStateTreeDepth unirepContract)
                    (_defaultGSTLeaf this))).

(** The row of [db.create('Attestation', ...)]; [valid] is left out. *)
Definition newAttestation (event : Event) (_epoch _epochKey : Z)
  (_attester : string) (toProofIndex : Z) (att : AttestationArgs)
  : Attestation :=
  {| at_epoch := _epoch;
     at_epochKey := _epochKey;
     at_index := attestationIndex (blockNumber event)
                   (transactionIndex event) (logIndex event);
     at_transactionHash := transactionHash event;
     at_attester := _attester;
     at_proofIndex := toProofIndex;
     at_attesterId := a_attesterId att;
     at_posRep := a_posRep att;
     at_negRep := a_negRep att;
     at_graffiti := a_graffiti att;
     at_signUp := negb (a_signUp att =? 0);
     at_hash := attestation_hash (a_attesterId att) (a_posRep att)
                  (a_negRep att) (a_graffiti att) (a_signUp att);
     at_valid := None |}.

Definition attestationEvent (this : Synchronizer) (event : Event)
  (_epoch _epochKey : Z) (_attester : string)
  (toProofIndex fromProofIndex : Z) (att : AttestationArgs) : M unit :=
  _checkCurrentEpoch this _epoch ;;
  _checkEpochKeyRange this _epochKey ;;
  _isEpochKeySealed this _epoch _epochKey ;;
  queue (CreateAttestation
           (newAttestation event _epoch _epochKey _attester toProofIndex
              att)) ;;
  match findOne (proof_at _epoch toProofIndex) (Proofs (_db this)) with
  | None => throw (Error "Unable to find proof for attestation")
  | Some validProof =>
      if negb (pf_valid validProof) then
        queue (UpdateAttestationValid
                 {| w_epoch := _epoch; w_epochKey := _epochKey;
                    w_proofIndex := Some toProofIndex |} false) ;;
        console_log "Attestion proof is invalid"
      else
        let mark_valid :=
          queue (UpdateAttestationValid
                   {| w_epoch := _epoch; w_epochKey := _epochKey;
                      w_proofIndex := None |} true) ;;
          queue (UpsertEpochKey _epoch _epochKey) in
        if negb (fromProofIndex =? 0) then
          match findOne (proof_at _epoch fromProofIndex)
                  (Proofs (_db this)) with
          | None => throw (Error "Unable to find from proof")
          | Some fromValidProof =>
              if negb (pf_valid fromValidProof)
                 || truthy (pf_spent fromValidProof)
              then
                queue (UpdateAttestationValid
                         {| w_epoch := _epoch; w_epochKey := _epochKey;
                            w_proofIndex := Some fromProofIndex |} false)
              else
                queue (UpdateProofSpent _epoch fromProofIndex) ;;
                mark_valid
          end
        else mark_valid
  end.

Definition userSignedUpEvent (this : Synchronizer) (event : Event)
  (epoch idCommitment attesterId airdrop : Z) : M unit :=
  _checkCurrentEpoch this epoch ;;
  let USTRoot := computeInitUserStateRoot
                   (userStateTreeDepth unirepContract) attesterId airdrop in
  let newGSTLeaf := hashLeftRight idCommitment USTRoot in
  t <- globalStateTree ;;
  set_tree (Some (imt_insert t newGSTLeaf)) ;;
  let leafIndexInEpoch :=
    count (fun l => gl_epoch l =? epoch) (GSTLeaves (_db this)) in
  queue (CreateGSTLeaf {| gl_epoch := epoch;
                          gl_transactionHash := transactionHash event;
                          gl_hash := newGSTLeaf;
                          gl_index := leafIndexInEpoch |}) ;;
  queue (CreateGSTRoot {| gr_epoch := epoch;
                          gr_root := imt_root (imt_insert t newGSTLeaf) |}).

(** The Proof row of the handlers that know the proof's epoch. *)
Definition indexedProofRow (index epoch : Z) (ev : ProofEvent) (event : Event)
  (proof publicSignals : list Z) (gst : Z) (valid : bool) : Proof :=
  {| pf_index := index; pf_event := ev; pf_epoch := Some epoch;
     pf_proof := proof; pf_publicSignals := Some publicSignals;
     pf_transactionHash := transactionHash event; pf_valid := valid;
     pf_spent := None; pf_blindedUserState := None;
     pf_blindedHashChain := None; pf_outputBlindedUserState := None;
     pf_outputBlindedHashChain := None; pf_inputBlindedUserState := None;
     pf_globalStateTree := Some gst; pf_proofIndexRecords := None |}.

(** The public signals of each circuit, in the order the handlers build
    them. *)
Definition ustSignals (args : USTProofArgs) : list Z :=
  ([ust_newGlobalStateTreeLeaf args] ++ ust_epkNullifiers args
     ++ [ust_transitionFromEpoch args]
     ++ [fst (ust_blindedUserStates args); snd (ust_blindedUserStates args)]
     ++ [ust_fromGlobalStateTree args] ++ ust_blindedHashChains args
     ++ [ust_fromEpochTree args])%list.

Definition processSignals (_outputBlindedUserState _outputBlindedHashChain
  _inputBlindedUserState : Z) : list Z :=
  [_outputBlindedUserState; _outputBlindedHashChain; _inputBlindedUserState].

Definition startSignals (_blindedUserState _blindedHashChain
  _globalStateTree : Z) : list Z :=
  [_blindedUserState; _blindedHashChain; _globalStateTree].

Definition signUpSignals (args : SignUpProofArgs) : list Z :=
  [su_epoch args; su_epochKey args; su_globalStateTree args;
   su_attesterId args; su_userHasSignedUp args].

Definition epochKeySignals (args : EpochKeyProofArgs) : list Z :=
  [ekp_globalStateTree args; ekp_epoch args; ekp_epochKey args].

Definition reputationSignals (args : ReputationProofArgs) : list Z :=
  (rp_repNullifiers args
     ++ [rp_epoch args; rp_epochKey args; rp_globalStateTree args;
         rp_attesterId args; rp_proveReputationAmount args; rp_minRep args;
         rp_proveGraffiti args; rp_graffitiPreImage args])%list.

Definition USTProofEvent (this : Synchronizer) (event : Event)
  (_proofIndex : Z) (args : USTProofArgs) (proofIndexRecords : list Z)
  : M unit :=
  let formatPublicSignals := ustSignals args in
  let formattedProof := ust_proof args in
  let isValid := verifyProof userStateTransition formatPublicSignals
                   formattedProof in
  exist <- GSTRootExists this (ust_fromGlobalStateTree args)
             (ust_transitionFromEpoch args) ;;
  queue (CreateProof
           {| pf_index := _proofIndex;
              pf_event := IndexedUserStateTransitionProof;
              pf_epoch := None;
              pf_proof := formattedProof;
              pf_publicSignals := Some formatPublicSignals;
              pf_transactionHash := transactionHash event;
              pf_valid := isValid && exist;
              pf_spent := None;
              pf_blindedUserState := Some (fst (ust_blindedUserStates args));
              pf_blindedHashChain := None;
              pf_outputBlindedUserState := None;
              pf_outputBlindedHashChain := None;
              pf_inputBlindedUserState := None;
              pf_globalStateTree := Some (ust_fromGlobalStateTree args);
              pf_proofIndexRecords := Some proofIndexRecords |}).

Definition processAttestationProofEvent (this : Synchronizer) (event : Event)
  (_proofIndex _inputBlindedUserState _outputBlindedUserState
     _outputBlindedHashChain : Z) (formattedProof : list Z) : M unit :=
  let formatPublicSignals :=
    processSignals _outputBlindedUserState _outputBlindedHashChain
      _inputBlindedUserState in
  let isValid := verifyProof processAttestations formatPublicSignals
                   formattedProof in
  queue (CreateProof
           {| pf_index := _proofIndex;
              pf_event := IndexedProcessedAttestationsProof;
              pf_epoch := None;
              pf_proof := formattedProof;
              pf_publicSignals := None;
              pf_transactionHash := transactionHash event;
              pf_valid := isValid;
              pf_spent := None;
              pf_blindedUserState := None;
              pf_blindedHashChain := None;
              pf_outputBlindedUserState := Some _outputBlindedUserState;
              pf_outputBlindedHashChain := Some _outputBlindedHashChain;
              pf_inputBlindedUserState := Some _inputBlindedUserState;
              pf_globalStateTree := Some 0;
              pf_proofIndexRecords := None |}).

Definition startUSTProofEvent (this : Synchronizer) (event : Event)
  (_proofIndex _blindedUserState _globalStateTree _blindedHashChain : Z)
  (formattedProof : list Z) : M unit :=
  let formatPublicSignals :=
    startSignals _blindedUserState _blindedHashChain _globalStateTree in
  let isValid := verifyProof startTransition formatPublicSignals
                   formattedProof in
  queue (CreateProof
           {| pf_index := _proofIndex;
              pf_event := IndexedStartedTransitionProof;
              pf_epoch := None;
              pf_proof := formattedProof;
              pf_publicSignals := None;
              pf_transactionHash := transactionHash event;
              pf_valid := isValid;
              pf_spent := None;
              pf_blindedUserState := Some _blindedUserState;
              pf_blindedHashChain := Some _blindedHashChain;
              pf_outputBlindedUserState := None;
              pf_outputBlindedHashChain := None;
              pf_inputBlindedUserState := None;
              pf_globalStateTree := Some _globalStateTree;
              pf_proofIndexRecords := None |}).

Definition userSignedUpProofEvent (this : Synchronizer) (event : Event)
  (_proofIndex _epoch : Z) (args : SignUpProofArgs) : M unit :=
  let formatPublicSignals := signUpSignals args in
  let formattedProof := su_proof args in
  let isValid := verifyProof proveUserSignUp formatPublicSignals
                   formattedProof in
  exist <- GSTRootExists this (su_globalStateTree args) _epoch ;;
  queue (CreateProof
           (indexedProofRow _proofIndex _epoch IndexedUserSignedUpProof event
              formattedProof formatPublicSignals (su_globalStateTree args)
              (isValid && exist))).

Definition epochKeyProofEvent (this : Synchronizer) (event : Event)
  (_proofIndex _epoch : Z) (args : EpochKeyProofArgs) : M unit :=
  let formatPublicSignals := epochKeySignals args in
  let formattedProof := ekp_proof args in
  let isValid := verifyProof verifyEpochKey formatPublicSignals
                   formattedProof in
  exist <- GSTRootExists this (ekp_globalStateTree args) _epoch ;;
  queue (CreateProof
           (indexedProofRow _proofIndex _epoch IndexedEpochKeyProof event
              formattedProof formatPublicSignals (ekp_globalStateTree args)
              (isValid && exist))).

Definition nonZero (ns : list Z) : list Z :=
  filter (fun n => negb (n =? 0)) ns.

Definition newNullifiers (epoch : Z) (ns : list Z) : list Nullifier :=
  map (fun nullifier => {| nf_epoch := epoch; nf_nullifier := nullifier;
                           nf_confirmed := confirmedDefault |}) ns.

Definition reputationProofEvent (this : Synchronizer) (event : Event)
  (_proofIndex _epoch : Z) (args : ReputationProofArgs) : M unit :=
  let formatPublicSignals := reputationSignals args in
  let formattedProof := rp_proof args in
  let isValid := verifyProof proveReputation formatPublicSignals
                   formattedProof in
  exist <- GSTRootExists this (rp_globalStateTree args) _epoch ;;
  let repNullifiers := nonZero (rp_repNullifiers args) in
  let existingNullifier :=
    findOne (nullifier_in repNullifiers true) (Nullifiers (_db this)) in
  match existingNullifier with
  | Some _ => console_log "Duplicate reputation proof nullifier"
  | None =>
      queue (DeleteNullifiers repNullifiers false) ;;
      queue (CreateNullifiers (newNullifiers _epoch repNullifiers))
  end ;;
  queue (CreateProof
           (indexedProofRow _proofIndex _epoch IndexedReputationProof event
              formattedProof formatPublicSignals (rp_globalStateTree args)
              (isValid && exist
               && match existingNullifier with
                  | Some _ => false
                  | None => true
                  end))).

(** The loop over [proofIndexRecords[i]], [i >= 1], of [USTEvent]; [false]
    when the handler returns from inside it. *)
Fixpoint checkProcessedAttestations (this : Synchronizer) (records : list Z)
  (currentBlindedUserState : option Z) : M bool :=
  match records with
  | [] => ret true
  | i :: rest =>
      match findOne (fun p => ProofEvent_eqb (pf_event p)
                                IndexedProcessedAttestationsProof
                              && (pf_index p =? i))
              (Proofs (_db this)) with
      | None =>
          console_log "Unable to find processed attestations proof" ;;
          ret false
      | Some processAttestationsProof =>
          if negb (pf_valid processAttestationsProof) then
            console_log "Process Attestations Proof index is invalid" ;;
            ret false
          else if opt_neq currentBlindedUserState
                    (pf_inputBlindedUserState processAttestationsProof) then
            console_log "Process Attestations Proof index mismatch UST proof" ;;
            ret false
          else
            checkProcessedAttestations this rest
              (pf_outputBlindedUserState processAttestationsProof)
      end
  end.

(** The body of the loop over [formatProof.blindedHashChains]. *)
Definition checkBlindedHashChain (this : Synchronizer)
  (proofIndexRecords : list Z) (blindedHC : Z) : M bool :=
  let findBlindHC :=
    findOne (fun p =>
               (field_is (pf_outputBlindedHashChain p) blindedHC
                && (ProofEvent_eqb (pf_event p) IndexedStartedTransitionProof
                    || ProofEvent_eqb (pf_event p)
                         IndexedProcessedAttestationsProof))
               && Z_in (pf_index p) proofIndexRecords)
      (Proofs (_db this)) in
  match findBlindHC with
  | None => throw (TypeError "Cannot read properties of null (reading 'index')")
  | Some found =>
      if Z_in (pf_index found) proofIndexRecords then ret true
      else
        console_log "Proof in UST mismatches proof in process attestations" ;;
        ret false
  end.

(** The tail of [USTEvent], from [// save epoch key nullifiers] on. *)
Definition applyTransition (this : Synchronizer) (event : Event)
  (epoch leaf : Z) (formatProof : UserTransitionProof) : M unit :=
  match transitionFromEpoch formatProof, fromGlobalStateTree formatProof,
        fromEpochTree formatProof with
  | Some fromEpoch, Some gstRoot, Some epochTreeRoot =>
      let epkNullifiers := nonZero (epkNullifiers formatProof) in
      _checkValidEpoch this fromEpoch ;;
      match findOne (fun r => (gr_epoch r =? fromEpoch)
                              && (gr_root r =? gstRoot))
              (GSTRoots (_db this)) with
      | None => console_log "Global state tree root mismatches"
      | Some _ =>
          match findOne (fun e => (number e =? fromEpoch)
                                  && field_is (epochRoot e) epochTreeRoot)
                  (Epochs (_db this)) with
          | None => console_log "Epoch tree root mismatches"
          | Some _ =>
              match findOne (nullifier_in epkNullifiers true)
                      (Nullifiers (_db this)) with
              | Some _ => console_log "duplicated nullifier"
              | None =>
                  queue (DeleteNullifiers epkNullifiers false) ;;
                  queue (CreateNullifiers (newNullifiers epoch epkNullifiers)) ;;
                  t <- globalStateTree ;;
                  set_tree (Some (imt_insert t leaf)) ;;
                  let leafIndexInEpoch :=
                    count (fun l => gl_epoch l =? epoch)
                      (GSTLeaves (_db this)) in
                  queue (CreateGSTLeaf
                           {| gl_epoch := epoch;
                              gl_transactionHash := transactionHash event;
                              gl_hash := leaf;
                              gl_index := leafIndexInEpoch |}) ;;
                  queue (CreateGSTRoot
                           {| gr_epoch := epoch;
                              gr_root := imt_root (imt_insert t leaf) |})
              end
          end
      end
  | _, _, _ =>
      throw (TypeError "Cannot read properties of undefined (reading 'toString')")
  end.

Definition USTEvent (this : Synchronizer) (event : Event)
  (epoch leaf proofIndex : Z) : M unit :=
  match findOne (fun p => (pf_index p =? proofIndex)
                          && ProofEvent_eqb (pf_event p)
                               IndexedUserStateTransitionProof)
          (Proofs (_db this)) with
  | None => throw (Error "No transition proof found")
  | Some transitionProof =>
      if negb (pf_valid transitionProof)
         || negb (ProofEvent_eqb (pf_event transitionProof)
                    IndexedUserStateTransitionProof)
      then console_log "Transition proof is not valid"
      else
        match pf_proofIndexRecords transitionProof with
        | None =>
            throw (TypeError "Cannot read properties of undefined (reading '0')")
        | Some proofIndexRecords =>
            (* a [where] value that is [undefined] (no first record) is
               taken to match no row *)
            let startTransitionProof :=
              match proofIndexRecords with
              | [] => None
              | i0 :: _ =>
                  findOne (fun p => ProofEvent_eqb (pf_event p)
                                      IndexedStartedTransitionProof
                                    && (pf_index p =? i0))
                    (Proofs (_db this))
              end in
            match startTransitionProof with
            | None =>
                throw (TypeError "Cannot read properties of null (reading 'valid')")
            | Some startTransitionProof =>
                if negb (pf_valid startTransitionProof) then
                  match pf_proofIndexRecords startTransitionProof with
                  | None =>
                      throw (TypeError "Cannot read properties of undefined (reading '0')")
                  | Some _ =>
                      console_log "Start transition proof is not valid"
                  end
                else if opt_neq (pf_blindedUserState startTransitionProof)
                          (pf_blindedUserState transitionProof)
                        || opt_neq (pf_globalStateTree startTransitionProof)
                             (pf_globalStateTree transitionProof)
                then console_log "Start Transition Proof index mismatch UST proof"
                else
                  go <- checkProcessedAttestations this (tl proofIndexRecords)
                          (pf_blindedUserState startTransitionProof) ;;
                  if negb go then ret tt
                  else
                    match pf_publicSignals transitionProof with
                    | None => throw (SyntaxError "JSON.parse: unexpected token")
                    | Some publicSignals_ =>
                        let formatProof :=
                          decodeUserTransitionProof numEpkNullifiers
                            numBlindedHashChains publicSignals_ in
                        go <- for_of (blindedHashChains formatProof)
                                (checkBlindedHashChain this proofIndexRecords) ;;
                        if negb go then ret tt
                        else applyTransition this event epoch leaf formatProof
                    end
            end
        end
  end.

(** *** Dispatch, transaction, ingestor *)

(** [this.topicHandlers[event.topics[0]]] *)
Definition topicHandlers (this : Synchronizer) (event : Event)
  : option (M unit) :=
  match log event with
  | UserSignedUp epoch idCommitment attesterId airdropAmount =>
      Some (userSignedUpEvent this event epoch idCommitment attesterId
              airdropAmount)
  | UserStateTransitioned epoch leaf proofIndex =>
      Some (USTEvent this event epoch leaf proofIndex)
  | AttestationSubmitted _ epoch epochKey attester toProofIndex fromProofIndex
      attestation =>
      Some (attestationEvent this event epoch epochKey attester toProofIndex
              fromProofIndex attestation)
  | EpochEnded epoch => Some (epochEndedEvent this (Z.of_N epoch))
  | IndexedEpochKeyProofLog proofIndex epoch args =>
      Some (epochKeyProofEvent this event proofIndex epoch args)
  | IndexedReputationProofLog proofIndex epoch args =>
      Some (reputationProofEvent this event proofIndex epoch args)
  | IndexedUserSignedUpProofLog proofIndex epoch args =>
      Some (userSignedUpProofEvent this event proofIndex epoch args)
  | IndexedStartedTransitionProofLog proofIndex blindedUserState
      globalStateTree blindedHashChain proof =>
      Some (startUSTProofEvent this event proofIndex blindedUserState
              globalStateTree blindedHashChain proof)
  | IndexedProcessedAttestationsProofLog proofIndex inputBlindedUserState
      outputBlindedUserState outputBlindedHashChain proof =>
      Some (processAttestationProofEvent this event proofIndex
              inputBlindedUserState outputBlindedUserState
              outputBlindedHashChain proof)
  | IndexedUserStateTransitionProofLog proofIndex args proofIndexRecords =>
      Some (USTProofEvent this event proofIndex args proofIndexRecords)
  | UnrecognizedTopic _ => None
  end.

(** Runs a handler on an empty transaction. *)
Definition run {A} (this : Synchronizer) (m : M A) : Result (A * Ctx) :=
  m {| tree := _globalStateTree this; tx := []; console := [] |}.

(** The body of [this._db.transaction(async (db) => ...)] for one event and
    its commit: the handler, then the cursor, in the same transaction. *)
Definition transaction (this : Synchronizer) (event : Event)
  : Result Synchronizer :=
  match topicHandlers this event with
  | None => Throw (Error "Unrecognized event topic")
  | Some handler =>
      match run this
              (handler ;;
               queue (UpdateLatestProcessed (blockNumber event)
                        (transactionIndex event) (logIndex event))) with
      | Ok (_, c) =>
          match commit (_db this) (tx c) with
          | Ok db' =>
              Ok {| _db := db';
                    settings := settings this;
                    _globalStateTree := tree c;
                    _defaultGSTLeaf := _defaultGSTLeaf this |}
          | Throw e => Throw e
          end
      | Throw e => Throw e
      end
  end.

(** What a transaction that throws leaves behind: the store as it was, and
    the in-memory tree as the handler left it.  A handler throws before it
    touches the tree; when the handler returns and the store rejects a write,
    the tree has been changed already (the handler of EpochEnded resets it). *)
Definition aborted (this : Synchronizer) (event : Event) : Synchronizer :=
  match topicHandlers this event with
  | None => this
  | Some handler =>
      match run this handler with
      | Ok (_, c) =>
          {| _db := _db this;
             settings := settings this;
             _globalStateTree := tree c;
             _defaultGSTLeaf := _defaultGSTLeaf this |}
      | Throw _ => this
      end
  end.

(** The comparator given to [events.sort]. *)
Definition compareEvents (a b : Event) : Z :=
  if negb (blockNumber a =? blockNumber b)
  then blockNumber a - blockNumber b
  else if negb (transactionIndex a =? transactionIndex b)
  then transactionIndex a - transactionIndex b
  else logIndex a - logIndex b.

(** [events.sort((a, b) => ...)] *)
Definition sortEvents (events : list Event) : list Event :=
  stable_sort (fun a b => compareEvents a b <=? 0) events.

(** What a run of [processEvents] did: the events whose handler was invoked,
    the events emitted after their commit, the synchronizer it left, and the
    exception it rethrew, if any. *)
Record Processed := {
  invoked : list Event;
  emitted : list Event;
  final : Synchronizer;
  rethrown : option Exn
}.

Fixpoint processLoop (this : Synchronizer) (events : list Event) : Processed :=
  match events with
  | [] => {| invoked := []; emitted := []; final := this; rethrown := None |}
  | event :: rest =>
      match transaction this event with
      | Ok this' =>
          let r := processLoop this' rest in
          {| invoked := event :: invoked r; emitted := event :: emitted r;
             final := final r; rethrown := rethrown r |}
      | Throw err =>
          {| invoked := match topicHandlers this event with
                        | Some _ => [event]
                        | None => []
                        end;
             emitted := []; final := aborted this event;
             rethrown := Some err |}
      end
  end.

Definition processEvents (this : Synchronizer) (events : list Event)
  : Processed :=
  match events with
  | [] => {| invoked := []; emitted := []; final := this; rethrown := None |}
  | _ => processLoop this (sortEvents events)
  end.

(** The filter of [startDaemon]: the events after the persisted cursor. *)
Definition unprocessed (state : SynchronizerState) (e : Event) : bool :=
  if blockNumber e =? latestProcessedBlock state then
    if transactionIndex e =? latestProcessedTransactionIndex state then
      logIndex e >? latestProcessedEventIndex state
    else transactionIndex e >? latestProcessedTransactionIndex state
  else blockNumber e >? latestProcessedBlock state.

(** One turn of the [for (;;)] loop of [startDaemon] that found new blocks:
    [allEvents] is what [loadNewEvents(latestProcessed + 1, newLatest)]
    returned.  An exception rethrown by [processEvents] ends the loop before
    [latestCompleteBlock] is written; the run is returned as it stands, with
    the exception in [rethrown]. *)
Definition daemonTurn (this : Synchronizer) (allEvents : list Event)
  (newLatest : Z) : Result Processed :=
  match findOne (fun _ => true) (SynchronizerStates (_db this)) with
  | None => Throw (Error "State not initialized")
  | Some state =>
      let unprocessedEvents := filter (unprocessed state) allEvents in
      let r := processEvents this unprocessedEvents in
      match rethrown r with
      | Some err => Ok r
      | None =>
          match DB.apply (_db (final r)) (UpdateLatestComplete newLatest) with
          | Ok db' =>
              Ok {| invoked := invoked r; emitted := emitted r;
                    final :=
                      {| _db := db';
                         settings := settings (final r);
                         _globalStateTree := _globalStateTree (final r);
                         _defaultGSTLeaf := _defaultGSTLeaf (final r) |};
                    rethrown := None |}
          | Throw err => Throw err
          end
      end
  end.

End Sync.

(** ** Notions the properties are stated with *)

(** The position of a log on the chain and its lexicographic order. *)
Definition position (e : Event) : Z * Z * Z :=
  (blockNumber e, transactionIndex e, logIndex e).

Definition pos_lt (p q : Z * Z * Z) : Prop :=
  let '(b1, t1, l1) := p in
  let '(b2, t2, l2) := q in
  b1 < b2 \/ (b1 = b2 /\ (t1 < t2 \/ (t1 = t2 /\ l1 < l2))).

Definition pos_le (p q : Z * Z * Z) : Prop := pos_lt p q \/ p = q.

Definition cursor (state : SynchronizerState) : Z * Z * Z :=
  (latestProcessedBlock state, latestProcessedTransactionIndex state,
   latestProcessedEventIndex state).

(** The Proof rows a transaction creates. *)
Fixpoint createdProofs (ops : list Op) : list Proof :=
  match ops with
  | [] => []
  | CreateProof r :: ops' => r :: createdProofs ops'
  | _ :: ops' => createdProofs ops'
  end.

(** Some GSTRoot row holds [root] for [epoch]. *)
Definition rootExists (s : Store) (root epoch : Z) : bool :=
  existsb (fun r => (gr_epoch r =? epoch) && (gr_root r =? root)) (GSTRoots s).

(** Some GSTRoot row holds [root], whatever its epoch. *)
Definition rootKnown (s : Store) (root : Z) : bool :=
  existsb (fun r => gr_root r =? root) (GSTRoots s).

(** One of the nullifiers [ns] is stored in a confirmed row. *)
Definition confirmedDuplicate (s : Store) (ns : list Z) : bool :=
  existsb (nullifier_in ns true) (Nullifiers s).

Definition unsealedEpochs (s : Store) : list Epoch :=
  filter (fun e => Bool.eqb (sealed e) false) (Epochs s).

Definition before (a b : Event) : Prop := pos_le (position a) (position b).


Definition stubEpoch (epoch : Z) : Epoch :=
  {| number := epoch + 1; sealed := false; epochRoot := None |}.

(** The Epoch table as the handlers build it from an empty one: no two rows
    share a number, only the row with the highest number may be unsealed, and
    below a row every number from 1 on has its row. *)
Definition epochsInSequence (s : Store) : Prop :=
  NoDup (map number (Epochs s))
  /\ (forall r r', In r (Epochs s) -> In r' (Epochs s) ->
                   sealed r = false -> number r' <= number r)
  /\ (forall r n, In r (Epochs s) -> 1 <= n <= number r ->
                  exists r', In r' (Epochs s) /\ number r' = n).

(** [_isEpochKeySealed] throws: the epoch key is stored and the Epoch row of
    its epoch is sealed. *)
Definition epochKeySealed (s : Store) (epoch epochKey : Z) : bool :=
  match findOne (fun k => (ek_epoch k =? epoch) && (ek_key k =? epochKey))
          (EpochKeys s) with
  | Some _ =>
      match findOne (fun e => number e =? epoch) (Epochs s) with
      | Some epochDoc => sealed epochDoc
      | None => false
      end
  | None => false
  end.




Definition noEpochOp (op : Op) : bool :=
  match op with
  | CreateEpoch _ | UpsertEpochSealed _ _ => false
  | _ => true
  end.

Section Notions.

Context {prover : Prover} {crypto : Crypto} {deployment : Deployment}.

(** The handler queued one Proof row, with verdict [v]. *)
Definition persistsProofWith (r : Result (unit * Ctx)) (v : bool) : Prop :=
  exists c row,
    r = Ok (tt, c) /\ createdProofs (tx c) = [row] /\ pf_valid row = v.

(** The conditions under which [attestationEvent] throws: one of the three
    checks fails (the epoch is not the current one, the epoch key is out of
    range, the epoch key is sealed), no toProof is stored, or the toProof is
    valid, fromProofIndex is not zero and no fromProof is stored. *)
Definition attestationFatal (this : Synchronizer)
  (_epoch _epochKey toProofIndex fromProofIndex : Z) : bool :=
  negb (_epoch =? number (loadCurrentEpoch this))
  || (_epochKey >=? 2 ^ epochTreeDepth (settings this))
  || epochKeySealed (_db this) _epoch _epochKey
  || match findOne (proof_at _epoch toProofIndex) (Proofs (_db this)) with
     | None => true
     | Some validProof =>
         pf_valid validProof && negb (fromProofIndex =? 0)
         && match findOne (proof_at _epoch fromProofIndex)
                    (Proofs (_db this)) with
            | None => true
            | Some _ => false
            end
     end.


(** The hash chain of the spec: [H(attHash, hashChain)] folded over the
    attestations from 0, then sealed with [H(1, hashChain)]. *)
Definition hashChainOf (attestations : list Attestation) : Z :=
  fold_left (fun chain a => hashLeftRight (at_hash a) chain) attestations 0.

Definition sealedChainOf (attestations : list Attestation) : Z :=
  hashLeftRight 1 (hashChainOf attestations).

(** The epoch tree of the spec: every epoch key of the epoch mapped to the
    sealed chain of its valid attestations, in a sparse tree whose other leaves
    are [SMT_ONE_LEAF]. *)
Definition epochTreeOf (this : Synchronizer) (epoch : Z) : SparseMerkleTree :=
  fold_left
    (fun t k =>
       smt_update t (ek_key k)
         (sealedChainOf (validAttestations this epoch (ek_key k))))
    (filter (fun k => ek_epoch k =? epoch) (EpochKeys (_db this)))
    (genNewSMT (epochTreeDepth unirepContract) SMT_ONE_LEAF).

(** The three checks every attestation goes through first. *)
Definition attestationChecks (this : Synchronizer) (_epoch _epochKey : Z)
  : M unit :=
  bind (_checkCurrentEpoch this _epoch) (fun _ =>
  bind (_checkEpochKeyRange this _epochKey) (fun _ =>
  _isEpochKeySealed this _epoch _epochKey)).

(** A check reads the store only: it goes on, or throws. *)
Definition is_check (m : M unit) : Prop :=
  (forall c, m c = Ok (tt, c)) \/ (exists e, forall c, m c = Throw e).

(** A computation that returns relates the context it started in to the one
    it ends in by [I]. *)
Definition within (I : Ctx -> Ctx -> Prop) {A} (m : M A) : Prop :=
  forall c a c', m c = Ok (a, c') -> I c c'.

(** The context is as it was, the console apart. *)
Definition unchanged (c c' : Ctx) : Prop :=
  tx c' = tx c /\ tree c' = tree c.

(** The transaction grew by writes to other tables than Epoch. *)
Definition epochQuiet (c c' : Ctx) : Prop :=
  exists ops, tx c' = (tx c ++ ops)%list /\ forallb noEpochOp ops = true.

(** What keeps a transition from being taken again: the first transition
    proof stored under [proofIndex] carries the public signals, and one of
    the nullifiers [epk] is stored confirmed. *)
Definition transitionTaken (s : Store) (proofIndex : Z)
  (publicSignals epk : list Z) : Prop :=
  (exists p,
      findOne (fun p => (pf_index p =? proofIndex)
                        && ProofEvent_eqb (pf_event p)
                             IndexedUserStateTransitionProof)
        (Proofs s) = Some p
      /\ pf_publicSignals p = Some publicSignals)
  /\ confirmedDuplicate s epk = true.

(** The transactions of a list of events, each on what the one before
    committed, as long as none throws. *)
Fixpoint transactions (this : Synchronizer) (events : list Event)
  : Result Synchronizer :=
  match events with
  | [] => Ok this
  | e :: rest =>
      match transaction this e with
      | Ok this' => transactions this' rest
      | Throw err => Throw err
      end
  end.

(** The synchronizer after each transaction that [processLoop] commits. *)
Fixpoint committed (this : Synchronizer) (events : list Event)
  : list Synchronizer :=
  match events with
  | [] => []
  | e :: rest =>
      match transaction this e with
      | Ok this' => this' :: committed this' rest
      | Throw _ => []
      end
  end.

End Notions.

(** ** The rest of the synchronizer

    The methods of [Synchronizer] that the handlers do not call: the
    constructor, the read methods offered to the user state, and [start]. *)

Section Methods.

Context {prover : Prover} {crypto : Crypto} {deployment : Deployment}.

Notation "x <- m ;; k" := (bind m (fun x => k))
  (at level 61, m at next level, right associativity).
Notation "m ;; k" := (bind m (fun _ => k))
  (at level 61, right associativity).

(** [constructor(db, prover, unirepContract)]: every setting is 0 and the
    in-memory tree is not there until [setup]. *)
Definition newSynchronizer (db : Store) : Synchronizer :=
  {| _db := db;
     settings := {| globalStateTreeDepth := 0; userStateTreeDepth := 0;
                    epochTreeDepth := 0; numEpochKeyNoncePerEpoch := 0;
                    maxReputationBudget := 0; epochLength := 0;
                    attestingFee := 0 |};
     _globalStateTree := None;
     _defaultGSTLeaf := None |}.

Definition genGSTree (this : Synchronizer) (epoch : Z)
  : M IncrementalMerkleTree :=
  _checkValidEpoch this epoch ;;
  let tree := newIncrementalMerkleTree (globalStateTreeDepth (settings this))
                (_defaultGSTLeaf this) in
  let leaves := orderBy_asc gl_index
                  (findMany (fun l => gl_epoch l =? epoch)
                     (GSTLeaves (_db this))) in
  ret (fold_left (fun t leaf => imt_insert t (gl_hash leaf)) leaves tree).

Definition getAttestations (this : Synchronizer) (epochKey : Z)
  : M (list Attestation) :=
  _checkEpochKeyRange this epochKey ;;
  ret (findMany (fun a => (at_epochKey a =? epochKey)
                          && flag_is (at_valid a) true)
         (Attestations (_db this))).

(** The first occurrences of the elements of a list, in order. *)
Fixpoint firstOccurrences (seen ks : list Z) : list Z :=
  match ks with
  | [] => []
  | k :: ks' =>
      if Z_in k seen then firstOccurrences seen ks'
      else k :: firstOccurrences (k :: seen) ks'
  end.

(** [Object.keys] of an object whose keys, decimal numerals of integers that
    are not negative, were set in the order [ks]: the keys that are array
    indices (below 2^32 - 1) come first, ascending; the others follow in the
    order they were first set. *)
Definition Object_keys (ks : list Z) : list Z :=
  let own := firstOccurrences [] ks in
  (orderBy_asc (fun k => k) (filter (fun k => k <? 2 ^ 32 - 1) own)
   ++ filter (fun k => negb (k <? 2 ^ 32 - 1)) own)%list.

Definition getEpochKeys (this : Synchronizer) (epoch : Z) : M (list Z) :=
  _checkValidEpoch this epoch ;;
  let attestations := findMany (fun a => at_epoch a =? epoch)
                        (Attestations (_db this)) in
  ret (Object_keys (map at_epochKey attestations)).

(** [async start()], up to the call of [startDaemon], which it does not
    await. *)
Definition start (this : Synchronizer) : Result Synchronizer :=
  match setup this with
  | Throw e => Throw e
  | Ok this' =>
      match findOne (fun _ => true) (SynchronizerStates (_db this')) with
      | Some _ => Ok this'
      | None =>
          Ok {| _db := with_SynchronizerStates (_db this')
                         (SynchronizerStates (_db this')
                          ++ [ {| latestProcessedBlock := 0;
                                  latestProcessedTransactionIndex := 0;
                                  latestProcessedEventIndex := 0;
                                  latestCompleteBlock := 0 |} ])%list;
                settings := settings this';
                _globalStateTree := _globalStateTree this';
                _defaultGSTLeaf := _defaultGSTLeaf this' |}
      end
  end.

End Methods.

(** ** The tables a write goes to *)

Inductive Table :=
| TEpoch | TGSTLeaf | TGSTRoot | TEpochKey | TAttestation | TNullifier
| TProof | TSynchronizerState.

Definition Table_eqb (a b : Table) : bool :=
  match a, b with
  | TEpoch, TEpoch | TGSTLeaf, TGSTLeaf | TGSTRoot, TGSTRoot
  | TEpochKey, TEpochKey | TAttestation, TAttestation
  | TNullifier, TNullifier | TProof, TProof
  | TSynchronizerState, TSynchronizerState => true
  | _, _ => false
  end.

Definition opTable (op : Op) : Table :=
  match op with
  | CreateEpoch _ | UpsertEpochSealed _ _ => TEpoch
  | CreateGSTLeaf _ => TGSTLeaf
  | CreateGSTRoot _ => TGSTRoot
  | UpsertEpochKey _ _ => TEpochKey
  | CreateAttestation _ | UpdateAttestationValid _ _ => TAttestation
  | CreateNullifiers _ | DeleteNullifiers _ _ => TNullifier
  | CreateProof _ | UpdateProofSpent _ _ => TProof
  | UpdateLatestProcessed _ _ _ | UpdateLatestComplete _ => TSynchronizerState
  end.

(** The tables the handler of a log may write to. *)
Definition writeSet (l : Log) : list Table :=
  match l with
  | UserSignedUp _ _ _ _ => [TGSTLeaf; TGSTRoot]
  | UserStateTransitioned _ _ _ => [TNullifier; TGSTLeaf; TGSTRoot]
  | AttestationSubmitted _ _ _ _ _ _ _ => [TAttestation; TProof; TEpochKey]
  | EpochEnded _ => [TEpoch]
  | IndexedReputationProofLog _ _ _ => [TNullifier; TProof]
  | IndexedEpochKeyProofLog _ _ _
  | IndexedUserSignedUpProofLog _ _ _
  | IndexedStartedTransitionProofLog _ _ _ _ _
  | IndexedProcessedAttestationsProofLog _ _ _ _ _
  | IndexedUserStateTransitionProofLog _ _ _ => [TProof]
  | UnrecognizedTopic _ => []
  end.

Definition inTables (tables : list Table) (op : Op) : bool :=
  existsb (Table_eqb (opTable op)) tables.

(** The table [t] holds the same rows in both stores. *)
Definition sameTable (t : Table) (s s' : Store) : Prop :=
  match t with
  | TEpoch => Epochs s' = Epochs s
  | TGSTLeaf => GSTLeaves s' = GSTLeaves s
  | TGSTRoot => GSTRoots s' = GSTRoots s
  | TEpochKey => EpochKeys s' = EpochKeys s
  | TAttestation => Attestations s' = Attestations s
  | TNullifier => Nullifiers s' = Nullifiers s
  | TProof => Proofs s' = Proofs s
  | TSynchronizerState => SynchronizerStates s' = SynchronizerStates s
  end.

(** The cursor of a state row set to the position of an event. *)
Definition advanceTo (e : Event) (st : SynchronizerState) : SynchronizerState :=
  {| latestProcessedBlock := blockNumber e;
     latestProcessedTransactionIndex := transactionIndex e;
     latestProcessedEventIndex := logIndex e;
     latestCompleteBlock := latestCompleteBlock st |}.

(** The GSTLeaf rows of every epoch carry the indices 0, 1, 2, ... in the
    order they were inserted. *)
Definition denseLeaves (s : Store) : Prop :=
  forall epoch,
    let leaves := filter (fun l => gl_epoch l =? epoch) (GSTLeaves s) in
    map gl_index leaves
    = map Z.of_nat (seq 0 (List.length leaves)).

(** The nullifiers of the confirmed rows. *)
Definition confirmedOf (l : list Nullifier) : list Z :=
  map nf_nullifier (filter (fun n => flag_is (nf_confirmed n) true) l).

(** No two confirmed Nullifier rows hold one nullifier. *)
Definition uniqueConfirmed (s : Store) : Prop :=
  NoDup (map nf_nullifier
           (filter (fun n => flag_is (nf_confirmed n) true) (Nullifiers s))).

(** No two EpochKey rows hold one epoch and key. *)
Definition uniqueEpochKeys (s : Store) : Prop :=
  NoDup (map (fun k => (ek_epoch k, ek_key k)) (EpochKeys s)).

Section MoreNotions.

Context {crypto : Crypto}.

(** Every EpochKey row is below [2 ** epochTreeDepth] of the settings. *)
Definition epochKeysInRange (this : Synchronizer) : Prop :=
  forall k, In k (EpochKeys (_db this)) ->
            ek_key k < 2 ^ epochTreeDepth (settings this).

(** The transaction grew by writes to the given tables only. *)
Definition writesOnly (tables : list Table) (c c' : Ctx) : Prop :=
  exists ops, tx c' = (tx c ++ ops)%list
              /\ forallb (inTables tables) ops = true.

End MoreNotions.

(** ** [BaseVerifierHelper.sol]: the control field of an epoch-key proof

    Solidity 0.8 integers: a [uintN] is an integer of [Z] in [0, 2^N); an
    explicit conversion to a narrower type keeps the low bits; a shift whose
    left operand is a literal is computed in [uint256] and drops the bits it
    pushes out; [+] and [-] revert on overflow, which the constants below never
    reach. *)

Module BaseVerifierHelper.

Definition uint (bits : Z) (x : Z) : Z := x mod 2 ^ bits.

(** [(data >> shiftBits) & ((1 << variableBits) - 1)], for a [uint256 data]
    and [uint8] bit counts. *)
Definition shiftAndParse (data shiftBits variableBits : Z) : Z :=
  Z.land (Z.shiftr data shiftBits)
    (uint 256 (Z.shiftl 1 variableBits) - 1).

Record EpochKeyControl := {
  nonce : Z;
  epoch : Z;
  attesterId : Z;
  revealNonce : bool;
  chainId : Z
}.

Definition decodeEpochKeyControl (control : Z) : EpochKeyControl :=
  let nonceBits := 8 in
  let epochBits := 48 in
  let attesterIdBits := 160 in
  let revealNonceBit := 1 in
  let chainIdBits := 36 in
  let accBits := 0 in
  let nonce := uint 8 (shiftAndParse control accBits nonceBits) in
  let accBits := accBits + nonceBits in
  let epoch := uint 48 (shiftAndParse control accBits epochBits) in
  let accBits := accBits + epochBits in
  let attesterId := uint 160 (shiftAndParse control accBits attesterIdBits) in
  let accBits := accBits + attesterIdBits in
  let revealNonce :=
    negb (shiftAndParse control accBits revealNonceBit =? 0) in
  let accBits := accBits + revealNonceBit in
  let chainId := uint 48 (shiftAndParse control accBits chainIdBits) in
  {| nonce := nonce; epoch := epoch; attesterId := attesterId;
     revealNonce := revealNonce; chainId := chainId |}.

(** The control word that carries the five fields, lowest bits first: the
    layout [decodeEpochKeyControl] reads.  The packing itself is done off
    chain, by the circuit; it is written down here to state what decoding
    recovers. *)
Definition packEpochKeyControl (k : EpochKeyControl) : Z :=
  nonce k
  + 2 ^ 8 * (epoch k
             + 2 ^ 48 * (attesterId k
                         + 2 ^ 160 * ((if revealNonce k then 1 else 0)
                                      + 2 * chainId k))).

End BaseVerifierHelper.

(** ** A small deployment to run the handlers on *)

Module Toy.

Definition accepting : Prover := {| verifyProof := fun _ _ _ => true |}.

(** Trees that just remember what was put in them; the root is a running
    hash. *)
Definition crypto : Crypto :=
  {| hashLeftRight := fun a b => 3 * a + 5 * b + 1;
     IncrementalMerkleTree := list Z;
     newIncrementalMerkleTree := fun _ _ => [];
     imt_insert := fun t x => (t ++ [x])%list;
     imt_root := fun t => fold_left (fun r x => 3 * x + 5 * r + 1) t 0;
     SparseMerkleTree := list (Z * Z);
     genNewSMT := fun _ _ => [];
     smt_update := fun t k v => ((k, v) :: t);
     smt_root := fun t =>
                   fold_left (fun r kv => 3 * fst kv + 5 * snd kv + 7 * r) t 0;
     SMT_ONE_LEAF := 1;
     computeEmptyUserStateRoot := fun d => d;
     computeInitUserStateRoot := fun d a r => d + a + r;
     attestation_hash := fun a p n g s => a + p + n + g + s |}.

Definition deployment : Deployment :=
  {| unirepContract :=
       {| globalStateTreeDepth := 4; userStateTreeDepth := 4;
          epochTreeDepth := 8; numEpochKeyNoncePerEpoch := 1;
          maxReputationBudget := 10; epochLength := 300; attestingFee := 0 |};
     confirmedDefault := Some true;
     numEpkNullifiers := 1;
     numBlindedHashChains := 1 |}.

Definition synchronizer (db : Store) : @Synchronizer crypto :=
  @Build_Synchronizer crypto db (@unirepContract deployment)
    (Some (@nil Z)) (Some 0).

Definition event (b t l : Z) (d : Log) : Event :=
  {| blockNumber := b; transactionIndex := t; logIndex := l;
     transactionHash := "0xabc"; log := d |}.

Definition state0 : SynchronizerState :=
  {| latestProcessedBlock := 0; latestProcessedTransactionIndex := 0;
     latestProcessedEventIndex := 0; latestCompleteBlock := 0 |}.

Definition this0 : @Synchronizer crypto := synchronizer emptyStore.

Definition att0 : AttestationArgs :=
  {| a_attesterId := 1; a_posRep := 5; a_negRep := 2; a_graffiti := 0;
     a_signUp := 1 |}.

(** An attestation to proof 1 that spends proof [from]. *)
Definition attest (from : Z) : Event :=
  event 7 0 3 (AttestationSubmitted false 1 5 "0xa77e57e2" 1 from att0).

Definition proofRow (index : Z) (ev : ProofEvent) (epoch : option Z)
  (valid : bool) (spent : option bool) : Proof :=
  {| pf_index := index; pf_event := ev; pf_epoch := epoch; pf_proof := [];
     pf_publicSignals := None; pf_transactionHash := "0xabc";
     pf_valid := valid; pf_spent := spent; pf_blindedUserState := None;
     pf_blindedHashChain := None; pf_outputBlindedUserState := None;
     pf_outputBlindedHashChain := None; pf_inputBlindedUserState := None;
     pf_globalStateTree := None; pf_proofIndexRecords := None |}.

(** Proof 1 is a valid epoch-key proof, proof 2 a valid reputation proof that
    was spent already. *)
Definition spentStore : Store :=
  {| Epochs := []; GSTLeaves := []; GSTRoots := []; EpochKeys := [];
     Attestations := []; Nullifiers := [];
     Proofs := [proofRow 1 IndexedEpochKeyProof (Some 1) true None;
                proofRow 2 IndexedReputationProof (Some 1) true (Some true)];
     SynchronizerStates := [state0] |}.

(** The proofs of one user-state transition: start-transition proof 1,
    process-attestations proof 2 with output hash chain 71, and transition
    proof 3 with epoch-key nullifier [epk], blinded hash chain [bhc] and the
    proof index records [records]. *)
Definition startProof : Proof :=
  {| pf_index := 1; pf_event := IndexedStartedTransitionProof;
     pf_epoch := None; pf_proof := []; pf_publicSignals := None;
     pf_transactionHash := "0xabc"; pf_valid := true; pf_spent := None;
     pf_blindedUserState := Some 11; pf_blindedHashChain := Some 70;
     pf_outputBlindedUserState := None; pf_outputBlindedHashChain := None;
     pf_inputBlindedUserState := None; pf_globalStateTree := Some 50;
     pf_proofIndexRecords := None |}.

Definition processProof : Proof :=
  {| pf_index := 2; pf_event := IndexedProcessedAttestationsProof;
     pf_epoch := None; pf_proof := []; pf_publicSignals := None;
     pf_transactionHash := "0xabc"; pf_valid := true; pf_spent := None;
     pf_blindedUserState := None; pf_blindedHashChain := None;
     pf_outputBlindedUserState := Some 12;
     pf_outputBlindedHashChain := Some 71;
     pf_inputBlindedUserState := Some 11; pf_globalStateTree := Some 0;
     pf_proofIndexRecords := None |}.

Definition transitionSignals (epk bhc : Z) : list Z :=
  [100; epk; 1; 11; 12; 50; bhc; 60].

Definition transitionProof (epk bhc : Z) (records : list Z) : Proof :=
  {| pf_index := 3; pf_event := IndexedUserStateTransitionProof;
     pf_epoch := None; pf_proof := [];
     pf_publicSignals := Some (transitionSignals epk bhc);
     pf_transactionHash := "0xabc"; pf_valid := true; pf_spent := None;
     pf_blindedUserState := Some 11; pf_blindedHashChain := None;
     pf_outputBlindedUserState := None; pf_outputBlindedHashChain := None;
     pf_inputBlindedUserState := None; pf_globalStateTree := Some 50;
     pf_proofIndexRecords := Some records |}.

(** Epoch 1 is sealed with epoch root 60 and global-state-tree root 50; the
    nullifier 9 is stored confirmed. *)
Definition transitionStore (epk bhc : Z) (records : list Z) : Store :=
  {| Epochs := [ {| number := 1; sealed := true; epochRoot := Some 60 |};
                 {| number := 2; sealed := false; epochRoot := None |} ];
     GSTLeaves := [];
     GSTRoots := [ {| gr_epoch := 1; gr_root := 50 |} ];
     EpochKeys := [];
     Attestations := [];
     Nullifiers := [ {| nf_epoch := 1; nf_nullifier := 9;
                        nf_confirmed := Some true |} ];
     Proofs := [startProof; processProof; transitionProof epk bhc records];
     SynchronizerStates := [state0] |}.



Definition transitioned : Event :=
  event 9 1 0 (UserStateTransitioned 2 100 3).

(** Epoch key 5 of epoch 1 with two valid attestations, stored out of index
    order, and an invalid one. *)
Definition attestationRow (index hash : Z) (valid : option bool)
  : Attestation :=
  {| at_epoch := 1; at_epochKey := 5; at_index := index;
     at_transactionHash := "0xabc"; at_attester := "0xa77e57e2";
     at_proofIndex := 1; at_attesterId := 1; at_posRep := 5; at_negRep := 2;
     at_graffiti := 0; at_signUp := true; at_hash := hash;
     at_valid := valid |}.

Definition attestedStore : Store :=
  {| Epochs := []; GSTLeaves := []; GSTRoots := [];
     EpochKeys := [ {| ek_epoch := 1; ek_key := 5 |} ];
     Attestations := [attestationRow 20 8 (Some true);
                      attestationRow 10 9 (Some true);
                      attestationRow 15 4 (Some false)];
     Nullifiers := []; Proofs := [];
     SynchronizerStates := [state0] |}.



(** A batch out of order. *)
Definition batch : list Event :=
  [event 3 0 1 (EpochEnded 2); event 2 5 0 (EpochEnded 1);
   event 2 0 7 (UserSignedUp 1 42 1 10)].

(** Epoch 1 is sealed with one leaf, epoch 2 is open and has two. *)
Definition leafStore : Store :=
  {| Epochs := [ {| number := 1; sealed := true; epochRoot := Some 60 |};
                 {| number := 2; sealed := false; epochRoot := None |} ];
     GSTLeaves := [ {| gl_epoch := 1; gl_transactionHash := "0xabc";
                       gl_hash := 99; gl_index := 0 |};
                    {| gl_epoch := 2; gl_transactionHash := "0xabc";
                       gl_hash := 100; gl_index := 0 |};
                    {| gl_epoch := 2; gl_transactionHash := "0xabc";
                       gl_hash := 101; gl_index := 1 |} ];
     GSTRoots := [];
     EpochKeys := [ {| ek_epoch := 1; ek_key := 5 |} ];
     Attestations := [];
     Nullifiers := [];
     Proofs := [];
     SynchronizerStates := [state0] |}.

Definition signUp : Event := event 10 0 0 (UserSignedUp 2 42 1 10).

Definition epochEnd : Event := event 11 0 0 (EpochEnded 2).


(** An Epoch table with a gap: epoch 1 sealed, epoch 3 open, no epoch 2. *)
Definition gapStore : Store :=
  {| Epochs := [ {| number := 1; sealed := true; epochRoot := Some 60 |};
                 {| number := 3; sealed := false; epochRoot := None |} ];
     GSTLeaves := []; GSTRoots := []; EpochKeys := []; Attestations := [];
     Nullifiers := []; Proofs := []; SynchronizerStates := [state0] |}.

End Toy.

(** * Properties *)

(** ** Nullifier lookup *)

Section NullifierExist.

Context {crypto : Crypto}.

Lemma count_pos_iff {A} (p : A -> bool) (l : list A) :
  (count p l =? 0) = false <-> exists x, In x l /\ p x = true.
Proof.
  unfold count. rewrite Z.eqb_neq. split.
  - intros H. destruct (filter p l) as [|x r] eqn:E.
    + now simpl in H.
    + exists x. apply filter_In. rewrite E. now left.
  - intros [x Hx]. apply filter_In in Hx.
    destruct (filter p l); [easy | simpl; lia].
Qed.

(** C10: [nullifierExist] answers true exactly when some Nullifier row holds
    the value, whatever the row's [confirmed] flag; a value held by an
    unconfirmed row only is reported as existing. *)
Theorem nullifierExist_any_row (this : Synchronizer) (nullifier : Z) :
  (nullifierExist this nullifier = true <->
   exists r, In r (Nullifiers (_db this)) /\ nf_nullifier r = nullifier) /\
  (forall r, In r (Nullifiers (_db this)) ->
             nf_nullifier r = nullifier /\ nf_confirmed r = Some false ->
             nullifierExist this nullifier = true).
Proof.
  assert (E : nullifierExist this nullifier = true <->
              exists r, In r (Nullifiers (_db this))
                        /\ nf_nullifier r = nullifier).
  { unfold nullifierExist. rewrite negb_true_iff, count_pos_iff.
    split; intros [r [Hin Hr]]; exists r; split; auto.
    - now apply Z.eqb_eq.
    - now apply Z.eqb_eq. }
  split; [exact E|].
  intros r Hin [Hn _]. apply E. now exists r.
Qed.

End NullifierExist.

(** ** The public signals of a transition proof *)

Lemma nth_error_skip {A} (l r : list A) (n : nat) :
  nth_error (l ++ r) (List.length l + n) = nth_error r n.
Proof. induction l; simpl; auto. Qed.

Lemma skipn_skip {A} (l r : list A) (n : nat) :
  skipn (List.length l + n) (l ++ r) = skipn n r.
Proof. induction l; simpl; auto. Qed.

Lemma firstn_exact {A} (l r : list A) : firstn (List.length l) (l ++ r) = l.
Proof. induction l; simpl; congruence. Qed.

(** The layout the transition proof is read with is the one
    [USTProofEvent] writes the public signals in: reading back what the
    handler stored gives the arguments of the event. *)
Lemma decode_ustSignals (args : USTProofArgs) :
  decodeUserTransitionProof (List.length (ust_epkNullifiers args))
    (List.length (ust_blindedHashChains args)) (ustSignals args)
  = {| newGlobalStateTreeLeaf := Some (ust_newGlobalStateTreeLeaf args);
       epkNullifiers := ust_epkNullifiers args;
       transitionFromEpoch := Some (ust_transitionFromEpoch args);
       blindedUserStates := [fst (ust_blindedUserStates args);
                             snd (ust_blindedUserStates args)];
       fromGlobalStateTree := Some (ust_fromGlobalStateTree args);
       blindedHashChains := ust_blindedHashChains args;
       fromEpochTree := Some (ust_fromEpochTree args) |}.
Proof.
  unfold decodeUserTransitionProof, ustSignals.
  set (K := ust_epkNullifiers args). set (M := ust_blindedHashChains args).
  set (leaf := [ust_newGlobalStateTreeLeaf args]).
  set (from := [ust_transitionFromEpoch args]).
  set (bus := [fst (ust_blindedUserStates args);
               snd (ust_blindedUserStates args)]).
  set (gst := [ust_fromGlobalStateTree args]).
  f_equal.
  - change 1%nat with (List.length leaf + 0)%nat.
    rewrite skipn_skip. apply firstn_exact.
  - replace (1 + List.length K)%nat
      with (List.length leaf + (List.length K + 0))%nat by (simpl; lia).
    now rewrite !nth_error_skip.
  - replace (2 + List.length K)%nat
      with (List.length leaf + (List.length K + (List.length from + 0)))%nat
      by (simpl; lia).
    rewrite !skipn_skip. apply (firstn_exact bus).
  - replace (4 + List.length K)%nat
      with (List.length leaf
            + (List.length K + (List.length from + (List.length bus + 0))))%nat
      by (simpl; lia).
    now rewrite !nth_error_skip.
  - replace (5 + List.length K)%nat
      with (List.length leaf
            + (List.length K
               + (List.length from
                  + (List.length bus + (List.length gst + 0)))))%nat
      by (simpl; lia).
    rewrite !skipn_skip. apply firstn_exact.
  - replace (5 + List.length K + List.length M)%nat
      with (List.length leaf
            + (List.length K
               + (List.length from
                  + (List.length bus
                     + (List.length gst + (List.length M + 0))))))%nat
      by (simpl; lia).
    now rewrite !nth_error_skip.
Qed.

(** ** The verdict on indexed proofs *)

Section ProofVerdict.

Context {prover : Prover} {crypto : Crypto} {deployment : Deployment}.

Lemma find_existsb {A} (p : A -> bool) (l : list A) :
  match find p l with Some _ => true | None => false end = existsb p l.
Proof.
  induction l as [|x l IH]; simpl; [reflexivity|].
  destruct (p x); [reflexivity | exact IH].
Qed.

Lemma GSTRootExists_run (this : Synchronizer) (root epoch : Z) (c : Ctx) :
  GSTRootExists this root epoch c =
  if epoch >? number (loadCurrentEpoch this)
  then Throw (Error "Synchronizer: Epoch must be less than the current epoch")
  else Ok (rootExists (_db this) root epoch, c).
Proof.
  unfold GSTRootExists, _checkValidEpoch, bind, rootExists, findOne.
  destruct (epoch >? number (loadCurrentEpoch this)); [reflexivity|].
  cbn. rewrite <- find_existsb.
  now destruct (find _ _).
Qed.

Ltac verdict_with_root :=
  unfold run, bind; rewrite GSTRootExists_run;
  match goal with
  | |- context [?e >? ?n] =>
      destruct (Z.gtb_spec e n);
      (split; intros He; [|try lia; eexists; reflexivity]);
      try lia; eexists; eexists; repeat split; reflexivity
  end.

(** A handler that throws aborts the transaction of its event: nothing is
    persisted. *)
Lemma transaction_throws (this : Synchronizer) (event : Event)
  (handler : M unit) (err : Exn) :
  topicHandlers this event = Some handler ->
  run this handler = Throw err ->
  transaction this event = Throw err.
Proof.
  intros H R. unfold transaction. rewrite H. unfold run, bind in *.
  now rewrite R.
Qed.

(** C3 (as the code has it): the Proof row of the sign-up, epoch-key and
    user-state-transition handlers is valid exactly when the proof verifies
    and its global-state-tree root is stored for its epoch; the reputation
    handler also asks that none of the non-zero nullifiers is stored confirmed;
    the start-transition and process-attestations handlers look up no root:
    their verdict is the verifier's alone.  A handler that looks up the root
    persists its row when the epoch is not ahead of the current one, and
    throws when it is; a handler that throws aborts the transaction, so no row
    is persisted. *)
Theorem proof_verdict (this : Synchronizer) (event : Event) :
  (forall i e args,
      let r := run this (userSignedUpProofEvent this event i e args) in
      (e <= number (loadCurrentEpoch this) ->
       persistsProofWith r
         (verifyProof proveUserSignUp (signUpSignals args) (su_proof args)
          && rootExists (_db this) (su_globalStateTree args) e))
      /\ (e > number (loadCurrentEpoch this) -> exists err, r = Throw err)) /\
  (forall i e args,
      let r := run this (epochKeyProofEvent this event i e args) in
      (e <= number (loadCurrentEpoch this) ->
       persistsProofWith r
         (verifyProof verifyEpochKey (epochKeySignals args) (ekp_proof args)
          && rootExists (_db this) (ekp_globalStateTree args) e))
      /\ (e > number (loadCurrentEpoch this) -> exists err, r = Throw err)) /\
  (forall i args records,
      let r := run this (USTProofEvent this event i args records) in
      let e := ust_transitionFromEpoch args in
      (e <= number (loadCurrentEpoch this) ->
       persistsProofWith r
         (verifyProof userStateTransition (ustSignals args) (ust_proof args)
          && rootExists (_db this) (ust_fromGlobalStateTree args) e))
      /\ (e > number (loadCurrentEpoch this) -> exists err, r = Throw err)) /\
  (forall i e args,
      let r := run this (reputationProofEvent this event i e args) in
      (e <= number (loadCurrentEpoch this) ->
       persistsProofWith r
         (verifyProof proveReputation (reputationSignals args) (rp_proof args)
          && rootExists (_db this) (rp_globalStateTree args) e
          && negb (confirmedDuplicate (_db this)
                     (nonZero (rp_repNullifiers args)))))
      /\ (e > number (loadCurrentEpoch this) -> exists err, r = Throw err)) /\
  (forall i bus gst bhc proof,
      persistsProofWith
        (run this (startUSTProofEvent this event i bus gst bhc proof))
        (verifyProof startTransition (startSignals bus bhc gst) proof)) /\
  (forall i ibus obus obhc proof,
      persistsProofWith
        (run this
           (processAttestationProofEvent this event i ibus obus obhc proof))
        (verifyProof processAttestations (processSignals obus obhc ibus)
           proof)) /\
  (forall handler err,
      topicHandlers this event = Some handler ->
      run this handler = Throw err ->
      transaction this event = Throw err).
Proof.
  split; [|split; [|split; [|split; [|split; [|split]]]]]; intros.
  - subst r. unfold userSignedUpProofEvent. verdict_with_root.
  - subst r. unfold epochKeyProofEvent. verdict_with_root.
  - subst r e. unfold USTProofEvent. verdict_with_root.
  - subst r. unfold reputationProofEvent, run, bind.
    rewrite GSTRootExists_run.
    destruct (Z.gtb_spec e (number (loadCurrentEpoch this)));
      (split; intros He; [|try lia; eexists; reflexivity]); try lia.
    unfold confirmedDuplicate. rewrite <- find_existsb.
    unfold findOne.
    destruct (find _ _); cbn;
      eexists; eexists; repeat split; cbn; try reflexivity.
  - eexists; eexists; repeat split; reflexivity.
  - eexists; eexists; repeat split; reflexivity.
  - now apply transaction_throws with (handler := handler).
Qed.


End ProofVerdict.

(** ** The order of the handlers *)

Section SortFacts.

Variable A : Type.
Variable leb : A -> A -> bool.
Hypothesis leb_total : forall x y, leb x y = true \/ leb y x = true.
Hypothesis leb_trans :
  forall x y z, leb x y = true -> leb y z = true -> leb x z = true.

Let le (x y : A) : Prop := leb x y = true.

Lemma insert_sorted_perm (x : A) (l : list A) :
  Permutation (insert_sorted leb x l) (x :: l).
Proof.
  induction l as [|y l IH]; simpl; [apply Permutation_refl|].
  destruct (leb x y); [apply Permutation_refl|].
  eapply perm_trans; [apply perm_skip, IH | apply perm_swap].
Qed.

Lemma stable_sort_perm (l : list A) : Permutation (stable_sort leb l) l.
Proof.
  induction l as [|x l IH]; simpl; [constructor|].
  eapply perm_trans; [apply insert_sorted_perm | now apply perm_skip].
Qed.

Lemma insert_sorted_sorted (x : A) (l : list A) :
  StronglySorted le l -> StronglySorted le (insert_sorted leb x l).
Proof.
  induction 1 as [|y l Hs IH Hy]; simpl.
  - repeat constructor.
  - destruct (leb x y) eqn:E.
    + constructor; [now constructor|].
      constructor; [exact E|].
      eapply Forall_impl; [|exact Hy]. intros z Hz. exact (leb_trans E Hz).
    + constructor; [exact IH|].
      eapply Permutation_Forall;
        [apply Permutation_sym, insert_sorted_perm|].
      constructor; [|exact Hy].
      destruct (leb_total x y) as [H|H]; [congruence | exact H].
Qed.

Lemma stable_sort_sorted (l : list A) : StronglySorted le (stable_sort leb l).
Proof.
  induction l as [|x l IH]; simpl; [constructor|].
  now apply insert_sorted_sorted.
Qed.

End SortFacts.

Section Ordering.

Context {prover : Prover} {crypto : Crypto} {deployment : Deployment}.

Lemma compareEvents_le (a b : Event) :
  (compareEvents a b <=? 0) = true <-> before a b.
Proof.
  unfold compareEvents, before, pos_le, pos_lt, position.
  rewrite Z.leb_le.
  destruct (Z.eqb_spec (blockNumber a) (blockNumber b));
    destruct (Z.eqb_spec (transactionIndex a) (transactionIndex b));
    simpl; split; intros H.
  - destruct (Z.eq_dec (logIndex a) (logIndex b)) as [El|El].
    + right. congruence.
    + left. lia.
  - destruct H as [H|H]; [lia|]. injection H. lia.
  - left. lia.
  - destruct H as [H|H]; [lia|]. injection H. lia.
  - left. lia.
  - destruct H as [H|H]; [lia|]. injection H. lia.
  - left. lia.
  - destruct H as [H|H]; [lia|]. injection H. lia.
Qed.

Lemma compareEvents_total (a b : Event) :
  (compareEvents a b <=? 0) = true \/ (compareEvents b a <=? 0) = true.
Proof.
  rewrite !Z.leb_le. unfold compareEvents.
  destruct (Z.eqb_spec (blockNumber a) (blockNumber b));
    destruct (Z.eqb_spec (blockNumber b) (blockNumber a));
    destruct (Z.eqb_spec (transactionIndex a) (transactionIndex b));
    destruct (Z.eqb_spec (transactionIndex b) (transactionIndex a));
    simpl; lia.
Qed.

Lemma compareEvents_trans (a b c : Event) :
  (compareEvents a b <=? 0) = true -> (compareEvents b c <=? 0) = true ->
  (compareEvents a c <=? 0) = true.
Proof.
  rewrite !Z.leb_le. unfold compareEvents.
  destruct (Z.eqb_spec (blockNumber a) (blockNumber b));
    destruct (Z.eqb_spec (blockNumber b) (blockNumber c));
    destruct (Z.eqb_spec (blockNumber a) (blockNumber c));
    destruct (Z.eqb_spec (transactionIndex a) (transactionIndex b));
    destruct (Z.eqb_spec (transactionIndex b) (transactionIndex c));
    destruct (Z.eqb_spec (transactionIndex a) (transactionIndex c));
    simpl; lia.
Qed.

Lemma sortEvents_sorted (events : list Event) :
  StronglySorted before (sortEvents events).
Proof.
  unfold sortEvents.
  pose proof (@stable_sort_sorted _ _ compareEvents_total compareEvents_trans
                events) as H.
  induction H as [|x l Hs IH Hx]; constructor; [exact IH|].
  eapply Forall_impl; [|exact Hx]. intros y Hy. now apply compareEvents_le.
Qed.

Lemma sortEvents_perm (events : list Event) :
  Permutation (sortEvents events) events.
Proof. apply stable_sort_perm. Qed.



Lemma StronglySorted_prefix {A} (R : A -> A -> Prop) (l r : list A) :
  StronglySorted R (l ++ r) -> StronglySorted R l.
Proof.
  induction l as [|x l IH]; simpl; intros H; [constructor|].
  inversion H as [|? ? Hs Hx]; subst. constructor; [now apply IH|].
  apply Forall_app in Hx. tauto.
Qed.


Lemma unprocessed_after (state : SynchronizerState) (e : Event) :
  unprocessed state e = true <-> pos_lt (cursor state) (position e).
Proof.
  unfold unprocessed, pos_lt, cursor, position.
  destruct (Z.eqb_spec (blockNumber e) (latestProcessedBlock state));
    [destruct (Z.eqb_spec (transactionIndex e)
                 (latestProcessedTransactionIndex state))|];
    rewrite Z.gtb_lt; lia.
Qed.



End Ordering.

(** ** Commits *)

Section Commits.

Context {prover : Prover} {crypto : Crypto} {deployment : Deployment}.

(** A transaction that commits leaves the rows its writes give. *)
Lemma commit_writes (ops : list Op) :
  forall s s', commit s ops = Ok s' -> s' = writes s ops.
Proof.
  induction ops as [|op ops IH]; simpl; intros s s' H.
  - now injection H.
  - destruct (DB.apply s op) as [s1|e] eqn:A; [|discriminate].
    assert (s1 = write s op).
    { destruct op; simpl in A; try (now injection A).
      destruct (existsb _ _); [discriminate | now injection A]. }
    subst s1. now apply IH.
Qed.

(** Writes that create no Epoch row are never rejected. *)
Lemma commit_quiet_ok (ops : list Op) :
  forallb noEpochOp ops = true ->
  forall s, commit s ops = Ok (writes s ops).
Proof.
  induction ops as [|op ops IH]; simpl; intros H s; [reflexivity|].
  apply andb_true_iff in H. destruct H as [Hop Hops].
  destruct op; try discriminate; simpl; now apply IH.
Qed.

Lemma transaction_inv (this this' : Synchronizer) (event : Event) :
  transaction this event = Ok this' ->
  exists handler c,
    topicHandlers this event = Some handler
    /\ run this (bind handler (fun _ =>
                   queue (UpdateLatestProcessed (blockNumber event)
                            (transactionIndex event) (logIndex event))))
       = Ok (tt, c)
    /\ commit (_db this) (tx c) = Ok (_db this')
    /\ this' = {| _db := writes (_db this) (tx c);
                  settings := settings this;
                  _globalStateTree := tree c;
                  _defaultGSTLeaf := _defaultGSTLeaf this |}.
Proof.
  unfold transaction.
  destruct (topicHandlers this event) as [handler|]; [|discriminate].
  destruct (run this _) as [[[] c]|e] eqn:R; [|discriminate].
  destruct (commit (_db this) (tx c)) as [db'|e] eqn:C; [|discriminate].
  intros H. injection H as <-. exists handler, c.
  split; [reflexivity|]. split; [exact R|]. split; [exact C|].
  now rewrite (commit_writes _ _ C).
Qed.

Lemma aborted_db (this : Synchronizer) (event : Event) :
  _db (aborted this event) = _db this.
Proof.
  unfold aborted. destruct (topicHandlers this event); [|reflexivity].
  now destruct (run this m) as [[u c]|e].
Qed.

Lemma upsert_numbers (epoch root : Z) (l : list Epoch) (n : Z) :
  n <> epoch ->
  existsb (fun r => number r =? n)
    (upsert (fun r => number r =? epoch) (set_sealed root)
       {| number := epoch; sealed := true; epochRoot := Some root |} l)
  = existsb (fun r => number r =? n) l.
Proof.
  intros Hn. unfold upsert.
  destruct (existsb (fun r => number r =? epoch) l).
  - unfold update_where. induction l as [|r l IH]; simpl; [reflexivity|].
    rewrite IH. f_equal. now destruct (number r =? epoch).
  - rewrite existsb_app. simpl.
    destruct (Z.eqb_spec epoch n); [congruence|]. now rewrite !orb_false_r.
Qed.

End Commits.

(** ** The epoch tree *)

Section EpochTree.

Context {prover : Prover} {crypto : Crypto} {deployment : Deployment}.

Lemma mapM_pure {A B} (f : A -> M B) (g : A -> B) (xs : list A) :
  (forall x c, In x xs -> f x c = Ok (g x, c)) ->
  forall c, mapM f xs c = Ok (map g xs, c).
Proof.
  induction xs as [|x xs IH]; intros H c; simpl; [reflexivity|].
  unfold bind. rewrite (H x c (or_introl eq_refl)).
  rewrite IH; [reflexivity|]. intros y c' Hy. apply H. now right.
Qed.

Lemma fold_left_map {A B C} (f : C -> B -> C) (g : A -> B) (l : list A)
  (c : C) :
  fold_left f (map g l) c = fold_left (fun c a => f c (g a)) l c.
Proof. revert c. induction l; simpl; auto. Qed.

Lemma genEpochTree_run (this : Synchronizer) (epoch : Z) (c : Ctx) :
  epoch <= number (loadCurrentEpoch this) ->
  (forall k, In k (EpochKeys (_db this)) -> ek_epoch k = epoch ->
             ek_key k < 2 ^ epochTreeDepth (settings this)) ->
  genEpochTree this epoch c = Ok (epochTreeOf this epoch, c).
Proof.
  intros He Hk. unfold genEpochTree, bind, _checkValidEpoch.
  destruct (Z.gtb_spec epoch (number (loadCurrentEpoch this))); [lia|].
  simpl. unfold findMany.
  rewrite mapM_pure with
    (g := fun k => (ek_key k,
                    sealedChainOf (validAttestations this epoch (ek_key k)))).
  - unfold ret, epochTreeOf. now rewrite fold_left_map.
  - intros k c' Hin. apply filter_In in Hin. destruct Hin as [Hin Hep].
    apply Z.eqb_eq in Hep. unfold _checkEpochKeyRange.
    destruct (Z.geb_spec (ek_key k) (2 ^ epochTreeDepth (settings this)));
      [specialize (Hk k Hin Hep); lia | reflexivity].
Qed.

Lemma orderBy_asc_sorted {A} (key : A -> Z) (l : list A) :
  StronglySorted (fun a b => key a <= key b) (orderBy_asc key l).
Proof.
  unfold orderBy_asc.
  assert (H : StronglySorted (fun x y => (key x <=? key y) = true)
                (stable_sort (fun x y => key x <=? key y) l)).
  { apply stable_sort_sorted.
    - intros x y. rewrite !Z.leb_le. lia.
    - intros x y z. rewrite !Z.leb_le. lia. }
  induction H as [|x r Hs IH Hx]; constructor; [exact IH|].
  eapply Forall_impl; [|exact Hx]. intros y. apply Z.leb_le.
Qed.

Lemma orderBy_asc_perm {A} (key : A -> Z) (l : list A) :
  Permutation (orderBy_asc key l) l.
Proof. apply stable_sort_perm. Qed.

(** C7: when the epoch of an EpochEnded event is not ahead of the current one
    and its epoch keys are in range, the handler chains, for each epoch key of
    the epoch, the hashes of the key's valid attestations in ascending index
    order from 0, seals the chain with [H(1, chain)], puts (key, sealed chain)
    in a sparse tree with default leaf [SMT_ONE_LEAF], and queues two writes:
    the root of the tree as the [epochRoot] of the epoch with [sealed = true],
    and the unsealed stub of the next epoch.  When no Epoch row holds the next
    number the transaction commits: the rows of the epoch are sealed with the
    root (one is created when there was none) and the stub is the last row.
    When a row holds it already, as for a replayed event, the store rejects
    the stub and the transaction is rolled back. *)
Theorem epochEnded_seals (this : Synchronizer) (event : Event) (e : N) :
  let epoch := Z.of_N e in
  log event = EpochEnded e ->
  epoch <= number (loadCurrentEpoch this) ->
  (forall k, In k (EpochKeys (_db this)) -> ek_epoch k = epoch ->
             ek_key k < 2 ^ epochTreeDepth (settings this)) ->
  let root := smt_root (epochTreeOf this epoch) in
  (forall key,
      StronglySorted (fun a b => at_index a <= at_index b)
        (validAttestations this epoch key)
      /\ Permutation (validAttestations this epoch key)
           (filter (fun a => (at_epoch a =? epoch) && (at_epochKey a =? key)
                             && flag_is (at_valid a) true)
              (Attestations (_db this))))
  /\ (exists c,
         run this (epochEndedEvent this epoch) = Ok (tt, c)
         /\ tx c = [UpsertEpochSealed epoch root;
                    CreateEpoch (stubEpoch epoch)])
  /\ (existsb (fun r => number r =? epoch + 1) (Epochs (_db this)) = false ->
      exists this',
        transaction this event = Ok this'
        /\ Epochs (_db this')
           = (upsert (fun r => number r =? epoch) (set_sealed root)
                {| number := epoch; sealed := true; epochRoot := Some root |}
                (Epochs (_db this))
              ++ [stubEpoch epoch])%list
        /\ (exists r, In r (Epochs (_db this')) /\ number r = epoch)
        /\ (forall r, In r (Epochs (_db this')) -> number r = epoch ->
                      sealed r = true /\ epochRoot r = Some root))
  /\ (existsb (fun r => number r =? epoch + 1) (Epochs (_db this)) = true ->
      transaction this event
      = Throw (Error "UNIQUE constraint failed: Epoch.number")).
Proof.
  intros epoch Hlog He Hk root. split.
  { intros key. split; [apply orderBy_asc_sorted | apply orderBy_asc_perm]. }
  split.
  { unfold epochEndedEvent, run, bind. cbn.
    rewrite genEpochTree_run by assumption. cbn. fold root.
    eexists. split; reflexivity. }
  assert (T : transaction this event
              = match commit (_db this)
                        [UpsertEpochSealed epoch root;
                         CreateEpoch (stubEpoch epoch);
                         UpdateLatestProcessed (blockNumber event)
                           (transactionIndex event) (logIndex event)] with
                | Ok db' =>
                    Ok {| _db := db'; settings := settings this;
                          _globalStateTree :=
                            Some (newIncrementalMerkleTree
                                    (globalStateTreeDepth unirepContract)
                                    (_defaultGSTLeaf this));
                          _defaultGSTLeaf := _defaultGSTLeaf this |}
                | Throw err => Throw err
                end).
  { unfold transaction, topicHandlers. rewrite Hlog.
    unfold epochEndedEvent, run, bind. cbn. fold epoch.
    rewrite genEpochTree_run by assumption. reflexivity. }
  rewrite T. cbn [commit DB.apply write Epochs with_Epochs stubEpoch number].
  rewrite upsert_numbers by lia.
  split; intros Ex; rewrite Ex; [|reflexivity].
  eexists. split; [reflexivity|]. cbn. split; [reflexivity|].
  unfold upsert.
  destruct (existsb (fun r => number r =? epoch) (Epochs (_db this))) eqn:Ee.
  - split.
    + apply existsb_exists in Ee. destruct Ee as [r [Hin Hr]].
      exists (set_sealed root r). split; [|now apply Z.eqb_eq in Hr].
      apply in_or_app. left. unfold update_where.
      apply in_map_iff. exists r. now rewrite Hr.
    + intros r Hin Hn. apply in_app_or in Hin. destruct Hin as [Hin|Hin].
      * unfold update_where in Hin. apply in_map_iff in Hin.
        destruct Hin as [r0 [Hr0 _]].
        destruct (Z.eqb_spec (number r0) epoch); subst r; [now split|].
        contradiction.
      * destruct Hin as [<-|[]]. simpl in Hn. lia.
  - split.
    + exists {| number := epoch; sealed := true; epochRoot := Some root |}.
      split; [|reflexivity].
      apply in_or_app. left. apply in_or_app. right. now left.
    + intros r Hin Hn. apply in_app_or in Hin. destruct Hin as [Hin|Hin].
      * apply in_app_or in Hin. destruct Hin as [Hin|Hin].
        -- exfalso. assert (F : existsb (fun r => number r =? epoch)
                                  (Epochs (_db this)) = true).
           { apply existsb_exists. exists r. split; [exact Hin|].
             now apply Z.eqb_eq. }
           congruence.
        -- destruct Hin as [<-|[]]. now split.
      * destruct Hin as [<-|[]]. simpl in Hn. lia.
Qed.

End EpochTree.

(** ** Attestations *)

Section Attestations.

Context {prover : Prover} {crypto : Crypto} {deployment : Deployment}.

Lemma checkCurrentEpoch_check this epoch : is_check (_checkCurrentEpoch this epoch).
Proof.
  unfold is_check, _checkCurrentEpoch.
  destruct (negb _); [right; eexists; reflexivity | left; reflexivity].
Qed.

Lemma checkEpochKeyRange_check this key : is_check (_checkEpochKeyRange this key).
Proof.
  unfold is_check, _checkEpochKeyRange.
  destruct (_ >=? _); [right; eexists; reflexivity | left; reflexivity].
Qed.

Lemma isEpochKeySealed_check this epoch key :
  is_check (_isEpochKeySealed this epoch key).
Proof.
  unfold is_check, _isEpochKeySealed.
  destruct (findOne _ (EpochKeys _)); [|left; reflexivity].
  destruct (findOne _ (Epochs _)) as [d|]; [|left; reflexivity].
  destruct (sealed d); [right; eexists; reflexivity | left; reflexivity].
Qed.

Lemma update_where_snoc {A} (w : A -> bool) (f : A -> A) (l : list A) (x : A) :
  update_where w f (l ++ [x])
  = (update_where w f l ++ [if w x then f x else x])%list.
Proof. unfold update_where. now rewrite map_app. Qed.

Lemma update_where_length {A} (w : A -> bool) (f : A -> A) (l : list A) :
  List.length (update_where w f l) = List.length l.
Proof. apply length_map. Qed.

Lemma spent_after_update (epoch index : Z) (l : list Proof) (p : Proof) :
  In p (update_where (proof_at epoch index) set_spent l) ->
  proof_at epoch index p = true -> pf_spent p = Some true.
Proof.
  unfold update_where. intros Hin Hp. apply in_map_iff in Hin.
  destruct Hin as [q [Hq _]].
  destruct (proof_at epoch index q) eqn:E; subst p; [reflexivity|congruence].
Qed.

Lemma isEpochKeySealed_run (this : Synchronizer) (epoch epochKey : Z)
  (c : Ctx) :
  _isEpochKeySealed this epoch epochKey c
  = if epochKeySealed (_db this) epoch epochKey
    then Throw (Error "Synchronizer: Epoch key has been sealed")
    else Ok (tt, c).
Proof.
  unfold _isEpochKeySealed, epochKeySealed, findOne.
  destruct (find _ (EpochKeys _)) as [k|] eqn:F; [|reflexivity].
  apply find_some in F. destruct F as [_ F].
  apply andb_true_iff in F. destruct F as [F _]. apply Z.eqb_eq in F.
  rewrite F. destruct (find _ (Epochs _)) as [d|]; [|reflexivity].
  now destruct (sealed d).
Qed.

(** The outcome of [attestationEvent]: it throws exactly on the fatal
    conditions; otherwise it queues the new row, and the writes leave it as
    the last Attestation row with its verdict. *)
Lemma attestationEvent_run (this : Synchronizer) (event : Event)
  (_epoch _epochKey : Z) (_attester : string) (toProofIndex fromProofIndex : Z)
  (att : AttestationArgs) :
  let toProof := findOne (proof_at _epoch toProofIndex) (Proofs (_db this)) in
  let fromProof :=
    findOne (proof_at _epoch fromProofIndex) (Proofs (_db this)) in
  match run this (attestationEvent this event _epoch _epochKey _attester
                    toProofIndex fromProofIndex att) with
  | Throw _ =>
      attestationFatal this _epoch _epochKey toProofIndex fromProofIndex = true
  | Ok (_, c) =>
      attestationFatal this _epoch _epochKey toProofIndex fromProofIndex
      = false
      /\ exists validProof rows row,
        toProof = Some validProof
        /\ Attestations (writes (_db this) (tx c)) = (rows ++ [row])%list
        /\ List.length rows = List.length (Attestations (_db this))
        /\ set_valid true row
           = set_valid true (newAttestation event _epoch _epochKey _attester
                               toProofIndex att)
        /\ (at_valid row = Some true <->
            pf_valid validProof = true
            /\ (fromProofIndex <> 0 ->
                exists fromValidProof,
                  fromProof = Some fromValidProof
                  /\ pf_valid fromValidProof = true
                  /\ truthy (pf_spent fromValidProof) = false))
        /\ (pf_valid validProof = false -> at_valid row = Some false)
        /\ (at_valid row = Some true -> fromProofIndex <> 0 ->
            forall p, In p (Proofs (writes (_db this) (tx c))) ->
                      proof_at _epoch fromProofIndex p = true ->
                      pf_spent p = Some true)
  end.
Proof.
  intros toProof fromProof.
  unfold attestationFatal, attestationEvent, run, bind.
  unfold _checkCurrentEpoch at 1.
  destruct (negb (_epoch =? number (loadCurrentEpoch this))); [reflexivity|].
  unfold _checkEpochKeyRange at 1.
  destruct (_epochKey >=? 2 ^ epochTreeDepth (settings this));
    [reflexivity|].
  cbn [ret orb]. rewrite isEpochKeySealed_run.
  destruct (epochKeySealed (_db this) _epoch _epochKey); [reflexivity|].
  cbn.
  fold toProof. destruct toProof as [validProof|] eqn:ET; [|reflexivity].
  assert (New : forall o,
             matchAttestation
               {| w_epoch := _epoch; w_epochKey := _epochKey;
                  w_proofIndex := o |}
               (newAttestation event _epoch _epochKey _attester toProofIndex
                  att)
             = match o with Some i => toProofIndex =? i | None => true end).
  { intros o. unfold matchAttestation. cbn. now rewrite !Z.eqb_refl. }
  destruct (pf_valid validProof) eqn:EV; cbn.
  - destruct (Z.eqb_spec fromProofIndex 0) as [E0|E0]; cbn.
    + (* no fromProof *)
      split; [reflexivity|].
      exists validProof. eexists. eexists. split; [reflexivity|].
      rewrite map_app. cbn. rewrite New.
      split; [reflexivity|]. split; [apply length_map|].
      split; [reflexivity|]. cbn. repeat split; try easy.
      congruence.
    + fold fromProof.
      destruct fromProof as [fromValidProof|] eqn:EF; [|reflexivity].
      destruct (pf_valid fromValidProof) eqn:EFV;
        destruct (truthy (pf_spent fromValidProof)) eqn:EFS; cbn.
      2:{ (* valid and not spent: the success case *)
          split; [reflexivity|].
          exists validProof. eexists. eexists. split; [reflexivity|].
          rewrite map_app. cbn. rewrite New.
          split; [reflexivity|]. split; [apply length_map|].
          split; [reflexivity|]. cbn. split; [|split].
          - split; [|reflexivity]. intros _. split; [exact EV|].
            intros _. now exists fromValidProof.
          - congruence.
          - intros _ _ p Hin Hp. exact (spent_after_update _ _ _ _ Hin Hp). }
      all: (split; [reflexivity|]);
        exists validProof; eexists; eexists; (split; [reflexivity|]);
        rewrite map_app; cbn; rewrite New;
        (split; [reflexivity|]); (split; [apply length_map|]);
        destruct (toProofIndex =? fromProofIndex); cbn;
        (split; [reflexivity|]);
        (split; [|split; [congruence|discriminate]]);
        (split; [discriminate|]);
        intros [_ H]; destruct (H E0) as [q [Hq [Hv Hs]]]; congruence.
  - (* the toProof is invalid *)
    split; [reflexivity|].
    exists validProof. eexists. eexists. split; [reflexivity|].
    rewrite map_app. cbn. rewrite New, Z.eqb_refl.
    split; [reflexivity|]. split; [apply length_map|].
    split; [reflexivity|]. cbn. split; [|split].
    + split; [discriminate|]. intros [H _]. congruence.
    + reflexivity.
    + discriminate.
Qed.

End Attestations.

(** ** What a handler leaves untouched *)

Section Footprint.

Context {crypto : Crypto}.

(** [I c c'] relates the context a computation starts in to the one it ends
    in; it does not look at the console. *)
Variable I : Ctx -> Ctx -> Prop.
Hypothesis I_refl : forall c, I c c.
Hypothesis I_trans : forall a b c, I a b -> I b c -> I a c.
Hypothesis I_console :
  forall c msg,
    I c {| tree := tree c; tx := tx c; console := (console c ++ [msg])%list |}.

Lemma within_ret {A} (a : A) : within I (ret a).
Proof. intros c a' c' H. injection H as _ <-. apply I_refl. Qed.

Lemma within_throw {A} (e : Exn) : within I (@throw _ A e).
Proof. intros c a c' H. discriminate. Qed.

Lemma within_log (msg : string) : within I (console_log msg).
Proof. intros c a c' H. injection H as _ <-. apply I_console. Qed.

Lemma within_tree : within I globalStateTree.
Proof.
  intros c a c' H. unfold globalStateTree in H.
  destruct (tree c); [|discriminate]. injection H as _ <-. apply I_refl.
Qed.

Lemma within_bind {A B} (m : M A) (k : A -> M B) :
  within I m -> (forall a, within I (k a)) -> within I (bind m k).
Proof.
  intros Hm Hk c b c' H. unfold bind in H.
  destruct (m c) as [[a c1]|e] eqn:E; [|discriminate].
  eapply I_trans; [exact (Hm _ _ _ E) | exact (Hk _ _ _ _ H)].
Qed.

Lemma within_for_of {A} (xs : list A) (body : A -> M bool) :
  (forall x, within I (body x)) -> within I (for_of xs body).
Proof.
  intros Hb. induction xs as [|x xs IH]; simpl.
  - apply within_ret.
  - apply within_bind; [apply Hb|]. intros [|]; [exact IH | apply within_ret].
Qed.

Lemma within_mapM {A B} (f : A -> M B) (xs : list A) :
  (forall x, within I (f x)) -> within I (mapM f xs).
Proof.
  intros Hf. induction xs as [|x xs IH]; simpl.
  - apply within_ret.
  - apply within_bind; [apply Hf|]. intros y.
    apply within_bind; [exact IH|]. intros ys. apply within_ret.
Qed.

End Footprint.

(** Peels a handler down to its writes; [leaf] closes what is left. *)
Ltac footprint R T C leaf :=
  repeat first
    [ apply (@within_ret _ _ R)
    | apply @within_throw
    | apply (@within_log _ _ C)
    | apply (@within_tree _ _ R)
    | apply (@within_bind _ _ T); [|intros]
    | apply (@within_for_of _ _ R T); intros
    | apply (@within_mapM _ _ R T); intros
    | progress cbv zeta
    | match goal with
      | |- within _ (match ?x with _ => _ end) => destruct x
      | |- within _ (if ?x then _ else _) => destruct x
      end
    | leaf ].

Section Untouched.

Context {prover : Prover} {crypto : Crypto} {deployment : Deployment}.

Lemma unchanged_refl c : unchanged c c.
Proof. now split. Qed.

Lemma unchanged_trans a b c : unchanged a b -> unchanged b c -> unchanged a c.
Proof. unfold unchanged. intros [] []. split; congruence. Qed.

Lemma unchanged_console c msg :
  unchanged c {| tree := tree c; tx := tx c;
                 console := (console c ++ [msg])%list |}.
Proof. now split. Qed.

Ltac reads_only :=
  footprint unchanged_refl unchanged_trans unchanged_console fail.

Lemma checkProcessedAttestations_reads (this : Synchronizer) (records : list Z) :
  forall current,
    within unchanged (checkProcessedAttestations this records current).
Proof.
  induction records as [|i rest IH]; intros current; simpl.
  - reads_only.
  - reads_only. apply IH.
Qed.

Lemma checkBlindedHashChain_reads (this : Synchronizer) (records : list Z)
  (blindedHC : Z) :
  within unchanged (checkBlindedHashChain this records blindedHC).
Proof. unfold checkBlindedHashChain. reads_only. Qed.

Lemma checkValidEpoch_reads (this : Synchronizer) (epoch : Z) :
  within unchanged (_checkValidEpoch this epoch).
Proof. unfold _checkValidEpoch. reads_only. Qed.

Lemma applyTransition_duplicate (this : Synchronizer) (event : Event)
  (epoch leaf : Z) (formatProof : UserTransitionProof) :
  confirmedDuplicate (_db this) (nonZero (epkNullifiers formatProof)) = true ->
  within unchanged (applyTransition this event epoch leaf formatProof).
Proof.
  intros Hdup. unfold applyTransition.
  unfold confirmedDuplicate in Hdup. rewrite <- find_existsb in Hdup.
  unfold findOne.
  destruct (find (nullifier_in _ true) _) eqn:E; [|discriminate].
  reads_only. apply checkValidEpoch_reads.
Qed.

Lemma USTEvent_duplicate (this : Synchronizer) (event : Event)
  (epoch leaf proofIndex : Z) (transitionProof : Proof)
  (publicSignals : list Z) :
  findOne (fun p => (pf_index p =? proofIndex)
                    && ProofEvent_eqb (pf_event p)
                         IndexedUserStateTransitionProof)
    (Proofs (_db this)) = Some transitionProof ->
  pf_publicSignals transitionProof = Some publicSignals ->
  confirmedDuplicate (_db this)
    (nonZero (epkNullifiers
                (decodeUserTransitionProof numEpkNullifiers
                   numBlindedHashChains publicSignals))) = true ->
  within unchanged (USTEvent this event epoch leaf proofIndex).
Proof.
  intros Hfind Hsig Hdup. unfold USTEvent. rewrite Hfind, Hsig.
  footprint unchanged_refl unchanged_trans unchanged_console
    ltac:(first [ apply checkProcessedAttestations_reads
                | apply checkBlindedHashChain_reads
                | apply applyTransition_duplicate; exact Hdup ]).
Qed.

End Untouched.

(** ** Unsealed epochs *)

Section Epochs.

Context {prover : Prover} {crypto : Crypto} {deployment : Deployment}.

Lemma epochQuiet_refl c : epochQuiet c c.
Proof. exists []. now rewrite app_nil_r. Qed.

Lemma epochQuiet_trans a b c : epochQuiet a b -> epochQuiet b c -> epochQuiet a c.
Proof.
  intros [o1 [E1 F1]] [o2 [E2 F2]]. exists (o1 ++ o2)%list. split.
  - now rewrite E2, E1, app_assoc.
  - now rewrite forallb_app, F1, F2.
Qed.

Lemma epochQuiet_console c msg :
  epochQuiet c {| tree := tree c; tx := tx c;
                  console := (console c ++ [msg])%list |}.
Proof. exists []. now rewrite app_nil_r. Qed.

Lemma quiet_queue (op : Op) : noEpochOp op = true -> within epochQuiet (queue op).
Proof.
  intros H c a c' E. injection E as _ <-. exists [op]. simpl. now rewrite H.
Qed.

Lemma quiet_set_tree t : within epochQuiet (set_tree t).
Proof.
  intros c a c' E. injection E as _ <-. exists []. simpl.
  now rewrite app_nil_r.
Qed.

Ltac quiet :=
  footprint epochQuiet_refl epochQuiet_trans epochQuiet_console
    ltac:(first
            [ apply quiet_queue; reflexivity
            | apply quiet_set_tree
            | progress unfold _checkCurrentEpoch, _checkValidEpoch,
                _checkEpochKeyRange, _isEpochKeySealed, GSTRootExists,
                checkBlindedHashChain, applyTransition ]).

Lemma checkProcessedAttestations_quiet (this : Synchronizer) (records : list Z) :
  forall current,
    within epochQuiet (checkProcessedAttestations this records current).
Proof.
  induction records as [|i rest IH]; intros current; simpl.
  - quiet.
  - quiet. apply IH.
Qed.

(** Only the EpochEnded handler writes to the Epoch table. *)
Lemma handlers_quiet (this : Synchronizer) (event : Event) (handler : M unit) :
  topicHandlers this event = Some handler ->
  (forall epoch, log event <> EpochEnded epoch) ->
  within epochQuiet handler.
Proof.
  unfold topicHandlers. intros H N.
  destruct (log event); try discriminate; injection H as <-.
  - unfold userSignedUpEvent. quiet.
  - unfold USTEvent. quiet. apply checkProcessedAttestations_quiet.
  - unfold attestationEvent. quiet.
  - now destruct (N epoch).
  - unfold epochKeyProofEvent. quiet.
  - unfold reputationProofEvent. quiet.
  - unfold userSignedUpProofEvent. quiet.
  - unfold startUSTProofEvent. quiet.
  - unfold processAttestationProofEvent. quiet.
  - unfold USTProofEvent. quiet.
Qed.

Lemma writes_quiet (ops : list Op) :
  forallb noEpochOp ops = true ->
  forall s, Epochs (writes s ops) = Epochs s.
Proof.
  unfold writes.
  induction ops as [|op ops IH]; simpl; intros H s; [reflexivity|].
  apply andb_true_iff in H. destruct H as [Hop Hops].
  rewrite (IH Hops). now destruct op.
Qed.

Lemma genEpochTree_reads (this : Synchronizer) (epoch : Z) :
  within unchanged (genEpochTree this epoch).
Proof.
  unfold genEpochTree.
  footprint unchanged_refl unchanged_trans unchanged_console
    ltac:(progress unfold _checkValidEpoch, _checkEpochKeyRange).
Qed.

Lemma transaction_epochEnded (this this' : Synchronizer) (event : Event)
  (e : N) :
  log event = EpochEnded e ->
  transaction this event = Ok this' ->
  let epoch := Z.of_N e in
  epoch <= number (loadCurrentEpoch this)
  /\ existsb (fun r => number r =? epoch + 1) (Epochs (_db this)) = false
  /\ exists root,
      Epochs (_db this')
      = (upsert (fun r => number r =? epoch) (set_sealed root)
           {| number := epoch; sealed := true; epochRoot := Some root |}
           (Epochs (_db this))
         ++ [stubEpoch epoch])%list.
Proof.
  intros Hlog T epoch.
  destruct (transaction_inv _ _ T) as [handler [c [Hh [R [C ->]]]]].
  unfold topicHandlers in Hh. rewrite Hlog in Hh. injection Hh as <-.
  fold epoch in R. unfold run, epochEndedEvent, bind in R. cbn in R.
  destruct (genEpochTree this epoch _) as [[t c0]|err] eqn:G; [|discriminate].
  destruct (genEpochTree_reads _ _ _ G) as [Htx _]. cbn in Htx.
  cbn in R. rewrite Htx in R. injection R as <-.
  cbn [tx app] in C |- *.
  split.
  { unfold genEpochTree, bind, _checkValidEpoch in G.
    destruct (Z.gtb_spec epoch (number (loadCurrentEpoch this)));
      [discriminate | lia]. }
  cbn [commit DB.apply write Epochs with_Epochs stubEpoch number] in C.
  rewrite upsert_numbers in C by lia.
  destruct (existsb _ (Epochs (_db this))); [discriminate|].
  split; [reflexivity|]. now exists (smt_root t).
Qed.

Lemma transaction_other (this this' : Synchronizer) (event : Event) :
  (forall epoch, log event <> EpochEnded epoch) ->
  transaction this event = Ok this' ->
  Epochs (_db this') = Epochs (_db this).
Proof.
  intros N T.
  destruct (transaction_inv _ _ T) as [handler [c [Hh [R [_ ->]]]]].
  cbn.
  assert (Q : within epochQuiet
                (bind handler (fun _ =>
                   queue (UpdateLatestProcessed (blockNumber event)
                            (transactionIndex event) (logIndex event))))).
  { apply (@within_bind _ _ epochQuiet_trans);
      [exact (@handlers_quiet this event handler Hh N)
      | intros; now apply quiet_queue]. }
  destruct (Q _ _ _ R) as [ops [Htx Hq]]. cbn in Htx. rewrite Htx.
  now apply writes_quiet.
Qed.

(** The transaction of an event that is no EpochEnded commits whenever its
    handler returns: it creates no Epoch row. *)
Lemma transaction_commits (this : Synchronizer) (event : Event)
  (handler : M unit) (c : Ctx) :
  (forall epoch, log event <> EpochEnded epoch) ->
  topicHandlers this event = Some handler ->
  run this handler = Ok (tt, c) ->
  transaction this event
  = Ok {| _db := writes (_db this)
                   (tx c ++ [UpdateLatestProcessed (blockNumber event)
                               (transactionIndex event) (logIndex event)]);
          settings := settings this;
          _globalStateTree := tree c;
          _defaultGSTLeaf := _defaultGSTLeaf this |}.
Proof.
  intros N Hh R.
  pose proof (@handlers_quiet this event handler Hh N) as Q.
  destruct (Q _ _ _ R) as [ops [Htx Hq]]. cbn in Htx.
  unfold transaction. rewrite Hh. unfold run, bind in *. rewrite R.
  cbn. rewrite commit_quiet_ok; [reflexivity|].
  rewrite Htx, forallb_app, Hq. reflexivity.
Qed.

Lemma last_default {A} (l : list A) (x d d' : A) :
  last (x :: l) d = last (x :: l) d'.
Proof.
  revert x. induction l as [|y l IH]; intros x; [reflexivity|].
  change (last (y :: l) d = last (y :: l) d'). apply IH.
Qed.

Lemma last_in {A} (l : list A) (x d : A) : In (last (x :: l) d) (x :: l).
Proof.
  revert x. induction l as [|y l IH]; intros x; [now left|].
  right. change (In (last (y :: l) d) (y :: l)). apply IH.
Qed.

End Epochs.

(** ** Concrete runs *)

Section Runs.

#[local] Existing Instance Toy.accepting.
#[local] Existing Instance Toy.crypto.
#[local] Existing Instance Toy.deployment.

(** The loop body over the blinded hash chains has two outcomes only: a stored
    proof matches and the loop goes on, or none does and reading [.index] of
    [null] throws.  The branch that logs the mismatch and returns is never
    taken. *)
Lemma checkBlindedHashChain_outcomes {crypto : Crypto} (this : Synchronizer)
  (records : list Z) (blindedHC : Z) (c : Ctx) :
  let found :=
    findOne (fun p =>
               (field_is (pf_outputBlindedHashChain p) blindedHC
                && (ProofEvent_eqb (pf_event p) IndexedStartedTransitionProof
                    || ProofEvent_eqb (pf_event p)
                         IndexedProcessedAttestationsProof))
               && Z_in (pf_index p) records)
      (Proofs (_db this)) in
  (found <> None
   /\ checkBlindedHashChain this records blindedHC c = Ok (true, c))
  \/ (found = None
      /\ checkBlindedHashChain this records blindedHC c
         = Throw (TypeError "Cannot read properties of null (reading 'index')")).
Proof.
  intros found. unfold checkBlindedHashChain. fold found.
  destruct found as [p|] eqn:E; [left | right; now split].
  split; [discriminate|].
  apply find_some in E. destruct E as [_ E].
  apply andb_true_iff in E. destruct E as [_ E]. now rewrite E.
Qed.

(** C4: a user-state transition with a blinded hash chain that no referenced
    proof outputs is not logged and skipped: whenever the lookup returns no
    row, the handler reads [.index] of it and throws, and the exception leaves
    the transaction.  In the run, the transition proof 3 carries the chain 77,
    its records are the start proof 1 and the process proof 2, whose output
    chain is 71. *)
Theorem UST_unmatched_hash_chain_throws :
  (forall (crypto : Crypto) (this : Synchronizer) (records : list Z)
          (blindedHC : Z) (c : Ctx),
      findOne (fun p =>
                 (field_is (pf_outputBlindedHashChain p) blindedHC
                  && (ProofEvent_eqb (pf_event p)
                        IndexedStartedTransitionProof
                      || ProofEvent_eqb (pf_event p)
                           IndexedProcessedAttestationsProof))
                 && Z_in (pf_index p) records)
        (Proofs (_db this)) = None ->
      checkBlindedHashChain this records blindedHC c
      = Throw (TypeError "Cannot read properties of null (reading 'index')"))
  /\
  let this := Toy.synchronizer (Toy.transitionStore 8 77 [1; 2]) in
  findOne (fun p =>
             (field_is (pf_outputBlindedHashChain p) 77
              && (ProofEvent_eqb (pf_event p) IndexedStartedTransitionProof
                  || ProofEvent_eqb (pf_event p)
                       IndexedProcessedAttestationsProof))
             && Z_in (pf_index p) [1; 2])
    (Proofs (_db this)) = None
  /\ run this (USTEvent this Toy.transitioned 2 100 3)
     = Throw (TypeError "Cannot read properties of null (reading 'index')")
  /\ transaction this Toy.transitioned
     = Throw (TypeError "Cannot read properties of null (reading 'index')")
  /\ rethrown (processEvents this [Toy.transitioned])
     = Some (TypeError "Cannot read properties of null (reading 'index')").
Proof.
  split.
  - intros crypto this records blindedHC c H.
    destruct (checkBlindedHashChain_outcomes this records blindedHC c)
      as [[F _]|[_ T]]; [contradiction | exact T].
  - repeat split.
Qed.

(** With the chain 71 in the transition proof the same event goes through:
    the nullifier, the leaf and the new root are queued. *)
Example UST_matched_hash_chain_commits :
  let this := Toy.synchronizer (Toy.transitionStore 8 71 [1; 2]) in
  exists this',
    transaction this Toy.transitioned = Ok this'
    /\ GSTLeaves (_db this')
       = [ {| gl_epoch := 2; gl_transactionHash := "0xabc"; gl_hash := 100;
              gl_index := 0 |} ]
    /\ map nf_nullifier (Nullifiers (_db this')) = [9; 8].
Proof. eexists. repeat split. Qed.

(** C1, as stated, fails: an attestation whose toProof is not stored is not
    persisted with [valid = false]; the handler throws and the transaction
    commits nothing. *)
Lemma attestation_without_proof_throws :
  findOne (proof_at 1 1) (Proofs (_db Toy.this0)) = None
  /\ run Toy.this0
       (attestationChecks Toy.this0 1 5) = Ok (tt, {| tree := Some [];
                                                      tx := [];
                                                      console := [] |})
  /\ transaction Toy.this0 (Toy.attest 0)
     = Throw (Error "Unable to find proof for attestation").
Proof. repeat split. Qed.

(** An attestation that spends a proof already spent: the update that should
    mark it invalid selects the rows whose [proofIndex] is the fromProofIndex,
    the new row carries the toProofIndex, and its [valid] stays unset. *)
Example attestation_spent_source_left_unset :
  let this := Toy.synchronizer Toy.spentStore in
  exists this',
    transaction this (Toy.attest 2) = Ok this'
    /\ map at_valid (Attestations (_db this')) = [None].
Proof. eexists. split; reflexivity. Qed.


(** C3, as stated, fails for the start-transition handler: with a verifier
    that accepts and no GSTRoot row at all, the Proof row is persisted
    valid. *)
Lemma start_transition_valid_without_root :
  exists c row,
    run Toy.this0
      (startUSTProofEvent Toy.this0 (Toy.event 4 0 0 (EpochEnded 1))
         1 11 50 70 [])
    = Ok (tt, c)
    /\ createdProofs (tx c) = [row]
    /\ rootKnown (_db Toy.this0) 50 = false
    /\ pf_valid row
       <> (verifyProof startTransition (startSignals 11 70 50) []
           && rootKnown (_db Toy.this0) 50).
Proof. eexists. eexists. repeat split. discriminate. Qed.

(** The two valid attestations of key 5, stored with indices 20 and 10, are
    chained in the order 10, 20; the invalid one is left out.  The Epoch table
    is empty: the sealed row of epoch 1 is created, then the stub of
    epoch 2. *)
Lemma epochEnded_seals_witness :
  let this := Toy.synchronizer Toy.attestedStore in
  map at_index (validAttestations this 1 5) = [10; 20]
  /\ exists this',
      transaction this (Toy.event 11 0 0 (EpochEnded 1)) = Ok this'
      /\ Epochs (_db this')
         = [ {| number := 1; sealed := true; epochRoot := Some 4160 |};
             stubEpoch 1 ].
Proof.
  intros this. split; [reflexivity|].
  assert (H1 : 1 <= number (loadCurrentEpoch this)) by (vm_compute; discriminate).
  assert (H2 : forall k, In k (EpochKeys (_db this)) -> ek_epoch k = 1 ->
                         ek_key k < 2 ^ epochTreeDepth (settings this)).
  { intros k [<-|[]] _. reflexivity. }
  destruct (@epochEnded_seals _ _ _ this (Toy.event 11 0 0 (EpochEnded 1))
              1%N eq_refl H1 H2) as [_ [_ [C _]]].
  destruct (C eq_refl) as [this' [T [E _]]].
  exists this'. split; [exact T|]. rewrite E. reflexivity.
Defined.


(** C5: the index of an Attestation row glues the decimal numerals of
    blockNumber, transactionIndex and logIndex together, so the rows of two
    attestations at distinct positions can carry one index, and the row of a
    later attestation a smaller index than the row of an earlier one. *)
Theorem attestationIndex_not_positional :
  let row b t l :=
    newAttestation (Toy.event b t l (EpochEnded 1)) 1 5 "0xa77e57e2" 1
      Toy.att0 in
  (position (Toy.event 1 23 4 (EpochEnded 1))
     <> position (Toy.event 12 3 4 (EpochEnded 1))
   /\ attestationIndex 1 23 4 = 1234
   /\ attestationIndex 12 3 4 = 1234
   /\ at_index (row 1 23 4) = at_index (row 12 3 4))
  /\ (pos_lt (1, 10, 0) (2, 0, 0)
      /\ attestationIndex 1 10 0 = 1100
      /\ attestationIndex 2 0 0 = 200
      /\ at_index (row 2 0 0) < at_index (row 1 10 0)).
Proof.
  repeat split.
  - discriminate.
  - simpl. lia.
Qed.

(** Past 2^53 the glued numeral is rounded: the logs 2 and 3 of one
    transaction get one index. *)
Example attestationIndex_rounds :
  attestationIndex 90071992 5474099 2 = 9007199254740992
  /\ attestationIndex 90071992 5474099 3 = 9007199254740992.
Proof. split; vm_compute; reflexivity. Qed.

End Runs.

(** * More of the code *)

(** ** The tables a handler writes to *)

Section WriteSets.

Context {prover : Prover} {crypto : Crypto} {deployment : Deployment}.

Lemma writesOnly_refl (T : list Table) (c : Ctx) : writesOnly T c c.
Proof. exists []. now rewrite app_nil_r. Qed.

Lemma writesOnly_trans (T : list Table) (a b c : Ctx) :
  writesOnly T a b -> writesOnly T b c -> writesOnly T a c.
Proof.
  intros [o1 [E1 F1]] [o2 [E2 F2]]. exists (o1 ++ o2)%list. split.
  - now rewrite E2, E1, app_assoc.
  - now rewrite forallb_app, F1, F2.
Qed.

Lemma writesOnly_console (T : list Table) (c : Ctx) (msg : string) :
  writesOnly T c {| tree := tree c; tx := tx c;
                    console := (console c ++ [msg])%list |}.
Proof. exists []. now rewrite app_nil_r. Qed.

Lemma writes_queue (T : list Table) (op : Op) :
  inTables T op = true -> within (writesOnly T) (queue op).
Proof.
  intros H c a c' E. injection E as _ <-. exists [op]. simpl. now rewrite H.
Qed.

Lemma writes_set_tree (T : list Table) t : within (writesOnly T) (set_tree t).
Proof.
  intros c a c' E. injection E as _ <-. exists []. simpl.
  now rewrite app_nil_r.
Qed.

Ltac writes T :=
  footprint (@writesOnly_refl T) (@writesOnly_trans T) (@writesOnly_console T)
    ltac:(first
            [ apply writes_queue; reflexivity
            | apply writes_set_tree
            | progress unfold _checkCurrentEpoch, _checkValidEpoch,
                _checkEpochKeyRange, _isEpochKeySealed, GSTRootExists,
                checkBlindedHashChain, applyTransition, genEpochTree ]).

Lemma checkProcessedAttestations_writes (T : list Table) (this : Synchronizer)
  (records : list Z) :
  forall current,
    within (writesOnly T) (checkProcessedAttestations this records current).
Proof.
  induction records as [|i rest IH]; intros current; simpl.
  - writes T.
  - writes T. apply IH.
Qed.

Lemma handler_writes (this : Synchronizer) (event : Event) (handler : M unit) :
  topicHandlers this event = Some handler ->
  within (writesOnly (writeSet (log event))) handler.
Proof.
  unfold topicHandlers. intros H.
  destruct (log event); try discriminate; injection H as <-; simpl writeSet.
  - unfold userSignedUpEvent. writes [TGSTLeaf; TGSTRoot].
  - unfold USTEvent. writes [TNullifier; TGSTLeaf; TGSTRoot].
    apply checkProcessedAttestations_writes.
  - unfold attestationEvent. writes [TAttestation; TProof; TEpochKey].
  - unfold epochEndedEvent. writes [TEpoch].
  - unfold epochKeyProofEvent. writes [TProof].
  - unfold reputationProofEvent. writes [TNullifier; TProof].
  - unfold userSignedUpProofEvent. writes [TProof].
  - unfold startUSTProofEvent. writes [TProof].
  - unfold processAttestationProofEvent. writes [TProof].
  - unfold USTProofEvent. writes [TProof].
Qed.

Lemma write_same_table (t : Table) (op : Op) (s : Store) :
  Table_eqb (opTable op) t = false -> sameTable t s (DB.write s op).
Proof. destruct op, t; simpl; intros H; try reflexivity; discriminate. Qed.

Lemma sameTable_trans (t : Table) (a b c : Store) :
  sameTable t a b -> sameTable t b c -> sameTable t a c.
Proof. destruct t; simpl; congruence. Qed.

Lemma writes_same_table (t : Table) (ops : list Op) :
  forallb (fun op => negb (Table_eqb (opTable op) t)) ops = true ->
  forall s, sameTable t s (writes s ops).
Proof.
  unfold writes.
  induction ops as [|op ops IH]; simpl; intros H s.
  - destruct t; reflexivity.
  - apply andb_true_iff in H. destruct H as [Hop Hops].
    apply sameTable_trans with (b := DB.write s op).
    + apply write_same_table. now apply negb_true_iff.
    + now apply IH.
Qed.

Lemma Table_eqb_eq (a b : Table) : Table_eqb a b = true <-> a = b.
Proof. destruct a, b; simpl; split; intros H; try reflexivity; discriminate. Qed.

Lemma outside_tables (T : list Table) (t : Table) (ops : list Op) :
  existsb (Table_eqb t) T = false ->
  forallb (inTables T) ops = true ->
  forallb (fun op => negb (Table_eqb (opTable op) t)) ops = true.
Proof.
  intros Ht H. rewrite forallb_forall in *. intros op Hop.
  specialize (H op Hop). unfold inTables in H.
  apply negb_true_iff. destruct (Table_eqb (opTable op) t) eqn:E; [|reflexivity].
  apply Table_eqb_eq in E. rewrite E in H. congruence.
Qed.

Lemma writeSet_no_cursor (l : Log) :
  existsb (Table_eqb TSynchronizerState) (writeSet l) = false.
Proof. now destruct l. Qed.

(** What a committed transaction is made of: the writes of the handler, all
    to the tables of its write set, then the cursor. *)
Lemma transaction_ops (this this' : Synchronizer) (event : Event) :
  transaction this event = Ok this' ->
  exists handler c ops,
    topicHandlers this event = Some handler
    /\ run this handler = Ok (tt, c)
    /\ tx c = ops
    /\ forallb (inTables (writeSet (log event))) ops = true
    /\ _db this' = writes (_db this)
                     (ops ++ [UpdateLatestProcessed (blockNumber event)
                                (transactionIndex event) (logIndex event)])
    /\ _globalStateTree this' = tree c
    /\ settings this' = settings this
    /\ _defaultGSTLeaf this' = _defaultGSTLeaf this.
Proof.
  intros T0. destruct (transaction_inv _ _ T0) as [handler [c1 [T [R [_ ->]]]]].
  unfold run, bind in R.
  destruct (handler _) as [[[] c]|e] eqn:E; [|discriminate].
  cbn in R. injection R as <-. cbn.
  destruct (@handler_writes this event handler T _ _ _ E) as [ops [Htx Hops]].
  cbn in Htx. exists handler, c, ops. rewrite Htx. repeat split; auto.
Qed.

Lemma transaction_states (this this' : Synchronizer) (event : Event) :
  transaction this event = Ok this' ->
  SynchronizerStates (_db this')
  = map (advanceTo event) (SynchronizerStates (_db this)).
Proof.
  intros T.
  destruct (@transaction_ops this this' event T)
    as [handler [c [ops [_ [_ [_ [Hops [Hdb _]]]]]]]].
  rewrite Hdb. unfold writes. rewrite fold_left_app. simpl.
  pose proof (@writes_same_table TSynchronizerState ops
                (@outside_tables (writeSet (log event)) TSynchronizerState
                   ops (writeSet_no_cursor (log event)) Hops)
                (_db this)) as S.
  simpl in S. unfold writes in S. now rewrite S.
Qed.

(** X1: a committed transaction changes no table outside the write set of its
    handler -- GSTLeaf and GSTRoot for a sign-up; Nullifier, GSTLeaf and
    GSTRoot for a user-state transition; Attestation, Proof and EpochKey for
    an attestation; Epoch for an epoch end; Proof (and Nullifier, for a
    reputation proof) for an indexed proof -- and moves the cursor of every
    SynchronizerState row to the position of the event, whatever the handler
    did; the settings are as before. *)
Theorem transaction_write_set (this this' : Synchronizer) (event : Event) :
  transaction this event = Ok this' ->
  (forall t, existsb (Table_eqb t) (writeSet (log event)) = false ->
             t <> TSynchronizerState ->
             sameTable t (_db this) (_db this'))
  /\ SynchronizerStates (_db this')
     = map (advanceTo event) (SynchronizerStates (_db this))
  /\ settings this' = settings this
  /\ _defaultGSTLeaf this' = _defaultGSTLeaf this.
Proof.
  intros T.
  destruct (@transaction_ops this this' event T)
    as [handler [c [ops [_ [_ [_ [Hops [Hdb [_ [Hs Hl]]]]]]]]]].
  split; [|split; [|split; assumption]].
  - intros t Ht Hn. rewrite Hdb. apply writes_same_table.
    rewrite forallb_app.
    rewrite (@outside_tables (writeSet (log event)) t ops Ht Hops). simpl.
    destruct t; try reflexivity. contradiction.
  - exact (@transaction_states this this' event T).
Qed.

End WriteSets.

(** ** The cursor *)

Section Cursor.

Context {prover : Prover} {crypto : Crypto} {deployment : Deployment}.

Lemma pos_lt_trans (p q r : Z * Z * Z) : pos_lt p q -> pos_lt q r -> pos_lt p r.
Proof.
  destruct p as [[b1 t1] l1], q as [[b2 t2] l2], r as [[b3 t3] l3].
  unfold pos_lt. lia.
Qed.

Lemma pos_lt_irrefl (p : Z * Z * Z) : ~ pos_lt p p.
Proof. destruct p as [[b t] l]. unfold pos_lt. lia. Qed.

Lemma pos_le_trans (p q r : Z * Z * Z) : pos_le p q -> pos_le q r -> pos_le p r.
Proof.
  intros [H1|<-] [H2|<-]; [left; now apply pos_lt_trans with q
                          | now left | now left | now right].
Qed.

Lemma pos_le_not_lt (p q : Z * Z * Z) : pos_le p q -> ~ pos_lt q p.
Proof.
  intros [H|<-] H'; [|now apply pos_lt_irrefl in H'].
  apply (@pos_lt_irrefl p). now apply pos_lt_trans with q.
Qed.

Lemma pos_total (p q : Z * Z * Z) : pos_lt p q \/ pos_le q p.
Proof.
  destruct p as [[b1 t1] l1], q as [[b2 t2] l2]. unfold pos_le, pos_lt.
  destruct (Z.eq_dec b1 b2) as [->|]; [|lia].
  destruct (Z.eq_dec t1 t2) as [->|]; [|lia].
  destruct (Z.eq_dec l1 l2) as [->|]; [|lia].
  right. now right.
Qed.

Lemma filter_none {A} (p : A -> bool) (l : list A) :
  (forall x, In x l -> p x = false) -> filter p l = [].
Proof.
  induction l as [|x l IH]; intros H; simpl; [reflexivity|].
  rewrite (H x (or_introl eq_refl)). apply IH. intros y Hy. apply H. now right.
Qed.

(** The state rows after a list of commits, in the order of the commits. *)
Lemma processLoop_states (events : list Event) :
  forall this : Synchronizer,
    SynchronizerStates (_db (final (processLoop this events)))
    = fold_left (fun sts e => map (advanceTo e) sts)
        (emitted (processLoop this events)) (SynchronizerStates (_db this)).
Proof.
  induction events as [|e events IH]; intros this; simpl; [reflexivity|].
  destruct (transaction this e) as [this'|err] eqn:T; simpl;
    [|now rewrite aborted_db].
  rewrite IH. now rewrite (@transaction_states _ _ _ this this' e T).
Qed.

Lemma processLoop_emitted (events : list Event) :
  forall this : Synchronizer,
    exists rest,
      events = (emitted (processLoop this events) ++ rest)%list
      /\ (rethrown (processLoop this events) = None -> rest = []).
Proof.
  induction events as [|e events IH]; intros this; simpl.
  - exists []. auto.
  - destruct (transaction this e) as [this'|err]; simpl.
    + destruct (IH this') as [rest [E N]]. exists rest.
      split; [now rewrite <- E | exact N].
    + exists (e :: events). split; [reflexivity | discriminate].
Qed.

Lemma advance_last (l : list Event) (e : Event) (sts : list SynchronizerState) :
  fold_left (fun sts e => map (advanceTo e) sts) (e :: l) sts
  = map (advanceTo (last (e :: l) e)) sts.
Proof.
  revert e sts. induction l as [|x l IH]; intros e sts; [reflexivity|].
  change (fold_left (fun sts e => map (advanceTo e) sts) (x :: l)
            (map (advanceTo e) sts)
          = map (advanceTo (last (x :: l) e)) sts).
  rewrite IH, map_map. rewrite (last_default l x x e).
  apply map_ext. intros st. reflexivity.
Qed.

Lemma sorted_last_max (l : list Event) (e d : Event) :
  StronglySorted before (e :: l) ->
  forall x, In x (e :: l) -> before x (last (e :: l) d).
Proof.
  revert e. induction l as [|y l IH]; intros e Hs x Hx.
  - destruct Hx as [<-|[]]. now right.
  - inversion Hs as [|? ? Hs' Hall]; subst.
    change (before x (last (y :: l) d)).
    destruct Hx as [<-|Hx]; [|now apply IH].
    rewrite Forall_forall in Hall. apply Hall, last_in.
Qed.

(** A turn of the daemon, seen from the cursor. *)
Lemma daemonTurn_cursor (this : Synchronizer) (events : list Event)
  (newLatest : Z) (state : SynchronizerState) (r : Processed) :
  findOne (fun _ => true) (SynchronizerStates (_db this)) = Some state ->
  daemonTurn this events newLatest = Ok r ->
  exists state',
    findOne (fun _ => true) (SynchronizerStates (_db (final r))) = Some state'
    /\ pos_le (cursor state) (cursor state')
    /\ (forall e, In e (emitted r) ->
                  In e events /\ pos_lt (cursor state) (position e)
                  /\ pos_le (position e) (cursor state'))
    /\ (emitted r <> [] ->
        exists e, In e (emitted r) /\ cursor state' = position e)
    /\ (rethrown r = None ->
        forall e, In e events -> pos_le (position e) (cursor state')).
Proof.
  intros Hs Hd. unfold daemonTurn in Hd. rewrite Hs in Hd.
  set (u := filter (unprocessed state) events) in *.
  set (pr := processEvents this u) in *.
  assert (Hpl : pr = processLoop this (sortEvents u)).
  { unfold pr, processEvents. now destruct u. }
  destruct (processLoop_emitted (sortEvents u) this) as [rest [Epre Enone]].
  rewrite <- Hpl in Epre, Enone.
  pose proof (processLoop_states (sortEvents u) this) as St.
  rewrite <- Hpl in St.
  assert (Hin : forall e, In e (emitted pr) ->
                  In e events /\ pos_lt (cursor state) (position e)).
  { intros e He.
    assert (In e u).
    { apply (Permutation_in e (sortEvents_perm u)). rewrite Epre.
      apply in_or_app. now left. }
    apply filter_In in H. destruct H as [H1 H2].
    split; [exact H1 | now apply unprocessed_after]. }
  assert (Hsorted : StronglySorted before (emitted pr)).
  { apply StronglySorted_prefix with (r := rest). rewrite <- Epre.
    apply sortEvents_sorted. }
  (* the state row after the commits *)
  assert (Hrow : exists state1,
             findOne (fun _ => true) (SynchronizerStates (_db (final pr)))
             = Some state1
             /\ latestCompleteBlock state1 = latestCompleteBlock state
             /\ cursor state1
                = match emitted pr with
                  | [] => cursor state
                  | e :: l => position (last (e :: l) e)
                  end).
  { rewrite St. unfold findOne in *.
    destruct (SynchronizerStates (_db this)) as [|st sts] eqn:Es;
      [discriminate|].
    simpl in Hs. injection Hs as ->.
    destruct (emitted pr) as [|e l].
    - simpl. exists state. repeat split.
    - rewrite advance_last. simpl. eexists. repeat split. }
  destruct Hrow as [state1 [F1 [_ C1]]].
  assert (Hfinal : exists state',
             findOne (fun _ => true) (SynchronizerStates (_db (final r)))
             = Some state' /\ cursor state' = cursor state1
             /\ emitted r = emitted pr /\ rethrown r = rethrown pr).
  { destruct (rethrown pr) eqn:R; cbn in Hd; injection Hd as <-.
    - exists state1. repeat split; auto.
    - simpl. unfold findOne in *.
      destruct (SynchronizerStates (_db (final pr))) as [|st sts];
        [discriminate|].
      simpl in F1. injection F1 as ->. simpl. eexists. repeat split. }
  destruct Hfinal as [state' [F' [C' [Em Re]]]].
  exists state'. rewrite Em, Re, C', C1. clear Em Re C' C1 F1.
  split; [exact F'|].
  destruct (emitted pr) as [|e l] eqn:Ee.
  - split; [now right|]. split; [intros e []|]. split; [congruence|].
    intros Rn e He. specialize (Enone Rn). subst rest. simpl in Epre.
    assert (Hu : u = []).
    { apply Permutation_nil. rewrite <- Epre. apply sortEvents_perm. }
    destruct (pos_total (cursor state) (position e)) as [H|H]; [|exact H].
    exfalso. apply unprocessed_after in H.
    assert (In e u) by (apply filter_In; now split).
    rewrite Hu in H0. contradiction.
  - assert (Hl : In (last (e :: l) e) (e :: l)) by apply last_in.
    split; [left; apply (Hin _ Hl)|].
    split; [|split].
    + intros x Hx. destruct (Hin x Hx) as [H1 H2]. repeat split; auto.
      exact (@sorted_last_max l e e Hsorted x Hx).
    + intros _. exists (last (e :: l) e). now split.
    + intros Rn x Hx. specialize (Enone Rn). subst rest.
      rewrite app_nil_r in Epre.
      destruct (pos_total (cursor state) (position x)) as [H|H].
      * apply unprocessed_after in H.
        assert (Hxu : In x u) by (apply filter_In; now split).
        apply (Permutation_in x (Permutation_sym (sortEvents_perm u))) in Hxu.
        rewrite Epre in Hxu. exact (@sorted_last_max l e e Hsorted x Hxu).
      * apply pos_le_trans with (cursor state); [exact H|].
        left. apply (Hin _ Hl).
Qed.

(** X2: a turn of the ingestor loop never moves the cursor back: the cursor
    it leaves is at or after the one it found, at or after every event it
    committed, and, when it committed any, it is the position of one of
    them. *)
Theorem daemon_cursor_monotone (this : Synchronizer) (events : list Event)
  (newLatest : Z) (state : SynchronizerState) (r : Processed) :
  findOne (fun _ => true) (SynchronizerStates (_db this)) = Some state ->
  daemonTurn this events newLatest = Ok r ->
  exists state',
    findOne (fun _ => true) (SynchronizerStates (_db (final r))) = Some state'
    /\ pos_le (cursor state) (cursor state')
    /\ (forall e, In e (emitted r) -> pos_le (position e) (cursor state'))
    /\ (emitted r <> [] ->
        exists e, In e (emitted r) /\ cursor state' = position e).
Proof.
  intros Hs Hd.
  destruct (daemonTurn_cursor this events newLatest Hs Hd)
    as [state' [F [M [E [L _]]]]].
  exists state'. repeat split; auto. intros e He. apply (E e He).
Qed.

(** X3: a turn that went through without an exception has consumed its
    batch: a second turn given the same events finds none of them after the
    cursor, invokes no handler and only writes the latest complete block. *)
Theorem daemon_replay_is_noop (this : Synchronizer) (events : list Event)
  (newLatest newLatest' : Z) (r : Processed) :
  daemonTurn this events newLatest = Ok r ->
  rethrown r = None ->
  exists r',
    daemonTurn (final r) events newLatest' = Ok r'
    /\ invoked r' = [] /\ emitted r' = [] /\ rethrown r' = None
    /\ DB.apply (_db (final r)) (UpdateLatestComplete newLatest')
       = Ok (_db (final r')).
Proof.
  intros Hd Rn.
  destruct (findOne (fun _ => true) (SynchronizerStates (_db this)))
    as [state|] eqn:Hs;
    [|unfold daemonTurn in Hd; rewrite Hs in Hd; discriminate].
  destruct (daemonTurn_cursor this events newLatest Hs Hd)
    as [state' [F [_ [_ [_ A]]]]].
  specialize (A Rn).
  unfold daemonTurn. rewrite F.
  assert (Hu : filter (unprocessed state') events = []).
  { apply filter_none. intros e He.
    destruct (unprocessed state' e) eqn:U; [|reflexivity].
    apply unprocessed_after in U.
    exfalso. exact (pos_le_not_lt (A e He) U). }
  rewrite Hu. simpl. eexists. repeat split.
Qed.

End Cursor.

(** ** The current epoch, [setup] and the rebuilt tree *)

Section CurrentEpoch.

Context {prover : Prover} {crypto : Crypto} {deployment : Deployment}.

Lemma loadCurrentEpoch_max (this : Synchronizer) :
  match Epochs (_db this) with
  | [] => loadCurrentEpoch this
          = {| number := 1; sealed := false; epochRoot := None |}
  | _ :: _ =>
      In (loadCurrentEpoch this) (Epochs (_db this))
      /\ forall e, In e (Epochs (_db this)) ->
                   number e <= number (loadCurrentEpoch this)
  end.
Proof.
  unfold loadCurrentEpoch, findOne.
  pose proof (orderBy_asc_sorted (fun e => - number e) (Epochs (_db this)))
    as Hs.
  pose proof (orderBy_asc_perm (fun e => - number e) (Epochs (_db this)))
    as Hp.
  destruct (Epochs (_db this)) as [|x l] eqn:E.
  - reflexivity.
  - destruct (orderBy_asc (fun e => - number e) (x :: l)) as [|y r] eqn:O.
    + apply Permutation_nil in Hp. discriminate.
    + simpl. split.
      * apply (Permutation_in y Hp). now left.
      * intros e He. apply (Permutation_in e (Permutation_sym Hp)) in He.
        destruct He as [<-|He]; [lia|].
        inversion Hs as [|? ? _ Hall]; subst.
        rewrite Forall_forall in Hall. specialize (Hall e He). lia.
Qed.

(** X4: the current epoch is the highest-numbered Epoch row, and epoch 1,
    unsealed, when there is no Epoch row yet. *)
Theorem loadCurrentEpoch_highest (this : Synchronizer) :
  (Epochs (_db this) = [] ->
   loadCurrentEpoch this
   = {| number := 1; sealed := false; epochRoot := None |})
  /\ (Epochs (_db this) <> [] ->
      In (loadCurrentEpoch this) (Epochs (_db this)))
  /\ (forall e, In e (Epochs (_db this)) ->
                number e <= number (loadCurrentEpoch this)).
Proof.
  pose proof (loadCurrentEpoch_max this) as H.
  destruct (Epochs (_db this)) as [|x l].
  - split; [auto|]. split; [congruence | intros e []].
  - split; [discriminate|]. split; [intros _; apply H | apply H].
Qed.

Lemma genGSTree_run (this : Synchronizer) (epoch : Z) (c : Ctx) :
  epoch <= number (loadCurrentEpoch this) ->
  genGSTree this epoch c
  = Ok (fold_left (fun t leaf => imt_insert t (gl_hash leaf))
          (orderBy_asc gl_index
             (findMany (fun l => gl_epoch l =? epoch) (GSTLeaves (_db this))))
          (newIncrementalMerkleTree (globalStateTreeDepth (settings this))
             (_defaultGSTLeaf this)), c).
Proof.
  intros H. unfold genGSTree, bind, _checkValidEpoch.
  destruct (Z.gtb_spec epoch (number (loadCurrentEpoch this))); [lia|].
  reflexivity.
Qed.

Lemma unsealed_is_row (s : Store) (e : Epoch) :
  In e (unsealedEpochs s) -> In e (Epochs s).
Proof. unfold unsealedEpochs. intros H. now apply filter_In in H. Qed.

Lemma row_below_current (this : Synchronizer) (e : Epoch) :
  In e (Epochs (_db this)) -> number e <= number (loadCurrentEpoch this).
Proof.
  intros H. pose proof (loadCurrentEpoch_max this) as M.
  destruct (Epochs (_db this)); [contradiction | now apply M].
Qed.

(** X5: [setup] leaves the store as it is and throws only on more than one
    unsealed epoch.  With one unsealed epoch, the tree it rebuilds in memory
    is the tree [genGSTree] computes for that epoch afterwards; with none, it
    is the empty tree. *)
Theorem setup_rebuilds_tree (this : Synchronizer) :
  (List.length (unsealedEpochs (_db this)) <= 1)%nat ->
  exists this' t,
    setup this = Ok this'
    /\ _db this' = _db this
    /\ settings this' = unirepContract
    /\ _globalStateTree this' = Some t
    /\ match unsealedEpochs (_db this) with
       | [] => t = newIncrementalMerkleTree
                     (globalStateTreeDepth unirepContract)
                     (_defaultGSTLeaf this')
       | e :: _ => forall c, genGSTree this' (number e) c = Ok (t, c)
       end.
Proof.
  intros H. unfold setup, findMany. fold (unsealedEpochs (_db this)).
  destruct (Nat.ltb_spec 1 (List.length (unsealedEpochs (_db this))));
    [lia|].
  eexists. eexists. split; [reflexivity|]. cbn [_db settings _globalStateTree].
  split; [reflexivity|]. split; [reflexivity|]. split; [reflexivity|].
  destruct (unsealedEpochs (_db this)) as [|e l] eqn:U; [reflexivity|].
  intros c. rewrite genGSTree_run; [reflexivity|].
  apply (@row_below_current
           {| _db := _db this; settings := unirepContract;
              _globalStateTree := _globalStateTree this;
              _defaultGSTLeaf := _defaultGSTLeaf this |} e).
  apply unsealed_is_row. cbn [_db]. rewrite U. now left.
Qed.

End CurrentEpoch.

(** ** What the tree handlers commit *)

Section TreeHandlers.

Context {prover : Prover} {crypto : Crypto} {deployment : Deployment}.

Lemma userSignedUp_outcome (this : Synchronizer) (event : Event)
  (epoch idCommitment attesterId airdrop : Z) (c : Ctx) :
  run this (userSignedUpEvent this event epoch idCommitment attesterId airdrop)
  = Ok (tt, c) ->
  let leaf :=
    hashLeftRight idCommitment
      (computeInitUserStateRoot (userStateTreeDepth unirepContract)
         attesterId airdrop) in
  epoch = number (loadCurrentEpoch this)
  /\ exists t,
      _globalStateTree this = Some t
      /\ tree c = Some (imt_insert t leaf)
      /\ tx c = [CreateGSTLeaf
                   {| gl_epoch := epoch;
                      gl_transactionHash := transactionHash event;
                      gl_hash := leaf;
                      gl_index := count (fun l => gl_epoch l =? epoch)
                                    (GSTLeaves (_db this)) |};
                 CreateGSTRoot
                   {| gr_epoch := epoch;
                      gr_root := imt_root (imt_insert t leaf) |}].
Proof.
  unfold userSignedUpEvent, run, bind, _checkCurrentEpoch, globalStateTree.
  destruct (Z.eqb_spec epoch (number (loadCurrentEpoch this))) as [E|E];
    cbn; [|discriminate].
  destruct (_globalStateTree this) as [t|]; cbn; [|discriminate].
  intros H. injection H as <-. cbn. split; [exact E|].
  exists t. repeat split.
Qed.

Lemma confirmedDuplicate_find (s : Store) (ns : list Z) :
  confirmedDuplicate s ns
  = match findOne (nullifier_in ns true) (Nullifiers s) with
    | Some _ => true
    | None => false
    end.
Proof. unfold confirmedDuplicate, findOne. symmetry. apply find_existsb. Qed.

Lemma for_of_reads {A} (xs : list A) (body : A -> M bool) :
  (forall x, within unchanged (body x)) -> within unchanged (for_of xs body).
Proof.
  intros H.
  apply (@within_for_of _ _ (@unchanged_refl _) (@unchanged_trans _)).
  exact H.
Qed.

(** A user-state transition that returns has either queued nothing or
    passed every check and queued its four writes. *)
Lemma USTEvent_outcome (this : Synchronizer) (event : Event)
  (epoch leaf proofIndex : Z) (c : Ctx) :
  run this (USTEvent this event epoch leaf proofIndex) = Ok (tt, c) ->
  (tx c = [] /\ tree c = _globalStateTree this)
  \/ exists transitionProof publicSignals t,
      findOne (fun p => (pf_index p =? proofIndex)
                        && ProofEvent_eqb (pf_event p)
                             IndexedUserStateTransitionProof)
        (Proofs (_db this)) = Some transitionProof
      /\ pf_publicSignals transitionProof = Some publicSignals
      /\ let epk :=
           nonZero (epkNullifiers
                      (decodeUserTransitionProof numEpkNullifiers
                         numBlindedHashChains publicSignals)) in
         confirmedDuplicate (_db this) epk = false
         /\ _globalStateTree this = Some t
         /\ tree c = Some (imt_insert t leaf)
         /\ tx c = [DeleteNullifiers epk false;
                    CreateNullifiers (newNullifiers epoch epk);
                    CreateGSTLeaf
                      {| gl_epoch := epoch;
                         gl_transactionHash := transactionHash event;
                         gl_hash := leaf;
                         gl_index := count (fun l => gl_epoch l =? epoch)
                                       (GSTLeaves (_db this)) |};
                    CreateGSTRoot
                      {| gr_epoch := epoch;
                         gr_root := imt_root (imt_insert t leaf) |}].
Proof.
  unfold USTEvent, run.
  set (c0 := {| tree := _globalStateTree this; tx := []; console := [] |}).
  destruct (findOne _ (Proofs (_db this))) as [tp|] eqn:Ftp; [|discriminate].
  destruct (negb (pf_valid tp) || _) eqn:V.
  { intros H. injection H as <-. now left. }
  destruct (pf_proofIndexRecords tp) as [records|]; [|discriminate].
  match goal with
  | |- match ?x with _ => _ end c0 = _ -> _ => destruct x as [stp|]
  end; [|discriminate].
  destruct (negb (pf_valid stp)).
  { destruct (pf_proofIndexRecords stp); [|discriminate].
    intros H. injection H as <-. now left. }
  destruct (opt_neq _ _ || opt_neq _ _).
  { intros H. injection H as <-. now left. }
  unfold bind.
  destruct (checkProcessedAttestations this (tl records) _ c0)
    as [[go c1]|e] eqn:E1; [|discriminate].
  destruct (checkProcessedAttestations_reads _ _ _ _ E1) as [T1 R1].
  destruct go; cbn [negb].
  2:{ intros H. injection H as <-. left. now rewrite T1, R1. }
  destruct (pf_publicSignals tp) as [signals|] eqn:Sg; [|discriminate].
  destruct (for_of _ _ c1) as [[go c2]|e] eqn:E2; [|discriminate].
  assert (U2 : unchanged c1 c2).
  { eapply for_of_reads; [|exact E2]. intros x.
    apply checkBlindedHashChain_reads. }
  destruct U2 as [T2 R2].
  destruct go; cbn [negb].
  2:{ intros H. injection H as <-. left. now rewrite T2, R2, T1, R1. }
  unfold applyTransition.
  destruct (transitionFromEpoch _) as [fromEpoch|]; [|discriminate].
  destruct (fromGlobalStateTree _) as [gstRoot|]; [|discriminate].
  destruct (fromEpochTree _) as [epochTreeRoot|]; [|discriminate].
  unfold bind, _checkValidEpoch.
  destruct (fromEpoch >? _); [discriminate|]. cbn [ret].
  assert (Log : forall msg (c' : Ctx),
             console_log msg c2 = Ok (tt, c') ->
             tx c' = [] /\ tree c' = _globalStateTree this).
  { intros msg c' H. injection H as <-. cbn. now rewrite T2, R2, T1, R1. }
  destruct (findOne _ (GSTRoots _)); [|intros H; left; exact (Log _ _ H)].
  destruct (findOne _ (Epochs _)); [|intros H; left; exact (Log _ _ H)].
  destruct (findOne (nullifier_in _ true) _) eqn:Dup;
    [intros H; left; exact (Log _ _ H)|].
  unfold queue, globalStateTree, set_tree. cbn.
  rewrite R2, R1. cbn.
  destruct (_globalStateTree this) as [t|] eqn:Tr; [|discriminate].
  intros H. injection H as <-. cbn. right.
  exists tp, signals, t. split; [reflexivity|]. split; [exact Sg|].
  rewrite T2, T1. cbn.
  split; [|repeat split].
  change (confirmedDuplicate (_db this)
            (nonZero (epkNullifiers
                        (decodeUserTransitionProof numEpkNullifiers
                           numBlindedHashChains signals))) = false).
  rewrite confirmedDuplicate_find. now rewrite Dup.
Qed.

End TreeHandlers.

(** ** Invariants of the global state tree tables *)

Unset Implicit Arguments.

Section TreeInvariants.

Context {prover : Prover} {crypto : Crypto} {deployment : Deployment}.

Lemma transaction_outside (this this' : Synchronizer) (event : Event)
  (t : Table) :
  transaction this event = Ok this' ->
  existsb (Table_eqb t) (writeSet (log event)) = false ->
  t <> TSynchronizerState ->
  sameTable t (_db this) (_db this').
Proof.
  intros T Ht Hn.
  destruct (@transaction_ops _ _ _ this this' event T)
    as [handler [c [ops [_ [_ [_ [Hops [Hdb _]]]]]]]].
  rewrite Hdb. apply writes_same_table.
  rewrite forallb_app.
  rewrite (@outside_tables (writeSet (log event)) t ops Ht Hops). simpl.
  destruct t; try reflexivity. contradiction.
Qed.

Lemma transaction_signup (this this' : Synchronizer) (event : Event)
  (epoch idCommitment attesterId airdrop : Z) :
  log event = UserSignedUp epoch idCommitment attesterId airdrop ->
  transaction this event = Ok this' ->
  exists c,
    run this
      (userSignedUpEvent this event epoch idCommitment attesterId airdrop)
    = Ok (tt, c)
    /\ _db this' = writes (_db this)
                     (tx c ++ [UpdateLatestProcessed (blockNumber event)
                                 (transactionIndex event) (logIndex event)])
    /\ _globalStateTree this' = tree c.
Proof.
  intros L T.
  destruct (@transaction_ops _ _ _ this this' event T)
    as [handler [c [ops [Hh [Hr [Htx [_ [Hdb [Ht _]]]]]]]]].
  unfold topicHandlers in Hh. rewrite L in Hh. injection Hh as <-.
  exists c. rewrite Htx. auto.
Qed.

Lemma transaction_UST (this this' : Synchronizer) (event : Event)
  (epoch leaf proofIndex : Z) :
  log event = UserStateTransitioned epoch leaf proofIndex ->
  transaction this event = Ok this' ->
  exists c,
    run this (USTEvent this event epoch leaf proofIndex) = Ok (tt, c)
    /\ _db this' = writes (_db this)
                     (tx c ++ [UpdateLatestProcessed (blockNumber event)
                                 (transactionIndex event) (logIndex event)])
    /\ _globalStateTree this' = tree c.
Proof.
  intros L T.
  destruct (@transaction_ops _ _ _ this this' event T)
    as [handler [c [ops [Hh [Hr [Htx [_ [Hdb [Ht _]]]]]]]]].
  unfold topicHandlers in Hh. rewrite L in Hh. injection Hh as <-.
  exists c. rewrite Htx. auto.
Qed.

Lemma dense_snoc (s : Store) (x : GSTLeaf) :
  denseLeaves s ->
  gl_index x = count (fun l => gl_epoch l =? gl_epoch x) (GSTLeaves s) ->
  forall s', GSTLeaves s' = (GSTLeaves s ++ [x])%list -> denseLeaves s'.
Proof.
  intros D Hx s' E epoch. rewrite E, filter_app. simpl.
  specialize (D epoch). simpl in D.
  destruct (Z.eqb_spec (gl_epoch x) epoch) as [Ee|Ee].
  - subst epoch. rewrite map_app, length_app, D. simpl.
    rewrite Nat.add_1_r, seq_S, map_app. simpl.
    now rewrite Hx.
  - now rewrite app_nil_r.
Qed.

Lemma dense_same (s s' : Store) :
  denseLeaves s -> GSTLeaves s' = GSTLeaves s -> denseLeaves s'.
Proof. intros D E epoch. rewrite E. apply D. Qed.

(** X6: the indices of the GSTLeaf rows stay dense: when the leaves of every
    epoch carry the indices 0, 1, 2, ... in insertion order, they still do
    after any committed transaction; a sign-up or a transition appends its
    leaf with the next index of its epoch, no other handler touches the
    table. *)
Theorem leaf_indices_dense (this this' : Synchronizer) (event : Event) :
  denseLeaves (_db this) ->
  transaction this event = Ok this' ->
  denseLeaves (_db this').
Proof.
  intros D T.
  destruct (log event) eqn:L;
    try (apply (dense_same _ _ D);
         apply (transaction_outside this this' event TGSTLeaf T);
         [rewrite L; reflexivity | discriminate]).
  - (* sign-up *)
    destruct (transaction_signup _ _ _ _ _ _ _ L T) as [c [R [Hdb _]]].
    destruct (userSignedUp_outcome _ _ _ _ _ _ R) as [_ [t [_ [_ Htx]]]].
    rewrite Htx in Hdb.
    eapply dense_snoc; [exact D | | rewrite Hdb; reflexivity]. reflexivity.
  - (* transition *)
    destruct (transaction_UST _ _ _ _ _ _ L T) as [c [R [Hdb _]]].
    destruct (USTEvent_outcome _ _ _ _ _ R)
      as [[Htx _]|[tp [sg [t [_ [_ [_ [_ [_ Htx]]]]]]]]];
      rewrite Htx in Hdb.
    + apply (dense_same _ _ D). rewrite Hdb. reflexivity.
    + eapply dense_snoc; [exact D | | rewrite Hdb; reflexivity]. reflexivity.
Qed.

Lemma loadCurrentEpoch_ext (a b : Synchronizer) :
  Epochs (_db a) = Epochs (_db b) -> loadCurrentEpoch a = loadCurrentEpoch b.
Proof. unfold loadCurrentEpoch. now intros ->. Qed.

Lemma existsb_snoc {A} (p : A -> bool) (l : list A) (x : A) :
  p x = true -> existsb p (l ++ [x]) = true.
Proof. intros H. rewrite existsb_app. simpl. rewrite H. apply orb_true_r. Qed.

(** X7: a committed sign-up can be read back: the leaf
    [H(idCommitment, initial user state root)] is the last GSTLeaf row, with
    the number of leaves the epoch had as its index; [getNumGSTLeaves] of the
    epoch is one more than before; and the root of the in-memory tree is
    stored for the epoch: [GSTRootExists] finds it. *)
Theorem signup_reads_back (this this' : Synchronizer) (event : Event)
  (epoch idCommitment attesterId airdrop : Z) :
  log event = UserSignedUp epoch idCommitment attesterId airdrop ->
  transaction this event = Ok this' ->
  let leaf :=
    hashLeftRight idCommitment
      (computeInitUserStateRoot (userStateTreeDepth unirepContract)
         attesterId airdrop) in
  exists t,
    _globalStateTree this = Some t
    /\ _globalStateTree this' = Some (imt_insert t leaf)
    /\ GSTLeaves (_db this')
       = (GSTLeaves (_db this)
          ++ [ {| gl_epoch := epoch;
                  gl_transactionHash := transactionHash event;
                  gl_hash := leaf;
                  gl_index := count (fun l => gl_epoch l =? epoch)
                                (GSTLeaves (_db this)) |} ])%list
    /\ forall c,
        getNumGSTLeaves this' epoch c
        = Ok (count (fun l => gl_epoch l =? epoch) (GSTLeaves (_db this)) + 1,
              c)
        /\ GSTRootExists this' (imt_root (imt_insert t leaf)) epoch c
           = Ok (true, c).
Proof.
  intros L T leaf.
  destruct (transaction_signup _ _ _ _ _ _ _ L T) as [c0 [R [Hdb Htree]]].
  destruct (userSignedUp_outcome _ _ _ _ _ _ R) as [Hcur [t [Ht [Hc Htx]]]].
  fold leaf in Hc, Htx. rewrite Htx in Hdb.
  exists t. split; [exact Ht|]. split; [now rewrite Htree|].
  split; [rewrite Hdb; reflexivity|].
  assert (Hep : Epochs (_db this') = Epochs (_db this))
    by (rewrite Hdb; reflexivity).
  assert (Hcur' : (epoch >? number (loadCurrentEpoch this')) = false).
  { rewrite (loadCurrentEpoch_ext this' this Hep), <- Hcur.
    rewrite Z.gtb_ltb. apply Z.ltb_irrefl. }
  intros c. split.
  - unfold getNumGSTLeaves, bind, _checkValidEpoch. rewrite Hcur'. cbn.
    rewrite Hdb. cbn. unfold count. rewrite filter_app, length_app. cbn.
    rewrite Z.eqb_refl. cbn. unfold ret. rewrite Nat2Z.inj_add. reflexivity.
  - rewrite GSTRootExists_run, Hcur'. f_equal. f_equal.
    unfold rootExists. rewrite Hdb. cbn. apply existsb_snoc. cbn.
    now rewrite !Z.eqb_refl.
Qed.

End TreeInvariants.

(** ** Nullifiers *)

Section NullifierInvariants.

Context {prover : Prover} {crypto : Crypto} {deployment : Deployment}.

Lemma reputation_outcome (this : Synchronizer) (event : Event) (i e : Z)
  (args : ReputationProofArgs) (c : Ctx) :
  run this (reputationProofEvent this event i e args) = Ok (tt, c) ->
  let reps := nonZero (rp_repNullifiers args) in
  exists row,
    (confirmedDuplicate (_db this) reps = true /\ tx c = [CreateProof row])
    \/ (confirmedDuplicate (_db this) reps = false
        /\ tx c = [DeleteNullifiers reps false;
                   CreateNullifiers (newNullifiers e reps);
                   CreateProof row]).
Proof.
  unfold reputationProofEvent, run, bind. rewrite GSTRootExists_run.
  destruct (e >? number (loadCurrentEpoch this)); [discriminate|].
  intros H. cbv zeta. set (reps := nonZero (rp_repNullifiers args)) in *.
  rewrite confirmedDuplicate_find.
  destruct (findOne (nullifier_in reps true) (Nullifiers (_db this)));
    cbn in H; injection H as <-; cbn; eexists; [left | right];
    split; reflexivity.
Qed.

Lemma transaction_reputation (this this' : Synchronizer) (event : Event)
  (i e : Z) (args : ReputationProofArgs) :
  log event = IndexedReputationProofLog i e args ->
  transaction this event = Ok this' ->
  exists c,
    run this (reputationProofEvent this event i e args) = Ok (tt, c)
    /\ _db this' = writes (_db this)
                     (tx c ++ [UpdateLatestProcessed (blockNumber event)
                                 (transactionIndex event) (logIndex event)]).
Proof.
  intros L T.
  destruct (@transaction_ops _ _ _ this this' event T)
    as [handler [c [ops [Hh [Hr [Htx [_ [Hdb _]]]]]]]].
  unfold topicHandlers in Hh. rewrite L in Hh. injection Hh as <-.
  exists c. rewrite Htx. auto.
Qed.

Lemma confirmedOf_delete (ns : list Z) (l : list Nullifier) :
  confirmedOf (delete_where (nullifier_in ns false) l) = confirmedOf l.
Proof.
  unfold confirmedOf, delete_where.
  induction l as [|r l IH]; simpl; [reflexivity|].
  unfold nullifier_in at 1.
  destruct (nf_confirmed r) as [[|]|] eqn:C; simpl;
    rewrite ?andb_false_r, ?andb_true_r; simpl; rewrite ?C; simpl.
  - now rewrite IH.
  - destruct (Z_in (nf_nullifier r) ns); simpl; rewrite ?C; simpl; exact IH.
  - exact IH.
Qed.

Lemma confirmedOf_new (e : Z) (ns : list Z) :
  confirmedOf (newNullifiers e ns)
  = if flag_is confirmedDefault true then ns else [].
Proof.
  unfold confirmedOf, newNullifiers.
  induction ns as [|n ns IH]; simpl; [now destruct (flag_is _ _)|].
  destruct (flag_is confirmedDefault true); simpl; [now rewrite IH | exact IH].
Qed.

Lemma Z_in_In (x : Z) (l : list Z) : Z_in x l = true <-> In x l.
Proof.
  unfold Z_in. rewrite existsb_exists. split.
  - intros [y [Hy E]]. apply Z.eqb_eq in E. now subst.
  - intros H. exists x. split; [exact H | apply Z.eqb_refl].
Qed.

Lemma NoDup_append {A} (l r : list A) :
  NoDup l -> NoDup r -> (forall x, In x l -> ~ In x r) -> NoDup (l ++ r).
Proof.
  induction l as [|x l IH]; simpl; intros Hl Hr D; [exact Hr|].
  inversion Hl as [|? ? Hx Hl']; subst. constructor.
  - intros H. apply in_app_or in H. destruct H as [H|H]; [contradiction|].
    apply (D x); auto.
  - apply IH; auto.
Qed.

Lemma nullifier_step (e : Z) (ns : list Z) (l : list Nullifier) :
  NoDup (confirmedOf l) ->
  existsb (nullifier_in ns true) l = false ->
  NoDup ns ->
  NoDup (confirmedOf (delete_where (nullifier_in ns false) l
                      ++ newNullifiers e ns)).
Proof.
  intros Hl Hd Hn. unfold confirmedOf at 1. rewrite filter_app, map_app.
  fold (confirmedOf (delete_where (nullifier_in ns false) l)).
  fold (confirmedOf (newNullifiers e ns)).
  rewrite confirmedOf_delete, confirmedOf_new.
  destruct (flag_is confirmedDefault true); [|now rewrite app_nil_r].
  apply NoDup_append; auto.
  intros x Hx Hns. unfold confirmedOf in Hx. apply in_map_iff in Hx.
  destruct Hx as [r [<- Hr]]. apply filter_In in Hr. destruct Hr as [Hr Hc].
  assert (F : existsb (nullifier_in ns true) l = true).
  { apply existsb_exists. exists r. split; [exact Hr|].
    unfold nullifier_in. rewrite Hc, andb_true_r. now apply Z_in_In. }
  congruence.
Qed.

(** X8: confirmed nullifiers stay unique: when no two confirmed Nullifier
    rows hold one nullifier, this is still so after any committed
    transaction, provided the non-zero nullifiers that a reputation proof or
    the transition proof of a user-state transition lists are pairwise
    distinct. *)
Theorem confirmed_nullifiers_stay_unique (this this' : Synchronizer)
  (event : Event) :
  uniqueConfirmed (_db this) ->
  transaction this event = Ok this' ->
  (forall i e args,
      log event = IndexedReputationProofLog i e args ->
      NoDup (nonZero (rp_repNullifiers args))) ->
  (forall epoch leaf proofIndex transitionProof publicSignals,
      log event = UserStateTransitioned epoch leaf proofIndex ->
      findOne (fun p => (pf_index p =? proofIndex)
                        && ProofEvent_eqb (pf_event p)
                             IndexedUserStateTransitionProof)
        (Proofs (_db this)) = Some transitionProof ->
      pf_publicSignals transitionProof = Some publicSignals ->
      NoDup (nonZero (epkNullifiers
                        (decodeUserTransitionProof numEpkNullifiers
                           numBlindedHashChains publicSignals)))) ->
  uniqueConfirmed (_db this').
Proof.
  intros U T Hrep Hust. unfold uniqueConfirmed in *.
  fold (confirmedOf (Nullifiers (_db this))) in U.
  fold (confirmedOf (Nullifiers (_db this'))).
  destruct (log event) eqn:L;
    try (replace (Nullifiers (_db this')) with (Nullifiers (_db this));
         [exact U
         | symmetry;
           apply (transaction_outside this this' event TNullifier T);
           [rewrite L; reflexivity | discriminate]]).
  - (* transition *)
    destruct (transaction_UST _ _ _ _ _ _ L T) as [c [R [Hdb _]]].
    destruct (USTEvent_outcome _ _ _ _ _ R)
      as [[Htx _]|[tp [sg [t [Ftp [Sg [D [_ [_ Htx]]]]]]]]];
      rewrite Htx in Hdb; rewrite Hdb; cbn; [exact U|].
    apply nullifier_step; [exact U | exact D |].
    exact (Hust _ _ _ _ _ eq_refl Ftp Sg).
  - (* reputation proof *)
    destruct (transaction_reputation _ _ _ _ _ _ L T) as [c [R Hdb]].
    destruct (reputation_outcome _ _ _ _ _ _ R) as [row [[_ Htx]|[D Htx]]];
      rewrite Htx in Hdb; rewrite Hdb; cbn; [exact U|].
    apply nullifier_step; [exact U | exact D |].
    exact (Hrep _ _ _ eq_refl).
Qed.

Lemma find_snoc_some {A} (p : A -> bool) (l : list A) (x y : A) :
  find p l = Some y -> find p (l ++ [x]) = Some y.
Proof.
  induction l as [|z l IH]; simpl; [discriminate|].
  destruct (p z); [trivial | exact IH].
Qed.

Lemma find_update_spent (q w : Proof -> bool) (l : list Proof) (p : Proof) :
  (forall r, q (set_spent r) = q r) ->
  find q l = Some p ->
  exists p', find q (update_where w set_spent l) = Some p'
             /\ pf_publicSignals p' = pf_publicSignals p.
Proof.
  intros Hq. unfold update_where.
  induction l as [|z l IH]; simpl; [discriminate|].
  destruct (w z); rewrite ?Hq; destruct (q z); try exact IH;
    intros H; injection H as <-; eexists; split; reflexivity.
Qed.

(** No write takes a stored transition proof away, or changes its signals. *)
Lemma writes_keep_signals (proofIndex : Z) (publicSignals : list Z)
  (ops : list Op) :
  forall s,
    (exists p,
        findOne (fun p => (pf_index p =? proofIndex)
                          && ProofEvent_eqb (pf_event p)
                               IndexedUserStateTransitionProof)
          (Proofs s) = Some p
        /\ pf_publicSignals p = Some publicSignals) ->
    exists p,
      findOne (fun p => (pf_index p =? proofIndex)
                        && ProofEvent_eqb (pf_event p)
                             IndexedUserStateTransitionProof)
        (Proofs (writes s ops)) = Some p
      /\ pf_publicSignals p = Some publicSignals.
Proof.
  unfold writes, findOne.
  induction ops as [|op ops IH]; simpl; intros s H; [exact H|].
  apply IH. destruct H as [p [F Sg]].
  destruct op; simpl; try (exists p; now split).
  - exists p. split; [now apply find_snoc_some | exact Sg].
  - destruct (find_update_spent
                (fun p0 => (pf_index p0 =? proofIndex)
                           && ProofEvent_eqb (pf_event p0)
                                IndexedUserStateTransitionProof)
                (proof_at epoch index) (Proofs s) p
                (fun r => eq_refl) F) as [p' [F' Sg']].
    exists p'. split; [exact F' | congruence].
Qed.

Lemma confirmed_kept (epk ns : list Z) (new l : list Nullifier) :
  existsb (nullifier_in epk true) l = true ->
  existsb (nullifier_in epk true)
    (delete_where (nullifier_in ns false) l ++ new) = true.
Proof.
  intros H. rewrite existsb_app. apply orb_true_iff. left.
  apply existsb_exists in H. destruct H as [r [Hr Hn]].
  apply existsb_exists. exists r. split; [|exact Hn].
  unfold delete_where. apply filter_In. split; [exact Hr|].
  unfold nullifier_in in *. apply andb_true_iff in Hn. destruct Hn as [_ Hc].
  destruct (nf_confirmed r) as [[|]|]; try discriminate.
  simpl. now rewrite andb_false_r.
Qed.

(** A committed transaction leaves a taken transition taken. *)
Lemma transaction_keeps_taken (this this' : Synchronizer) (event : Event)
  (proofIndex : Z) (publicSignals epk : list Z) :
  transitionTaken (_db this) proofIndex publicSignals epk ->
  transaction this event = Ok this' ->
  transitionTaken (_db this') proofIndex publicSignals epk.
Proof.
  intros [Hp Hd] T. split.
  - destruct (@transaction_ops _ _ _ this this' event T)
      as [handler [c [ops [_ [_ [_ [_ [Hdb _]]]]]]]].
    rewrite Hdb. now apply writes_keep_signals.
  - unfold confirmedDuplicate in *.
    destruct (log event) eqn:L;
      try (replace (Nullifiers (_db this')) with (Nullifiers (_db this));
           [exact Hd
           | symmetry;
             apply (transaction_outside this this' event TNullifier T);
             [rewrite L; reflexivity | discriminate]]).
    + destruct (transaction_UST _ _ _ _ _ _ L T) as [c [R [Hdb _]]].
      destruct (USTEvent_outcome _ _ _ _ _ R)
        as [[Htx _]|[tp [sg [t [_ [_ [_ [_ [_ Htx]]]]]]]]];
        rewrite Htx in Hdb; rewrite Hdb; cbn; [exact Hd|].
      now apply confirmed_kept.
    + destruct (transaction_reputation _ _ _ _ _ _ L T) as [c [R Hdb]].
      destruct (reputation_outcome _ _ _ _ _ _ R) as [row [[_ Htx]|[_ Htx]]];
        rewrite Htx in Hdb; rewrite Hdb; cbn; [exact Hd|].
      now apply confirmed_kept.
Qed.

Lemma committed_keep_taken (proofIndex : Z) (publicSignals epk : list Z)
  (events : list Event) :
  forall this : Synchronizer,
    transitionTaken (_db this) proofIndex publicSignals epk ->
    Forall (fun st => transitionTaken (_db st) proofIndex publicSignals epk)
      (committed this events).
Proof.
  induction events as [|e events IH]; intros this H; simpl; [constructor|].
  destruct (transaction this e) as [this'|err] eqn:T; [|constructor].
  pose proof (transaction_keeps_taken _ _ _ _ _ _ H T) as H'.
  constructor; [exact H' | now apply IH].
Qed.

(** X9: a transition cannot be taken twice: once a user-state transition
    whose proof lists a non-zero epoch-key nullifier has been accepted (its
    leaf was inserted) in a store whose schema confirms new nullifiers, every
    later UserStateTransitioned event for the same proof index -- right after
    the commit or after any further committed transactions -- queues no write
    and leaves the in-memory tree alone. *)
Theorem transition_not_replayed (this this' : Synchronizer) (event : Event)
  (epoch leaf proofIndex : Z) (transitionProof : Proof)
  (publicSignals : list Z) :
  log event = UserStateTransitioned epoch leaf proofIndex ->
  transaction this event = Ok this' ->
  GSTLeaves (_db this') <> GSTLeaves (_db this) ->
  confirmedDefault = Some true ->
  findOne (fun p => (pf_index p =? proofIndex)
                    && ProofEvent_eqb (pf_event p)
                         IndexedUserStateTransitionProof)
    (Proofs (_db this)) = Some transitionProof ->
  pf_publicSignals transitionProof = Some publicSignals ->
  nonZero (epkNullifiers
             (decodeUserTransitionProof numEpkNullifiers numBlindedHashChains
                publicSignals)) <> [] ->
  forall events later,
    later = this' \/ In later (committed this' events) ->
    forall event2 epoch2 leaf2 c,
      run later (USTEvent later event2 epoch2 leaf2 proofIndex) = Ok (tt, c) ->
      tx c = [] /\ tree c = _globalStateTree later.
Proof.
  intros L T Hleaf Hdef Ftp Sg Hne events later Hlater event2 epoch2 leaf2 c
    R2.
  destruct (transaction_UST _ _ _ _ _ _ L T) as [c1 [R [Hdb _]]].
  destruct (USTEvent_outcome _ _ _ _ _ R)
    as [[Htx _]|[tp [sg [t [Ftp' [Sg' [D [_ [_ Htx]]]]]]]]];
    rewrite Htx in Hdb.
  { exfalso. apply Hleaf. rewrite Hdb. reflexivity. }
  rewrite Ftp in Ftp'. injection Ftp' as <-.
  rewrite Sg in Sg'. injection Sg' as <-.
  set (epk := nonZero (epkNullifiers
                         (decodeUserTransitionProof numEpkNullifiers
                            numBlindedHashChains publicSignals))) in *.
  assert (Hp : Proofs (_db this') = Proofs (_db this))
    by (rewrite Hdb; reflexivity).
  assert (Hn : Nullifiers (_db this')
               = (delete_where (nullifier_in epk false)
                    (Nullifiers (_db this))
                  ++ newNullifiers epoch epk)%list)
    by (rewrite Hdb; reflexivity).
  assert (Taken : transitionTaken (_db this') proofIndex publicSignals epk).
  { split.
    - exists transitionProof. rewrite Hp. now split.
    - unfold confirmedDuplicate. rewrite Hn, existsb_app.
      apply orb_true_iff. right.
      destruct epk as [|x epk'] eqn:E; [contradiction|].
      simpl. apply orb_true_iff. left.
      unfold nullifier_in. simpl. rewrite Hdef. simpl.
      now rewrite Z.eqb_refl. }
  assert (Later : transitionTaken (_db later) proofIndex publicSignals epk).
  { destruct Hlater as [->|Hin]; [exact Taken|].
    pose proof (committed_keep_taken proofIndex publicSignals epk events
                  this' Taken) as F.
    rewrite Forall_forall in F. now apply F. }
  destruct Later as [[p [Fp Sp]] Dup].
  exact (@USTEvent_duplicate _ _ later event2 epoch2 leaf2 proofIndex
           p publicSignals Fp Sp Dup _ _ _ R2).
Qed.

End NullifierInvariants.

(** ** Attestations and epoch keys *)

Section EpochKeys.

Context {prover : Prover} {crypto : Crypto} {deployment : Deployment}.

(** The writes of an attestation that returns, case by case. *)
Lemma attestation_outcome (this : Synchronizer) (event : Event)
  (_epoch _epochKey : Z) (_attester : string) (toProofIndex fromProofIndex : Z)
  (att : AttestationArgs) (c : Ctx) :
  run this (attestationEvent this event _epoch _epochKey _attester
              toProofIndex fromProofIndex att) = Ok (tt, c) ->
  let new := newAttestation event _epoch _epochKey _attester toProofIndex att in
  let w o := {| w_epoch := _epoch; w_epochKey := _epochKey;
                w_proofIndex := o |} in
  _epoch = number (loadCurrentEpoch this)
  /\ _epochKey < 2 ^ epochTreeDepth (settings this)
  /\ (tx c = [CreateAttestation new;
              UpdateAttestationValid (w (Some toProofIndex)) false]
      \/ tx c = [CreateAttestation new;
                 UpdateAttestationValid (w (Some fromProofIndex)) false]
      \/ tx c = [CreateAttestation new;
                 UpdateAttestationValid (w None) true;
                 UpsertEpochKey _epoch _epochKey]
      \/ tx c = [CreateAttestation new;
                 UpdateProofSpent _epoch fromProofIndex;
                 UpdateAttestationValid (w None) true;
                 UpsertEpochKey _epoch _epochKey]).
Proof.
  unfold attestationEvent, run, bind.
  unfold _checkCurrentEpoch at 1.
  destruct (Z.eqb_spec _epoch (number (loadCurrentEpoch this))) as [E|E];
    cbn [negb]; [|discriminate].
  unfold _checkEpochKeyRange at 1.
  destruct (Z.geb_spec _epochKey (2 ^ epochTreeDepth (settings this)));
    [discriminate|].
  cbn [ret].
  destruct (isEpochKeySealed_check this _epoch _epochKey) as [C3|[e3 C3]];
    rewrite !C3; [|discriminate].
  cbn.
  destruct (findOne (proof_at _epoch toProofIndex) _) as [vp|];
    [|discriminate].
  destruct (pf_valid vp); cbn.
  - destruct (fromProofIndex =? 0); cbn.
    + intros Hrun. injection Hrun as <-. cbn. repeat split; auto; lia.
    + destruct (findOne (proof_at _epoch fromProofIndex) _) as [fp|];
        [|discriminate].
      destruct (negb (pf_valid fp) || truthy (pf_spent fp)); cbn;
        intros Hrun; injection Hrun as <-; cbn; repeat split; auto; lia.
  - intros Hrun. injection Hrun as <-. cbn. repeat split; auto; lia.
Qed.

Lemma transaction_attestation (this this' : Synchronizer) (event : Event)
  (lg : bool) (_epoch _epochKey : Z) (_attester : string)
  (toProofIndex fromProofIndex : Z) (att : AttestationArgs) :
  log event = AttestationSubmitted lg _epoch _epochKey _attester toProofIndex
                fromProofIndex att ->
  transaction this event = Ok this' ->
  exists c,
    run this (attestationEvent this event _epoch _epochKey _attester
                toProofIndex fromProofIndex att) = Ok (tt, c)
    /\ _db this' = writes (_db this)
                     (tx c ++ [UpdateLatestProcessed (blockNumber event)
                                 (transactionIndex event) (logIndex event)])
    /\ settings this' = settings this.
Proof.
  intros L T.
  destruct (@transaction_ops _ _ _ this this' event T)
    as [handler [c [ops [Hh [Hr [Htx [_ [Hdb [_ [Hs _]]]]]]]]]].
  unfold topicHandlers in Hh. rewrite L in Hh. injection Hh as <-.
  exists c. rewrite Htx. auto.
Qed.

Lemma upsert_keep {A} (w : A -> bool) (new : A) (l : list A) :
  upsert w (fun r => r) new l
  = if existsb w l then l else (l ++ [new])%list.
Proof.
  unfold upsert, update_where. destruct (existsb w l); [|reflexivity].
  rewrite <- (map_id l) at 2. apply map_ext. intros r. now destruct (w r).
Qed.

Lemma epochKeys_upsert (e k : Z) (l : list EpochKey) :
  NoDup (map (fun r => (ek_epoch r, ek_key r)) l) ->
  NoDup (map (fun r => (ek_epoch r, ek_key r))
           (upsert (fun r => (ek_epoch r =? e) && (ek_key r =? k))
              (fun r => r) {| ek_epoch := e; ek_key := k |} l)).
Proof.
  intros H. rewrite upsert_keep.
  destruct (existsb _ l) eqn:Ex; [exact H|].
  rewrite map_app. apply NoDup_append; [exact H | repeat constructor; auto |].
  intros p Hp [<-|[]]. apply in_map_iff in Hp. destruct Hp as [r [Hr Hin]].
  injection Hr as He Hk.
  assert (F : existsb (fun r => (ek_epoch r =? e) && (ek_key r =? k)) l = true).
  { apply existsb_exists. exists r. split; [exact Hin|].
    now rewrite He, Hk, !Z.eqb_refl. }
  congruence.
Qed.

Lemma epochKeys_upsert_in (e k : Z) (l : list EpochKey) (r : EpochKey) :
  In r (upsert (fun r => (ek_epoch r =? e) && (ek_key r =? k))
          (fun r => r) {| ek_epoch := e; ek_key := k |} l) ->
  In r l \/ r = {| ek_epoch := e; ek_key := k |}.
Proof.
  rewrite upsert_keep. destruct (existsb _ l); [now left|].
  intros H. apply in_app_or in H. destruct H as [H|[<-|[]]]; auto.
Qed.

(** X10: the EpochKey table is kept well formed: when no two rows hold one
    epoch and key and every key is below [2 ** epochTreeDepth], this is still
    so after any committed transaction; and in such a store [genEpochTree]
    returns the epoch tree for every epoch that is not ahead of the current
    one: its range check cannot throw. *)
Theorem epoch_keys_well_formed (this this' : Synchronizer) (event : Event) :
  uniqueEpochKeys (_db this) ->
  epochKeysInRange this ->
  transaction this event = Ok this' ->
  uniqueEpochKeys (_db this')
  /\ epochKeysInRange this'
  /\ forall epoch c,
      epoch <= number (loadCurrentEpoch this') ->
      genEpochTree this' epoch c = Ok (epochTreeOf this' epoch, c).
Proof.
  intros U R T.
  assert (H : uniqueEpochKeys (_db this') /\ epochKeysInRange this').
  { destruct (log event) eqn:L;
      try (assert (E : EpochKeys (_db this') = EpochKeys (_db this))
             by (apply (transaction_outside this this' event TEpochKey T);
                 [rewrite L; reflexivity | discriminate]);
           assert (S : settings this' = settings this)
             by (destruct (@transaction_ops _ _ _ this this' event T)
                   as [? [? [? [_ [_ [_ [_ [_ [_ [S _]]]]]]]]]]; exact S);
           unfold uniqueEpochKeys, epochKeysInRange; rewrite E, S;
           split; [exact U | exact R]).
    destruct (transaction_attestation _ _ _ _ _ _ _ _ _ _ L T)
      as [c [Rn [Hdb S]]].
    destruct (attestation_outcome _ _ _ _ _ _ _ _ _ Rn)
      as [_ [Hk [Htx|[Htx|[Htx|Htx]]]]];
      rewrite Htx in Hdb; unfold uniqueEpochKeys, epochKeysInRange;
      rewrite Hdb, S; cbn; try (split; [exact U | exact R]).
    - split; [now apply epochKeys_upsert|].
      intros r Hr. apply epochKeys_upsert_in in Hr.
      destruct Hr as [Hr| ->]; [now apply R | exact Hk].
    - split; [now apply epochKeys_upsert|].
      intros r Hr. apply epochKeys_upsert_in in Hr.
      destruct Hr as [Hr| ->]; [now apply R | exact Hk]. }
  destruct H as [U' R']. split; [exact U'|]. split; [exact R'|].
  intros epoch c He. apply genEpochTree_run; [exact He|].
  intros k Hk _. now apply R'.
Qed.

(** X11: an attestation that is accepted validates the whole epoch key: when
    the row of a committed attestation is persisted valid, every Attestation
    row of its epoch and epoch key is valid afterwards, the rows that were
    marked invalid before included. *)
Theorem accepted_attestation_validates_key (this this' : Synchronizer)
  (event : Event) (lg : bool) (_epoch _epochKey : Z) (_attester : string)
  (toProofIndex fromProofIndex : Z) (att : AttestationArgs) :
  log event = AttestationSubmitted lg _epoch _epochKey _attester toProofIndex
                fromProofIndex att ->
  transaction this event = Ok this' ->
  (exists rows row,
      Attestations (_db this') = (rows ++ [row])%list
      /\ at_valid row = Some true) ->
  forall a, In a (Attestations (_db this')) ->
            at_epoch a = _epoch -> at_epochKey a = _epochKey ->
            at_valid a = Some true.
Proof.
  intros L T [rows [row [Hrows Hvalid]]] a Ha He Hk.
  destruct (transaction_attestation _ _ _ _ _ _ _ _ _ _ L T)
    as [c [Rn [Hdb _]]].
  assert (All : forall l,
             In a (update_where
                     (matchAttestation
                        {| w_epoch := _epoch; w_epochKey := _epochKey;
                           w_proofIndex := None |})
                     (set_valid true) l) ->
             at_valid a = Some true).
  { intros l Hin. unfold update_where in Hin. apply in_map_iff in Hin.
    destruct Hin as [r [Hr _]].
    destruct (matchAttestation _ r) eqn:M; subst a; [reflexivity|].
    unfold matchAttestation in M. cbn in M.
    now rewrite He, Hk, !Z.eqb_refl in M. }
  assert (Last : forall (l : list Attestation) x,
             (l ++ [x])%list = (rows ++ [row])%list -> x = row).
  { intros l x E. apply app_inj_tail in E. tauto. }
  destruct (attestation_outcome _ _ _ _ _ _ _ _ _ Rn)
    as [_ [_ [Htx|[Htx|[Htx|Htx]]]]];
    rewrite Htx in Hdb; rewrite Hdb in Ha, Hrows; cbn in Ha, Hrows.
  - exfalso. unfold update_where in Hrows. rewrite map_app in Hrows.
    cbn in Hrows. apply Last in Hrows. subst row.
    unfold matchAttestation in Hvalid. cbn in Hvalid.
    rewrite !Z.eqb_refl in Hvalid. discriminate.
  - exfalso. unfold update_where in Hrows. rewrite map_app in Hrows.
    cbn in Hrows. apply Last in Hrows. subst row.
    destruct (matchAttestation _ _); discriminate.
  - exact (All _ Ha).
  - exact (All _ Ha).
Qed.

End EpochKeys.

(** ** After an epoch has ended *)

Section AfterEpochEnd.

Context {prover : Prover} {crypto : Crypto} {deployment : Deployment}.

Lemma upsert_sealed_in (e root : Z) (l : list Epoch) (r : Epoch) :
  In r (upsert (fun r => number r =? e) (set_sealed root)
          {| number := e; sealed := true; epochRoot := Some root |} l) ->
  (exists r0, In r0 l /\ number r = number r0) \/ number r = e.
Proof.
  unfold upsert. destruct (existsb _ l).
  - unfold update_where. intros H. apply in_map_iff in H.
    destruct H as [r0 [<- H0]]. left. exists r0. split; [exact H0|].
    now destruct (number r0 =? e).
  - intros H. apply in_app_or in H. destruct H as [H|[<-|[]]].
    + left. now exists r.
    + now right.
Qed.

Lemma upsert_sealed_found (e root : Z) (l : list Epoch) :
  existsb (fun r => (number r =? e) && field_is (epochRoot r) root)
    (upsert (fun r => number r =? e) (set_sealed root)
       {| number := e; sealed := true; epochRoot := Some root |} l) = true.
Proof.
  unfold upsert. destruct (existsb _ l) eqn:Ex.
  - apply existsb_exists in Ex. destruct Ex as [r [Hin Hr]].
    apply existsb_exists. exists (set_sealed root r). split.
    + unfold update_where. apply in_map_iff. exists r. now rewrite Hr.
    + cbn. now rewrite Hr, Z.eqb_refl.
  - apply existsb_snoc. cbn. now rewrite !Z.eqb_refl.
Qed.

(** X12: when the current epoch ends, the store moves on: after the
    committed EpochEnded event of the current epoch [e], the current epoch is
    the unsealed stub [e + 1]; the root written for [e] is found by
    [epochTreeRootExists]; and the handlers of a later sign-up or attestation
    for epoch [e] throw. *)
Theorem epoch_end_moves_on (this this' : Synchronizer) (event : Event)
  (n : N) :
  let e := Z.of_N n in
  log event = EpochEnded n ->
  e = number (loadCurrentEpoch this) ->
  transaction this event = Ok this' ->
  loadCurrentEpoch this' = stubEpoch e
  /\ (exists root, forall c, epochTreeRootExists this' root e c = Ok (true, c))
  /\ (forall event2 idCommitment attesterId airdrop,
         exists err,
           run this' (userSignedUpEvent this' event2 e idCommitment
                        attesterId airdrop) = Throw err)
  /\ (forall event2 epochKey attester toProofIndex fromProofIndex att,
         exists err,
           run this' (attestationEvent this' event2 e epochKey attester
                        toProofIndex fromProofIndex att) = Throw err).
Proof.
  intros e L Hcur T.
  destruct (@transaction_epochEnded _ _ _ this this' event n L T)
    as [_ [_ [root E]]].
  fold e in E.
  assert (Hold : forall r, In r (Epochs (_db this)) -> number r <= e).
  { intros r Hr. rewrite Hcur. now apply row_below_current. }
  assert (Hnew : forall r, In r (Epochs (_db this')) ->
                           number r <= e \/ r = stubEpoch e).
  { intros r Hr. rewrite E in Hr. apply in_app_or in Hr.
    destruct Hr as [Hr|[<-|[]]]; [|now right]. left.
    apply upsert_sealed_in in Hr.
    destruct Hr as [[r0 [H0 Hn]]|Hn]; rewrite Hn; [now apply Hold | lia]. }
  assert (Hstub : In (stubEpoch e) (Epochs (_db this'))).
  { rewrite E. apply in_or_app. right. now left. }
  assert (Hload : loadCurrentEpoch this' = stubEpoch e).
  { pose proof (loadCurrentEpoch_max this') as M.
    destruct (Epochs (_db this')) as [|x l] eqn:Ex; [contradiction|].
    destruct M as [Min Mmax].
    destruct (Hnew _ Min) as [Hle|Heq]; [|exact Heq].
    specialize (Mmax _ Hstub). simpl in Mmax. lia. }
  assert (Hnot : (e =? number (loadCurrentEpoch this')) = false).
  { rewrite Hload. simpl. apply Z.eqb_neq. lia. }
  split; [exact Hload|]. split; [|split].
  - exists root. intros c.
    unfold epochTreeRootExists, bind, _checkValidEpoch. rewrite Hload. simpl.
    destruct (Z.gtb_spec e (e + 1)); [lia|]. cbn.
    pose proof (find_existsb
                  (fun r => (number r =? e) && field_is (epochRoot r) root)
                  (Epochs (_db this'))) as F.
    rewrite E, existsb_app, upsert_sealed_found in F. rewrite <- E in F.
    unfold findOne. now destruct (find _ _).
  - intros. unfold userSignedUpEvent, run, bind, _checkCurrentEpoch.
    rewrite Hnot. cbn. eexists. reflexivity.
  - intros. unfold attestationEvent, run, bind, _checkCurrentEpoch.
    rewrite Hnot. cbn. eexists. reflexivity.
Qed.

End AfterEpochEnd.

(** ** The read methods and [start] *)

Section ReadMethods.

Context {prover : Prover} {crypto : Crypto} {deployment : Deployment}.

Lemma firstOccurrences_in (ks seen : list Z) (k : Z) :
  In k (firstOccurrences seen ks) <-> In k ks /\ ~ In k seen.
Proof.
  revert seen. induction ks as [|x ks IH]; intros seen; simpl; [tauto|].
  destruct (Z_in x seen) eqn:S.
  - apply Z_in_In in S. rewrite IH. split.
    + intros [H1 H2]. auto.
    + intros [[->|H1] H2]; [contradiction | auto].
  - assert (Sn : ~ In x seen).
    { intros H. apply Z_in_In in H. congruence. }
    simpl. rewrite IH. simpl. split.
    + intros [<-|[H1 H2]]; [auto|]. split; [now right | tauto].
    + intros [[->|H1] H2]; [now left|].
      destruct (Z.eq_dec x k) as [->|N]; [now left|]. right. tauto.
Qed.

Lemma firstOccurrences_NoDup (ks seen : list Z) :
  NoDup (firstOccurrences seen ks).
Proof.
  revert seen. induction ks as [|x ks IH]; intros seen; simpl; [constructor|].
  destruct (Z_in x seen); [apply IH|].
  constructor; [|apply IH].
  rewrite firstOccurrences_in. simpl. tauto.
Qed.

Lemma Object_keys_in (ks : list Z) (k : Z) : In k (Object_keys ks) <-> In k ks.
Proof.
  unfold Object_keys. rewrite in_app_iff.
  assert (P : forall l, In k (orderBy_asc (fun k => k) l) <-> In k l).
  { intros l. split; intros H.
    - exact (Permutation_in k (orderBy_asc_perm _ l) H).
    - exact (Permutation_in k (Permutation_sym (orderBy_asc_perm _ l)) H). }
  rewrite P, !filter_In, firstOccurrences_in. cbn [In].
  destruct (k <? 2 ^ 32 - 1); cbn [negb]; intuition congruence.
Qed.

Lemma Object_keys_NoDup (ks : list Z) : NoDup (Object_keys ks).
Proof.
  unfold Object_keys. apply NoDup_append.
  - eapply Permutation_NoDup;
      [apply Permutation_sym, orderBy_asc_perm|].
    apply NoDup_filter, firstOccurrences_NoDup.
  - apply NoDup_filter, firstOccurrences_NoDup.
  - intros x Hx Hx'.
    apply (Permutation_in x (orderBy_asc_perm _ _)) in Hx.
    apply filter_In in Hx. apply filter_In in Hx'.
    destruct Hx as [_ H1], Hx' as [_ H2]. rewrite H1 in H2. discriminate.
Qed.

(** X13: [getEpochKeys] lists each attested epoch key of the epoch once: a
    key is in the result exactly when some Attestation row of the epoch, valid
    or not, carries it; the method throws for an epoch ahead of the current
    one. *)
Theorem getEpochKeys_lists_attested (this : Synchronizer) (epoch : Z)
  (c : Ctx) :
  (epoch > number (loadCurrentEpoch this) ->
   exists err, getEpochKeys this epoch c = Throw err)
  /\ (epoch <= number (loadCurrentEpoch this) ->
      exists keys,
        getEpochKeys this epoch c = Ok (keys, c)
        /\ NoDup keys
        /\ forall k, In k keys <->
                     exists a, In a (Attestations (_db this))
                               /\ at_epoch a = epoch /\ at_epochKey a = k).
Proof.
  unfold getEpochKeys, bind, _checkValidEpoch.
  destruct (Z.gtb_spec epoch (number (loadCurrentEpoch this))); split;
    intros Hep; try lia.
  - eexists. reflexivity.
  - eexists. split; [reflexivity|]. split; [apply Object_keys_NoDup|].
    intros k. rewrite Object_keys_in, in_map_iff. unfold findMany.
    split.
    + intros [a [Hk Ha]]. apply filter_In in Ha. destruct Ha as [Ha He].
      exists a. apply Z.eqb_eq in He. auto.
    + intros [a [Ha [He Hk]]]. exists a. split; [exact Hk|].
      apply filter_In. split; [exact Ha | now apply Z.eqb_eq].
Qed.

(** X14: [start] makes the synchronizer ready for the ingestor loop: it
    throws exactly when [setup] finds more than one unsealed epoch; otherwise
    a cursor row exists afterwards -- the row that was stored, untouched, or
    a new one at position (0, 0, 0) -- the other tables are as before, and a
    turn of the loop never fails with 'State not initialized'. *)
Theorem start_readies_the_loop (this : Synchronizer) :
  ((1 < List.length (unsealedEpochs (_db this)))%nat ->
   start this = Throw (Error "Multiple unsealed epochs"))
  /\ ((List.length (unsealedEpochs (_db this)) <= 1)%nat ->
      exists this',
        start this = Ok this'
        /\ (forall t, t <> TSynchronizerState ->
                      sameTable t (_db this) (_db this'))
        /\ SynchronizerStates (_db this')
           = match SynchronizerStates (_db this) with
             | [] => [ {| latestProcessedBlock := 0;
                          latestProcessedTransactionIndex := 0;
                          latestProcessedEventIndex := 0;
                          latestCompleteBlock := 0 |} ]
             | states => states
             end
        /\ forall events newLatest,
            exists r, daemonTurn this' events newLatest = Ok r).
Proof.
  unfold start, setup, findMany. fold (unsealedEpochs (_db this)).
  split; intros Hn.
  - apply Nat.ltb_lt in Hn. now rewrite Hn.
  - destruct (Nat.ltb_spec 1 (List.length (unsealedEpochs (_db this))));
      [lia|].
    cbn [_db]. unfold findOne.
    destruct (SynchronizerStates (_db this)) as [|st sts] eqn:S; cbn.
    + eexists. split; [reflexivity|]. cbn. split; [|split].
      * intros t Ht. destruct t; try reflexivity. contradiction.
      * reflexivity.
      * intros events newLatest. unfold daemonTurn, findOne. cbn.
        destruct (rethrown _); eexists; reflexivity.
    + eexists. split; [reflexivity|]. cbn. split; [|split].
      * intros t Ht. destruct t; reflexivity.
      * exact S.
      * intros events newLatest. unfold daemonTurn, findOne. cbn.
        rewrite S. cbn. destruct (rethrown _); eexists; reflexivity.
Qed.

End ReadMethods.

(** ** The control field of an epoch-key proof *)

Section Control.

Import BaseVerifierHelper.

Lemma shiftAndParse_field (data shiftBits variableBits : Z) :
  0 <= shiftBits -> 0 <= variableBits < 256 ->
  shiftAndParse data shiftBits variableBits
  = (data / 2 ^ shiftBits) mod 2 ^ variableBits.
Proof.
  intros Hs Hv. unfold shiftAndParse, uint.
  rewrite Z.shiftl_1_l.
  rewrite (Z.mod_small (2 ^ variableBits)).
  - rewrite Z.sub_1_r, <- Z.ones_equiv, Z.land_ones by lia.
    now rewrite Z.shiftr_div_pow2.
  - split; [apply Z.pow_nonneg; lia|].
    apply Z.pow_lt_mono_r; lia.
Qed.

Lemma low_part (m a x : Z) :
  0 < m -> 0 <= a < m -> (a + m * x) mod m = a /\ (a + m * x) / m = x.
Proof.
  intros Hm Ha. split.
  - rewrite Z.mul_comm, Z.mod_add by lia. now apply Z.mod_small.
  - rewrite Z.mul_comm, Z.div_add by lia. rewrite Z.div_small by lia. lia.
Qed.

Lemma decodeEpochKeyControl_fields_aux (control : Z) :
  let k := decodeEpochKeyControl control in
  nonce k = control mod 2 ^ 8
  /\ epoch k = (control / 2 ^ 8) mod 2 ^ 48
  /\ attesterId k = (control / 2 ^ 56) mod 2 ^ 160
  /\ revealNonce k = Z.odd (control / 2 ^ 216)
  /\ chainId k = (control / 2 ^ 217) mod 2 ^ 36.
Proof.
  intros k.
  assert (N : nonce k = control mod 2 ^ 8).
  { unfold k, decodeEpochKeyControl, nonce, uint.
    rewrite shiftAndParse_field by lia.
    rewrite Z.pow_0_r, Z.div_1_r. apply Z.mod_mod. lia. }
  assert (E : epoch k = (control / 2 ^ 8) mod 2 ^ 48).
  { unfold k, decodeEpochKeyControl, epoch, uint.
    rewrite shiftAndParse_field by lia. apply Z.mod_mod. lia. }
  assert (A : attesterId k = (control / 2 ^ 56) mod 2 ^ 160).
  { unfold k, decodeEpochKeyControl, attesterId, uint.
    rewrite shiftAndParse_field by lia. apply Z.mod_mod. lia. }
  assert (R : revealNonce k = Z.odd (control / 2 ^ 216)).
  { unfold k, decodeEpochKeyControl, revealNonce.
    rewrite shiftAndParse_field by lia.
    change (0 + 8 + 48 + 160) with 216. change (2 ^ 1) with 2.
    rewrite Zmod_odd. now destruct (Z.odd (control / 2 ^ 216)). }
  assert (C : chainId k = (control / 2 ^ 217) mod 2 ^ 36).
  { unfold k, decodeEpochKeyControl, chainId, uint.
    rewrite shiftAndParse_field by lia.
    change (0 + 8 + 48 + 160 + 1) with 217.
    apply Z.mod_small.
    pose proof (Z.mod_pos_bound (control / 2 ^ 217) (2 ^ 36)). lia. }
  repeat split; assumption.
Qed.

(** X15: whatever the control word, the decoded fields are in their ranges
    and are the bit fields of the word: the nonce its low 8 bits, then 48 bits
    of epoch, 160 bits of attester id, one bit for revealNonce and 36 bits of
    chain id; the bits from 253 up are ignored. *)
Theorem decodeEpochKeyControl_fields (control : Z) :
  let k := decodeEpochKeyControl control in
  nonce k = control mod 2 ^ 8
  /\ epoch k = (control / 2 ^ 8) mod 2 ^ 48
  /\ attesterId k = (control / 2 ^ 56) mod 2 ^ 160
  /\ revealNonce k = Z.odd (control / 2 ^ 216)
  /\ chainId k = (control / 2 ^ 217) mod 2 ^ 36
  /\ 0 <= nonce k < 2 ^ 8 /\ 0 <= epoch k < 2 ^ 48
  /\ 0 <= attesterId k < 2 ^ 160 /\ 0 <= chainId k < 2 ^ 36.
Proof.
  intros k.
  destruct (decodeEpochKeyControl_fields_aux control) as [N [E [A [R C]]]].
  fold k in N, E, A, R, C.
  repeat split; try assumption;
    rewrite ?N, ?E, ?A, ?C; apply Z.mod_pos_bound; lia.
Qed.

(** X16: decoding is the inverse of packing: a control word that carries a
    nonce below 2^8, an epoch below 2^48, an attester id below 2^160, the
    revealNonce bit and a chain id below 2^36 decodes to these five values. *)
Theorem decodeEpochKeyControl_pack (k : EpochKeyControl) :
  0 <= nonce k < 2 ^ 8 -> 0 <= epoch k < 2 ^ 48 ->
  0 <= attesterId k < 2 ^ 160 -> 0 <= chainId k < 2 ^ 36 ->
  decodeEpochKeyControl (packEpochKeyControl k) = k.
Proof.
  intros Hn He Ha Hc.
  pose proof (decodeEpochKeyControl_fields_aux (packEpochKeyControl k)) as F.
  destruct F as [N [E [A [R C]]]].
  set (b := if revealNonce k then 1 else 0) in *.
  assert (Hb : 0 <= b < 2) by (unfold b; destruct (revealNonce k); lia).
  set (x3 := b + 2 * chainId k).
  set (x2 := attesterId k + 2 ^ 160 * x3).
  set (x1 := epoch k + 2 ^ 48 * x2).
  assert (P : packEpochKeyControl k = nonce k + 2 ^ 8 * x1) by reflexivity.
  destruct (low_part (2 ^ 8) (nonce k) x1 ltac:(lia) Hn) as [M1 D1].
  destruct (low_part (2 ^ 48) (epoch k) x2 ltac:(lia) He) as [M2 D2].
  destruct (low_part (2 ^ 160) (attesterId k) x3 ltac:(lia) Ha) as [M3 D3].
  destruct (low_part 2 b (chainId k) ltac:(lia) Hb) as [M4 D4].
  assert (Q56 : packEpochKeyControl k / 2 ^ 56 = x2).
  { change (2 ^ 56) with (2 ^ 8 * 2 ^ 48).
    rewrite <- Z.div_div by lia. rewrite P, D1. exact D2. }
  assert (Q216 : packEpochKeyControl k / 2 ^ 216 = x3).
  { change (2 ^ 216) with (2 ^ 56 * 2 ^ 160).
    rewrite <- Z.div_div by lia. rewrite Q56. exact D3. }
  assert (Q217 : packEpochKeyControl k / 2 ^ 217 = chainId k).
  { change (2 ^ 217) with (2 ^ 216 * 2).
    rewrite <- Z.div_div by lia. rewrite Q216. exact D4. }
  destruct k as [n e a r ch]. cbn [nonce epoch attesterId revealNonce chainId]
    in *.
  destruct (decodeEpochKeyControl _) as [n' e' a' r' ch'] eqn:Dk.
  cbn [nonce epoch attesterId revealNonce chainId] in *.
  f_equal.
  - rewrite N, P. exact M1.
  - rewrite E, P, D1. exact M2.
  - rewrite A, Q56. exact M3.
  - rewrite R, Q216. unfold x3. rewrite Z.odd_add_mul_2.
    unfold b. now destruct r.
  - rewrite C, Q217. apply Z.mod_small. exact Hc.
Qed.

End Control.

(** ** The verdict on an attestation *)

Section AttestationVerdict.

Context {prover : Prover} {crypto : Crypto} {deployment : Deployment}.

Lemma writes_then_cursor (s : Store) (ops : list Op) (b t l : Z) :
  let s' := writes s (ops ++ [UpdateLatestProcessed b t l]) in
  GSTLeaves s' = GSTLeaves (writes s ops)
  /\ GSTRoots s' = GSTRoots (writes s ops)
  /\ Attestations s' = Attestations (writes s ops)
  /\ Nullifiers s' = Nullifiers (writes s ops)
  /\ Proofs s' = Proofs (writes s ops).
Proof. unfold writes. rewrite fold_left_app. cbn. auto. Qed.

(** C1 (as the code has it): the handler of an AttestationSubmitted event
    throws, and its transaction with it, exactly on the fatal conditions: one
    of the three checks fails, no toProof is stored, or the toProof is valid,
    fromProofIndex is not zero and no fromProof is stored; nothing is
    persisted then.  Otherwise the transaction commits and the attestation is
    the last Attestation row; its [valid] is true exactly when the toProof is
    valid and, for a non-zero fromProofIndex, the fromProof is valid and not
    spent; the row is marked [valid = false] when the toProof is invalid; in
    the success case with a non-zero fromProofIndex every Proof row of that
    epoch and index is spent afterwards. *)
Theorem attestation_verdict (this : Synchronizer) (event : Event) (lg : bool)
  (_epoch _epochKey : Z) (_attester : string) (toProofIndex fromProofIndex : Z)
  (att : AttestationArgs) :
  log event = AttestationSubmitted lg _epoch _epochKey _attester toProofIndex
                fromProofIndex att ->
  let toProof := findOne (proof_at _epoch toProofIndex) (Proofs (_db this)) in
  let fromProof :=
    findOne (proof_at _epoch fromProofIndex) (Proofs (_db this)) in
  let handler := attestationEvent this event _epoch _epochKey _attester
                   toProofIndex fromProofIndex att in
  (attestationFatal this _epoch _epochKey toProofIndex fromProofIndex = true ->
   exists err,
     run this handler = Throw err /\ transaction this event = Throw err)
  /\ (attestationFatal this _epoch _epochKey toProofIndex fromProofIndex
      = false ->
      exists this' validProof rows row,
        transaction this event = Ok this'
        /\ toProof = Some validProof
        /\ Attestations (_db this') = (rows ++ [row])%list
        /\ List.length rows = List.length (Attestations (_db this))
        /\ set_valid true row
           = set_valid true (newAttestation event _epoch _epochKey _attester
                               toProofIndex att)
        /\ (at_valid row = Some true <->
            pf_valid validProof = true
            /\ (fromProofIndex <> 0 ->
                exists fromValidProof,
                  fromProof = Some fromValidProof
                  /\ pf_valid fromValidProof = true
                  /\ truthy (pf_spent fromValidProof) = false))
        /\ (pf_valid validProof = false -> at_valid row = Some false)
        /\ (at_valid row = Some true -> fromProofIndex <> 0 ->
            forall p, In p (Proofs (_db this')) ->
                      proof_at _epoch fromProofIndex p = true ->
                      pf_spent p = Some true)).
Proof.
  intros L toProof fromProof handler.
  assert (Hh : topicHandlers this event = Some handler)
    by (unfold topicHandlers; rewrite L; reflexivity).
  pose proof (@attestationEvent_run _ this event _epoch _epochKey
                _attester toProofIndex fromProofIndex att) as R.
  cbv zeta in R. fold toProof fromProof handler in R.
  destruct (run this handler) as [[[] c]|err] eqn:E.
  - destruct R as [F [validProof [rows [row [Ht [Ha [Hl [Hn [Hv [Hi Hs]]]]]]]]]].
    split; [rewrite F; discriminate|]. intros _.
    assert (N : forall epoch, log event <> EpochEnded epoch)
      by (rewrite L; discriminate).
    pose proof (@transaction_commits _ _ _ this event handler c N Hh E) as T.
    destruct (writes_then_cursor (_db this) (tx c) (blockNumber event)
                (transactionIndex event) (logIndex event))
      as [_ [_ [Wa [_ Wp]]]].
    eexists. exists validProof, rows, row.
    split; [exact T|]. cbn [_db]. rewrite Wa, Wp.
    repeat (split; [assumption|]). assumption.
  - split; [|rewrite R; discriminate].
    intros _. exists err. split; [reflexivity|].
    exact (@transaction_throws _ _ _ this event handler err Hh E).
Qed.

End AttestationVerdict.

(** ** A transition that carries a confirmed nullifier *)

Section DuplicateTransition.

Context {prover : Prover} {crypto : Crypto} {deployment : Deployment}.






End DuplicateTransition.

(** ** The sequence of the epochs *)

Section EpochSequence.

Context {prover : Prover} {crypto : Crypto} {deployment : Deployment}.

Lemma upsert_sealed_numbers (e root : Z) (l : list Epoch) :
  map number
    (upsert (fun r => number r =? e) (set_sealed root)
       {| number := e; sealed := true; epochRoot := Some root |} l)
  = if existsb (fun r => number r =? e) l then map number l
    else (map number l ++ [e])%list.
Proof.
  unfold upsert. destruct (existsb _ l).
  - unfold update_where. rewrite map_map. apply map_ext.
    intros r. now destruct (number r =? e).
  - now rewrite map_app.
Qed.

Lemma existsb_number (n : Z) (l : list Epoch) :
  existsb (fun r => number r =? n) l = true <-> In n (map number l).
Proof.
  rewrite existsb_exists, in_map_iff. split; intros [r [A B]]; exists r.
  - apply Z.eqb_eq in B. now split.
  - split; [exact B | now apply Z.eqb_eq].
Qed.

(** A row that the sealing upsert leaves unsealed is a row it did not
    touch. *)
Lemma upsert_sealed_unsealed (e root : Z) (l : list Epoch) (r : Epoch) :
  In r (upsert (fun r => number r =? e) (set_sealed root)
          {| number := e; sealed := true; epochRoot := Some root |} l) ->
  sealed r = false -> In r l /\ number r <> e.
Proof.
  unfold upsert. destruct (existsb _ l) eqn:Ex.
  - unfold update_where. intros H S. apply in_map_iff in H.
    destruct H as [r0 [<- H0]].
    destruct (Z.eqb_spec (number r0) e); [discriminate S | now split].
  - intros H S. apply in_app_or in H.
    destruct H as [H|[<-|[]]]; [|discriminate S].
    split; [exact H|]. intros En.
    assert (F : existsb (fun r => number r =? e) l = true)
      by (apply existsb_number, in_map_iff; now exists r).
    congruence.
Qed.

Lemma unsealed_at_most_one (s : Store) :
  epochsInSequence s -> (List.length (unsealedEpochs s) <= 1)%nat.
Proof.
  intros [Hn [Hmax _]]. unfold unsealedEpochs.
  assert (In2 : forall r, In r (filter (fun e => Bool.eqb (sealed e) false)
                                  (Epochs s)) ->
                          In r (Epochs s) /\ sealed r = false).
  { intros r Hr. apply filter_In in Hr. destruct Hr as [Hr Hs].
    split; [exact Hr|]. now destruct (sealed r). }
  assert (Nf : NoDup (map number (filter (fun e => Bool.eqb (sealed e) false)
                                    (Epochs s)))).
  { clear Hmax In2. induction (Epochs s) as [|x l IH]; simpl; [constructor|].
    inversion Hn as [|? ? Hx Hn']; subst.
    destruct (Bool.eqb (sealed x) false); [|now apply IH].
    simpl. constructor; [|now apply IH].
    intros H. apply Hx. apply in_map_iff in H. destruct H as [y [Ey Hy]].
    apply filter_In in Hy. apply in_map_iff. exists y. tauto. }
  destruct (filter _ (Epochs s)) as [|x [|y l]]; simpl; try lia.
  exfalso.
  destruct (In2 x (or_introl eq_refl)) as [Hx Sx].
  destruct (In2 y (or_intror (or_introl eq_refl))) as [Hy Sy].
  pose proof (Hmax x y Hx Hy Sx). pose proof (Hmax y x Hy Hx Sy).
  inversion Nf as [|? ? Hnx _]; subst. apply Hnx. left. lia.
Qed.

(** The step of the EpochEnded handler, on the table. *)
Lemma epochEnded_keeps_sequence (s s' : Store) (e root : Z) :
  epochsInSequence s ->
  0 <= e ->
  (Epochs s = [] -> e <= 1) ->
  (Epochs s <> [] -> exists rc, In rc (Epochs s) /\ e <= number rc) ->
  existsb (fun r => number r =? e + 1) (Epochs s) = false ->
  Epochs s'
  = (upsert (fun r => number r =? e) (set_sealed root)
       {| number := e; sealed := true; epochRoot := Some root |} (Epochs s)
     ++ [stubEpoch e])%list ->
  epochsInSequence s'.
Proof.
  intros [H0 [H1 H2]] He Hempty Hcur Hnext Es'.
  set (T := Epochs s) in *.
  set (U := upsert (fun r => number r =? e) (set_sealed root)
              {| number := e; sealed := true; epochRoot := Some root |} T)
    in *.
  assert (A : forall r, In r T -> number r <= e).
  { intros r Hr. destruct (Z_le_gt_dec (number r) e) as [L|G]; [exact L|].
    exfalso. destruct (H2 r (e + 1) Hr ltac:(lia)) as [r' [Hr' En]].
    assert (F : existsb (fun r => number r =? e + 1) T = true)
      by (apply existsb_number, in_map_iff; now exists r').
    congruence. }
  assert (B : T <> [] -> exists re, In re T /\ number re = e).
  { intros Hne. destruct (Hcur Hne) as [rc [Hrc Le]].
    exists rc. split; [exact Hrc|]. specialize (A rc Hrc). lia. }
  assert (NU : forall n, In n (map number U) -> n <= e).
  { intros n Hn. unfold U in Hn. rewrite upsert_sealed_numbers in Hn.
    destruct (existsb (fun r => number r =? e) T).
    - apply in_map_iff in Hn. destruct Hn as [r [<- Hr]]. now apply A.
    - apply in_app_or in Hn. destruct Hn as [Hn|[<-|[]]]; [|lia].
      apply in_map_iff in Hn. destruct Hn as [r [<- Hr]]. now apply A. }
  assert (TU : forall n, In n (map number T) -> In n (map number U)).
  { intros n Hn. unfold U. rewrite upsert_sealed_numbers.
    destruct (existsb (fun r => number r =? e) T);
      [exact Hn | apply in_or_app; now left]. }
  unfold epochsInSequence. rewrite Es'. split; [|split].
  - rewrite map_app. simpl. apply NoDup_append.
    + unfold U. rewrite upsert_sealed_numbers.
      destruct (existsb (fun r => number r =? e) T) eqn:Ex; [exact H0|].
      apply NoDup_append; [exact H0 | repeat constructor; intros [] |].
      intros x Hx [<-|[]].
      apply existsb_number in Hx. congruence.
    + repeat constructor. intros [].
    + intros x Hx [E|[]]. specialize (NU x Hx). lia.
  - intros r r' Hr Hr' S.
    assert (Le : number r' <= e + 1).
    { apply in_app_or in Hr'. destruct Hr' as [Hr'|[<-|[]]]; [|simpl; lia].
      assert (number r' <= e) by (apply NU, in_map; exact Hr'). lia. }
    apply in_app_or in Hr. destruct Hr as [Hr|[<-|[]]]; [|exact Le].
    exfalso. destruct (upsert_sealed_unsealed _ _ _ _ Hr S) as [HrT Hne].
    assert (Tne : T <> []) by (intros E; rewrite E in HrT; contradiction).
    destruct (B Tne) as [re [Hre Ee]].
    pose proof (H1 r re HrT Hre S). specialize (A r HrT). lia.
  - intros r n Hr Hn.
    assert (Le : number r <= e + 1).
    { apply in_app_or in Hr. destruct Hr as [Hr|[<-|[]]]; [|simpl; lia].
      assert (number r <= e) by (apply NU, in_map; exact Hr). lia. }
    assert (G : In n (map number (U ++ [stubEpoch e]))).
    { rewrite map_app. apply in_or_app.
      destruct (Z.eq_dec n (e + 1)) as [->|Hne]; [right; now left|].
      left. destruct T as [|x T'] eqn:ET.
      - specialize (Hempty eq_refl).
        unfold U. rewrite upsert_sealed_numbers. simpl. left. lia.
      - destruct (B ltac:(discriminate)) as [re [Hre Ee]].
        apply TU. destruct (H2 re n Hre ltac:(lia)) as [r' [Hr' En]].
        apply in_map_iff. now exists r'. }
    apply in_map_iff in G. destruct G as [r' [En Hr']]. now exists r'.
Qed.

Lemma transaction_keeps_sequence (this this' : Synchronizer) (event : Event) :
  epochsInSequence (_db this) ->
  transaction this event = Ok this' ->
  epochsInSequence (_db this').
Proof.
  intros Hs T.
  assert (O : (forall epoch, log event <> EpochEnded epoch) ->
              epochsInSequence (_db this')).
  { intros N. unfold epochsInSequence.
    rewrite (@transaction_other _ _ _ this this' event N T). exact Hs. }
  destruct (log event) eqn:L; try (apply O; discriminate).
  destruct (@transaction_epochEnded _ _ _ this this' event epoch L T)
    as [Le [Hnext [root E]]].
  pose proof (loadCurrentEpoch_max this) as M.
  apply (epochEnded_keeps_sequence (_db this) (_db this') (Z.of_N epoch) root);
    auto.
  - lia.
  - intros Em. rewrite Em in M. rewrite M in Le. exact Le.
  - intros Hne. destruct (Epochs (_db this)) as [|x l]; [contradiction|].
    exists (loadCurrentEpoch this). split; [apply M | exact Le].
Qed.

Lemma committed_in_sequence (events : list Event) :
  forall this : Synchronizer,
    epochsInSequence (_db this) ->
    Forall (fun st => epochsInSequence (_db st)) (committed this events).
Proof.
  induction events as [|e events IH]; intros this Hs; simpl; [constructor|].
  destruct (transaction this e) as [this'|err] eqn:T; [|constructor].
  pose proof (transaction_keeps_sequence this this' e Hs T) as Hs'.
  constructor; [exact Hs' | now apply IH].
Qed.

(** C8: at most one Epoch row is unsealed after every committed transaction.
    The Epoch table is in sequence -- no two rows share a number, only the
    row with the highest number may be unsealed, every number from 1 up to a
    row has its row -- when it is empty, and every committed transaction keeps
    it in sequence, whatever the event; a table in sequence has at most one
    unsealed row.  Only the EpochEnded handler writes Epoch rows: it seals the
    rows of the ending epoch (creating a sealed one when there is none) and
    creates one unsealed stub for the next, which the store accepts only when
    no row holds that number.  [setup] throws when it finds more than one
    unsealed Epoch row. *)
Theorem at_most_one_unsealed_epoch (this : Synchronizer) :
  (Epochs (_db this) = [] -> epochsInSequence (_db this))
  /\ (epochsInSequence (_db this) ->
      (List.length (unsealedEpochs (_db this)) <= 1)%nat
      /\ forall events,
          Forall (fun st =>
                    epochsInSequence (_db st)
                    /\ (List.length (unsealedEpochs (_db st)) <= 1)%nat)
            (committed this events))
  /\ (forall event this',
         transaction this event = Ok this' ->
         match log event with
         | EpochEnded e =>
             let epoch := Z.of_N e in
             existsb (fun r => number r =? epoch + 1) (Epochs (_db this))
             = false
             /\ exists root,
                 Epochs (_db this')
                 = (upsert (fun r => number r =? epoch) (set_sealed root)
                      {| number := epoch; sealed := true;
                         epochRoot := Some root |}
                      (Epochs (_db this))
                    ++ [stubEpoch epoch])%list
         | _ => Epochs (_db this') = Epochs (_db this)
         end)
  /\ ((1 < List.length (unsealedEpochs (_db this)))%nat ->
      setup this = Throw (Error "Multiple unsealed epochs")).
Proof.
  split; [|split; [|split]].
  - intros E. unfold epochsInSequence. rewrite E. simpl.
    split; [constructor|]. split; intros r; intros; contradiction.
  - intros Hs. split; [now apply unsealed_at_most_one|].
    intros events. pose proof (committed_in_sequence events this Hs) as F.
    eapply Forall_impl; [|exact F].
    intros st Hst. split; [exact Hst | now apply unsealed_at_most_one].
  - intros event this' T.
    destruct (log event) eqn:L;
      try (apply (@transaction_other _ _ _ this this' event);
           [rewrite L; discriminate | exact T]).
    destruct (@transaction_epochEnded _ _ _ this this' event epoch L T)
      as [_ [Hnext E]].
    split; assumption.
  - intros H. unfold setup, findMany. fold (unsealedEpochs (_db this)).
    apply Nat.ltb_lt in H. now rewrite H.
Qed.

End EpochSequence.

(** ** Runs of the properties above *)

Section MoreRuns.

#[local] Existing Instance Toy.accepting.
#[local] Existing Instance Toy.crypto.
#[local] Existing Instance Toy.deployment.

(** An attestation to the valid proof 1 is persisted valid; on the empty
    store, where no proof is stored, it throws. *)
Lemma attestation_verdict_witness :
  (let this := Toy.synchronizer Toy.spentStore in
   exists this' row,
     transaction this (Toy.attest 0) = Ok this'
     /\ Attestations (_db this') = [row] /\ at_valid row = Some true)
  /\ exists err, transaction Toy.this0 (Toy.attest 0) = Throw err.
Proof.
  split.
  - intros this.
    destruct (@attestation_verdict _ _ _ this (Toy.attest 0) false 1 5
                "0xa77e57e2" 1 0 Toy.att0 eq_refl) as [_ H].
    destruct (H eq_refl)
      as [this' [vp [rows [row [T [Ht [Ha [Hl [_ [Hv _]]]]]]]]]].
    exists this', row. split; [exact T|].
    destruct rows; [|discriminate Hl]. split; [exact Ha|].
    apply Hv. split.
    + vm_compute in Ht. injection Ht as <-. reflexivity.
    + intros E. now elim E.
  - destruct (@attestation_verdict _ _ _ Toy.this0 (Toy.attest 0) false 1 5
                "0xa77e57e2" 1 0 Toy.att0 eq_refl) as [H _].
    destruct (H eq_refl) as [err [_ T]]. now exists err.
Defined.




(** From the empty store, a sign-up and the ends of the epochs 1 and 2. *)
Lemma at_most_one_unsealed_epoch_witness :
  Forall (fun st => epochsInSequence (_db st)
                    /\ (List.length (unsealedEpochs (_db st)) <= 1)%nat)
    (committed Toy.this0 (sortEvents Toy.batch))
  /\ List.length (committed Toy.this0 (sortEvents Toy.batch)) = 3%nat.
Proof.
  split; [|reflexivity].
  destruct (at_most_one_unsealed_epoch Toy.this0) as [E [S _]].
  apply (proj2 (S (E eq_refl))).
Defined.

(** The end of epoch 1, delivered again when epoch 2 is open: the store
    rejects the second stub and nothing is committed. *)
Example replayed_epoch_end_aborts :
  transaction (Toy.synchronizer Toy.leafStore)
    (Toy.event 12 0 0 (EpochEnded 1))
  = Throw (Error "UNIQUE constraint failed: Epoch.number").
Proof. reflexivity. Qed.

(** A table that is not in sequence need not stay with one unsealed row: with
    epoch 1 sealed, epoch 3 open and no epoch 2, the end of epoch 1 commits a
    second unsealed row. *)
Example unsealed_from_a_gap :
  exists this',
    transaction (Toy.synchronizer Toy.gapStore)
      (Toy.event 12 0 0 (EpochEnded 1)) = Ok this'
    /\ map number (unsealedEpochs (_db this')) = [3; 2].
Proof. eexists. split; reflexivity. Qed.

(** An accepted attestation on a store with two proofs: the leaves, the
    nullifiers and the epochs are as before, the cursor is at the event. *)
Lemma transaction_write_set_witness :
  let this := Toy.synchronizer Toy.spentStore in
  match transaction this (Toy.attest 0) with
  | Ok this' =>
      GSTLeaves (_db this') = GSTLeaves (_db this)
      /\ Nullifiers (_db this') = Nullifiers (_db this)
      /\ Epochs (_db this') = Epochs (_db this)
      /\ map cursor (SynchronizerStates (_db this')) = [(7, 0, 3)]
  | Throw _ => False
  end.
Proof.
  intros this.
  destruct (transaction this (Toy.attest 0)) as [this'|err] eqn:T;
    [|vm_compute in T; discriminate T].
  destruct (@transaction_write_set _ _ _ this _ (Toy.attest 0) T)
    as [W [S _]].
  split; [|split; [|split]].
  - apply (W TGSTLeaf); [reflexivity | discriminate].
  - apply (W TNullifier); [reflexivity | discriminate].
  - apply (W TEpoch); [reflexivity | discriminate].
  - rewrite S. reflexivity.
Defined.

(** The batch of three events on a store with the cursor at (0, 0, 0). *)
Lemma daemon_cursor_monotone_witness :
  let this := Toy.synchronizer Toy.spentStore in
  match daemonTurn this Toy.batch 3 with
  | Ok r =>
      exists state',
        findOne (fun _ => true) (SynchronizerStates (_db (final r)))
        = Some state'
        /\ pos_le (cursor Toy.state0) (cursor state')
        /\ forall e, In e (emitted r) -> pos_le (position e) (cursor state')
  | Throw _ => False
  end.
Proof.
  intros this.
  destruct (daemonTurn this Toy.batch 3) as [r|err] eqn:T;
    [|vm_compute in T; discriminate T].
  destruct (@daemon_cursor_monotone _ _ _ this Toy.batch 3 Toy.state0 r
              eq_refl T) as [state' [F [L [A _]]]].
  exists state'. split; [exact F|]. split; [exact L | exact A].
Defined.

(** The same batch, given to a second turn. *)
Lemma daemon_replay_is_noop_witness :
  let this := Toy.synchronizer Toy.spentStore in
  match daemonTurn this Toy.batch 3 with
  | Ok r =>
      exists r',
        daemonTurn (final r) Toy.batch 4 = Ok r'
        /\ invoked r' = [] /\ emitted r' = [] /\ rethrown r' = None
  | Throw _ => False
  end.
Proof.
  intros this.
  destruct (daemonTurn this Toy.batch 3) as [r|err] eqn:T;
    [|vm_compute in T; discriminate T].
  assert (N : rethrown r = None).
  { pose proof T as T'. vm_compute in T'. injection T' as <-. reflexivity. }
  destruct (@daemon_replay_is_noop _ _ _ this Toy.batch 3 4 r T N)
    as [r' [T2 [I [E [R _]]]]].
  exists r'. split; [exact T2|]. split; [exact I|]. split; [exact E | exact R].
Defined.

(** Two leaves in the open epoch 2. *)
Lemma setup_rebuilds_tree_witness :
  let this := Toy.synchronizer Toy.leafStore in
  exists this' t,
    setup this = Ok this'
    /\ _db this' = _db this
    /\ _globalStateTree this' = Some t
    /\ forall c, genGSTree this' 2 c = Ok (t, c).
Proof.
  intros this.
  destruct (@setup_rebuilds_tree _ _ this) as [this' [t [S [D [_ [G N]]]]]].
  - simpl. lia.
  - exists this', t. split; [exact S|]. split; [exact D|].
    split; [exact G | exact N].
Defined.

(** A sign-up for epoch 2, which has two leaves. *)
Lemma leaf_indices_dense_witness :
  let this := Toy.synchronizer Toy.leafStore in
  match transaction this Toy.signUp with
  | Ok this' => denseLeaves (_db this')
  | Throw _ => False
  end.
Proof.
  intros this.
  destruct (transaction this Toy.signUp) as [this'|err] eqn:T;
    [|vm_compute in T; discriminate T].
  apply (@leaf_indices_dense _ _ _ this this' Toy.signUp); [|exact T].
  intros epoch.
  destruct (Z.eq_dec epoch 1) as [->|N1]; [reflexivity|].
  destruct (Z.eq_dec epoch 2) as [->|N2]; [reflexivity|].
  subst this. cbv zeta.
  cbn [Toy.synchronizer _db Toy.leafStore GSTLeaves filter gl_epoch].
  rewrite (proj2 (Z.eqb_neq 1 epoch)), (proj2 (Z.eqb_neq 2 epoch)) by lia.
  reflexivity.
Defined.

(** The same sign-up: the epoch has three leaves afterwards and the new root
    is found. *)
Lemma signup_reads_back_witness :
  let this := Toy.synchronizer Toy.leafStore in
  match transaction this Toy.signUp with
  | Ok this' =>
      forall c,
        getNumGSTLeaves this' 2 c = Ok (3, c)
        /\ GSTRootExists this' (imt_root [hashLeftRight 42 15]) 2 c
           = Ok (true, c)
  | Throw _ => False
  end.
Proof.
  intros this.
  destruct (transaction this Toy.signUp) as [this'|err] eqn:T;
    [|vm_compute in T; discriminate T].
  destruct (@signup_reads_back _ _ _ this this' Toy.signUp 2 42 1 10 eq_refl
              T) as [t [T0 [_ [_ R]]]].
  injection T0 as <-. exact R.
Defined.

(** A transition whose proof lists the new nullifier 8, in a store that holds
    the confirmed nullifier 9. *)
Lemma confirmed_nullifiers_stay_unique_witness :
  let this := Toy.synchronizer (Toy.transitionStore 8 71 [1; 2]) in
  match transaction this Toy.transitioned with
  | Ok this' => uniqueConfirmed (_db this')
  | Throw _ => False
  end.
Proof.
  intros this.
  destruct (transaction this Toy.transitioned) as [this'|err] eqn:T;
    [|vm_compute in T; discriminate T].
  apply (@confirmed_nullifiers_stay_unique _ _ _ this this' Toy.transitioned).
  - repeat constructor; simpl; intuition discriminate.
  - exact T.
  - intros i e args H. discriminate H.
  - intros epoch leaf proofIndex tp ps H F P.
    injection H as <- <- <-. vm_compute in F. injection F as <-.
    injection P as <-. repeat constructor; simpl; intuition discriminate.
Defined.

(** The same transition, delivered again after a sign-up has been
    committed. *)
Lemma transition_not_replayed_witness :
  let this := Toy.synchronizer (Toy.transitionStore 8 71 [1; 2]) in
  match transactions this [Toy.transitioned; Toy.signUp] with
  | Ok later =>
      forall c,
        run later (USTEvent later Toy.transitioned 2 100 3) = Ok (tt, c) ->
        tx c = [] /\ tree c = _globalStateTree later
  | Throw _ => False
  end.
Proof.
  intros this. cbn [transactions].
  destruct (transaction this Toy.transitioned) as [this'|err] eqn:T;
    [|vm_compute in T; discriminate T].
  assert (Hleaf : GSTLeaves (_db this') <> GSTLeaves (_db this)).
  { pose proof T as T'. vm_compute in T'. injection T' as <-. discriminate. }
  destruct (transaction this' Toy.signUp) as [later|err] eqn:T2.
  2:{ pose proof T as T'. vm_compute in T'. injection T' as <-.
      vm_compute in T2. discriminate T2. }
  intros c.
  apply (@transition_not_replayed _ _ _ this this' Toy.transitioned 2 100 3
           (Toy.transitionProof 8 71 [1; 2]) (Toy.transitionSignals 8 71)
           eq_refl T Hleaf eq_refl eq_refl eq_refl ltac:(discriminate)
           [Toy.signUp] later).
  right. cbn [committed]. rewrite T2. now left.
Defined.

(** The first attestation to epoch key 5. *)
Lemma epoch_keys_well_formed_witness :
  let this := Toy.synchronizer Toy.spentStore in
  match transaction this (Toy.attest 0) with
  | Ok this' =>
      uniqueEpochKeys (_db this')
      /\ epochKeysInRange this'
      /\ forall epoch c,
          epoch <= number (loadCurrentEpoch this') ->
          genEpochTree this' epoch c = Ok (epochTreeOf this' epoch, c)
  | Throw _ => False
  end.
Proof.
  intros this.
  destruct (transaction this (Toy.attest 0)) as [this'|err] eqn:T;
    [|vm_compute in T; discriminate T].
  apply (@epoch_keys_well_formed _ _ _ this this' (Toy.attest 0)).
  - constructor.
  - intros k [].
  - exact T.
Defined.

(** The same attestation: its row is valid, and so is every row of the
    key. *)
Lemma accepted_attestation_validates_key_witness :
  let this := Toy.synchronizer Toy.spentStore in
  match transaction this (Toy.attest 0) with
  | Ok this' =>
      forall a, In a (Attestations (_db this')) ->
                at_epoch a = 1 -> at_epochKey a = 5 ->
                at_valid a = Some true
  | Throw _ => False
  end.
Proof.
  intros this.
  destruct (transaction this (Toy.attest 0)) as [this'|err] eqn:T;
    [|vm_compute in T; discriminate T].
  apply (@accepted_attestation_validates_key _ _ _ this this' (Toy.attest 0)
           false 1 5 "0xa77e57e2" 1 0 Toy.att0 eq_refl T).
  pose proof T as T'. vm_compute in T'. injection T' as <-.
  exists []. eexists. split; reflexivity.
Defined.

(** Epoch 2 ends; a sign-up for epoch 2 that arrives afterwards throws. *)
Lemma epoch_end_moves_on_witness :
  let this := Toy.synchronizer Toy.leafStore in
  match transaction this Toy.epochEnd with
  | Ok this' =>
      loadCurrentEpoch this' = stubEpoch 2
      /\ exists err,
          run this' (userSignedUpEvent this' Toy.signUp 2 42 1 10)
          = Throw err
  | Throw _ => False
  end.
Proof.
  intros this.
  destruct (transaction this Toy.epochEnd) as [this'|err] eqn:T;
    [|vm_compute in T; discriminate T].
  destruct (@epoch_end_moves_on _ _ _ this this' Toy.epochEnd 2 eq_refl
              eq_refl T) as [L [_ [S _]]].
  split; [exact L|]. apply S.
Defined.

(** A control word with all bits of the attester id set. *)
Lemma decodeEpochKeyControl_pack_witness :
  let k := {| BaseVerifierHelper.nonce := 3;
              BaseVerifierHelper.epoch := 77;
              BaseVerifierHelper.attesterId := 2 ^ 160 - 1;
              BaseVerifierHelper.revealNonce := true;
              BaseVerifierHelper.chainId := 31337 |} in
  BaseVerifierHelper.decodeEpochKeyControl
    (BaseVerifierHelper.packEpochKeyControl k) = k.
Proof.
  intros k. apply (decodeEpochKeyControl_pack k); simpl; lia.
Defined.

End MoreRuns.
